(** * char-overlap-detector: the overlap engine of [run.py]

    A shallow embedding of the geometric core of [run.py]: the box
    predicates, the overlap metrics, the watermark classifier, the
    whitespace trimmer, the page grouper, the pairwise overlap finder,
    the position labeler and the character statistics; and of what
    surrounds it: the annotation overlay, the JSON export data, the
    per-document orchestration and the batch loop.

    Conventions of the embedding.

    - Python [float] values are modelled as exact rationals ([Q]).  In the
      geometry, whose inputs are measured coordinates, every arithmetic
      operation is exact; the binary64 rounding error of a single operation
      is not modelled there.  [round(x, 2)] is modelled as rounding to the
      nearest multiple of 1/100, ties to even, which is what CPython does
      on the exact value of its argument.  Numeric equality is [Qeq]
      ([==]), as Python's [==] on floats is numeric.
    - The statistics engine computes its percentages from integers; its
      division, multiplication and rounding are modelled to the bit
      ([Binary64]), so that the values are the ones CPython returns.
    - Python [int] is [Z]; [str] is a list of Unicode code points.
    - A [dict] is an association list in insertion order with the usual
      lookup/assign operations; a [set] is a duplicate-free list (its
      iteration order, unspecified in Python, is never relied upon).
    - Exceptions are values of a small error monad ([result]).
    - Built-in string methods whose Unicode tables are not part of the
      repository ([str.upper], [str.isdigit], [str.isalpha]) are section
      variables.
    - The PDF libraries and the file system are collaborators: the glyph
      extractor, the page sizes of a document, [os.path.splitext] and
      [os.path.basename] are parameters, drawing is the list of canvas
      calls, and writing a file is an event.  Console output is not
      modelled. *)

From Stdlib Require Import QArith Qround Qpower Qabs ZArith NArith List.
From Stdlib Require Import Bool String Ascii DecimalString Lia Lqa.
From Stdlib Require Import Sorting.Sorted Sorting.Permutation SetoidList.
Import ListNotations.

Open Scope Q_scope.

(* ================================================================== *)
(** ** Numbers *)

Module Num.

Definition Qltb (x y : Q) : bool := negb (Qle_bool y x).
Definition Qleb (x y : Q) : bool := Qle_bool x y.

(** Python's two-argument [max] and [min] return the first argument
    unless the second is strictly larger (resp. smaller). *)
Definition py_max (a b : Q) : Q := if Qltb a b then b else a.
Definition py_min (a b : Q) : Q := if Qltb b a then b else a.

(** Nearest integer, ties to even. *)
Definition round_half_even (q : Q) : Z :=
  let f := Qfloor q in
  let r := q - inject_Z f in
  if Qltb r (1 # 2) then f
  else if Qltb (1 # 2) r then (f + 1)%Z
  else if Z.even f then f else (f + 1)%Z.

(** [round(x, 2)]. *)
Definition round2 (x : Q) : Q := inject_Z (round_half_even (x * 100)) / 100.

(** A number with at most two decimals. *)
Definition two_decimals (x : Q) : Prop := exists n : Z, x == inject_Z n / 100.

End Num.
Import Num.

(* ================================================================== *)
(** ** Exceptions *)

Inductive exn : Type :=
| ValueError (msg : string)
| ZeroDivisionError.

Inductive result (A : Type) : Type :=
| Ok (a : A)
| Raise (e : exn).
Arguments Ok {A} a.
Arguments Raise {A} e.

Definition bind {A B : Type} (m : result A) (k : A -> result B) : result B :=
  match m with
  | Ok a => k a
  | Raise e => Raise e
  end.

Declare Scope py_scope.
Delimit Scope py_scope with py.
Notation "x <- m ;; k" := (bind m (fun x => k))
  (at level 61, m at next level, right associativity) : py_scope.
Open Scope py_scope.

(** Float division: raises on a zero divisor. *)
Definition py_div (x y : Q) : result Q :=
  if Qeq_bool y 0 then Raise ZeroDivisionError else Ok (x / y).

(* ================================================================== *)
(** ** Geometry primitives *)

(** A bounding box is the tuple [(x, y, w, h)]. *)
Definition Box : Type := (Q * Q * Q * Q)%type.

Definition intersects (a b : Box) : bool :=
  let '(ax, ay, aw, ah) := a in
  let '(bx, by_, bw, bh) := b in
  negb (Qleb (ax + aw) bx || Qleb (bx + bw) ax
        || Qleb (ay + ah) by_ || Qleb (by_ + bh) ay).

Record Metrics : Type := mkMetrics {
  overlap_area : Q;
  percentage_of_a : Q;
  percentage_of_b : Q;
  percentage_of_total : Q
}.

(** [(overlap_area / area * 100) if area > 0 else 0] *)
Definition guarded_percentage (overlap area : Q) : result Q :=
  if Qltb 0 area then (q <- py_div overlap area ;; Ok (q * 100)) else Ok 0.

Definition calculate_overlap_percentage (a b : Box) : result Metrics :=
  let '(ax, ay, aw, ah) := a in
  let '(bx, by_, bw, bh) := b in
  let x_left := py_max ax bx in
  let y_bottom := py_max ay by_ in
  let x_right := py_min (ax + aw) (bx + bw) in
  let y_top := py_min (ay + ah) (by_ + bh) in
  if Qltb x_right x_left || Qltb y_top y_bottom then
    Ok (mkMetrics 0 0 0 0)
  else
    let overlap := (x_right - x_left) * (y_top - y_bottom) in
    let area_a := aw * ah in
    let area_b := bw * bh in
    let total_area := area_a + area_b - overlap in
    pa <- guarded_percentage overlap area_a ;;
    pb <- guarded_percentage overlap area_b ;;
    pt <- guarded_percentage overlap total_area ;;
    Ok (mkMetrics (round2 overlap) (round2 pa) (round2 pb) (round2 pt)).

(* ================================================================== *)
(** ** Strings, dictionaries and sets *)

(** A Python [str]: its sequence of code points. *)
Definition str : Type := list N.

(** An ASCII literal as a [str]. *)
Definition py_str (s : string) : str :=
  map N_of_ascii (list_ascii_of_string s).

Fixpoint str_eqb (s t : str) : bool :=
  match s, t with
  | [], [] => true
  | c :: s', d :: t' => N.eqb c d && str_eqb s' t'
  | _, _ => false
  end.

(** [set(list(s))]: the one-character strings of [s]. *)
Definition char_set (s : str) : list str := map (fun c => [c]) s.

(** [ch in chars] *)
Definition str_in (ch : str) (chars : list str) : bool :=
  existsb (str_eqb ch) chars.

(** A [dict] keyed by page number, in insertion order. *)
Definition Dict (V : Type) : Type := list (Z * V).

Definition dict_keys {V : Type} (d : Dict V) : list Z := map fst d.

Fixpoint dict_get {V : Type} (k : Z) (d : Dict V) : option V :=
  match d with
  | [] => None
  | (k', v) :: rest => if Z.eqb k k' then Some v else dict_get k rest
  end.

(** [d[k] = v] *)
Fixpoint dict_set {V : Type} (k : Z) (v : V) (d : Dict V) : Dict V :=
  match d with
  | [] => [(k, v)]
  | (k', v') :: rest =>
      if Z.eqb k k' then (k, v) :: rest else (k', v') :: dict_set k v rest
  end.

(** [d.setdefault(k, []).append(x)] *)
Fixpoint dict_setdefault_append {V : Type} (k : Z) (x : V) (d : Dict (list V))
  : Dict (list V) :=
  match d with
  | [] => [(k, [x])]
  | (k', l) :: rest =>
      if Z.eqb k k' then (k', l ++ [x]) :: rest
      else (k', l) :: dict_setdefault_append k x rest
  end.

Definition box_eqb (a b : Box) : bool :=
  let '(ax, ay, aw, ah) := a in
  let '(bx, by_, bw, bh) := b in
  Qeq_bool ax bx && Qeq_bool ay by_ && Qeq_bool aw bw && Qeq_bool ah bh.

Definition box_eq (a b : Box) : Prop := box_eqb a b = true.

(** [s.add(b)] on a set of boxes: tuples are compared componentwise
    with numeric equality. *)
Definition set_add (b : Box) (s : list Box) : list Box :=
  if existsb (box_eqb b) s then s else s ++ [b].

(* ================================================================== *)
(** ** Records of the pipeline *)

(** A glyph record as delivered by the extractor.  [page] and [fontSize]
    are read with [dict.get], so they may be absent. *)
Module Glyph.
Record t : Type := mk {
  char : str;
  page : option Z;
  bbox : Box;
  fontSize : option Q
}.
End Glyph.

(** The per-page glyph dict built by the grouper. *)
Module PageGlyph.
Record t : Type := mk {
  char : str;
  x : Q;
  y : Q;
  width : Q;
  height : Q
}.
End PageGlyph.

(** The trim table [{'left': .., 'right': .., 'top': .., 'bottom': ..}];
    [_apply_trim] reads every key with [dict.get(key, 0.0)]. *)
Module Percents.
Record t : Type := mk {
  left : option Q;
  right : option Q;
  top : option Q;
  bottom : option Q
}.
Definition get (v : option Q) : Q :=
  match v with Some q => q | None => 0 end.
End Percents.

Module Overlap.
Record t : Type := mk {
  page : Z;
  a : Box;
  b : Box;
  char_a : str;
  char_b : str;
  percentage_of_union : Q
}.
End Overlap.

Module CharStat.
Record t : Type := mk {
  character : str;
  overlap_count : Z;
  percentage : Q
}.
End CharStat.

(** The local variables of [group_glyphs_by_page]: the map under
    construction and the two counters it prints when it is done. *)
Module Group.
Record t : Type := mk {
  by_page : Dict (list PageGlyph.t);
  filtered_count : Z;
  trimmed_count : Z
}.
End Group.

(* ================================================================== *)
(** ** Watermark classifier, trimmer and page grouper *)

Section Pipeline.

(** [str.upper], [str.isdigit], [str.isalpha]. *)
Variable str_upper : str -> str.
Variable str_isdigit : str -> bool.
Variable str_isalpha : str -> bool.

(** [glyph.get('fontSize', 0)] *)
Definition get_fontSize (glyph : Glyph.t) : Q :=
  match Glyph.fontSize glyph with Some f => f | None => 0 end.

(** [set('UNCORRECTEDPROFDTALIMWY')] *)
Definition watermark_chars : list str :=
  char_set (py_str "UNCORRECTEDPROFDTALIMWY").

Definition default_watermark_font_size : Q := 40.

(** The [watermark_patterns] argument of the source is assigned a default
    and never read; it is left out. *)
Definition is_watermark (glyph : Glyph.t) (watermark_font_size : Q) : bool :=
  if Qleb watermark_font_size (get_fontSize glyph) then true
  else
    let char := Glyph.char glyph in
    if Qltb 20 (get_fontSize glyph) then
      if Nat.eqb (List.length char) 1 && str_in (str_upper char) watermark_chars
      then true
      else false
    else false.

Definition punct_small : list str := char_set (py_str ",.;:`'" ++ [34%N]).
Definition thin_stems : list str := char_set (py_str "il|1t").
Definition hooks : list str := char_set (py_str "fj").
Definition brackets : list str := char_set (py_str "()[]{}").
(** plus, minus, equals, U+00D7, U+00F7, slash, star, backslash *)
Definition math_ops : list str :=
  char_set (py_str "+-=" ++ [215%N; 247%N] ++ py_str "/*\").
(** U+201C, U+201D, U+2018, U+2019, double quote, apostrophe *)
Definition quotes : list str :=
  char_set [8220%N; 8221%N; 8216%N; 8217%N; 34%N; 39%N].
(** U+02DC, ^, ~, U+02C7, U+02D8, U+00A8, U+02DA, U+02D9, U+02DB, U+02DD *)
Definition diacritics : list str :=
  char_set [732%N; 94%N; 126%N; 711%N; 728%N; 168%N; 730%N; 729%N; 731%N; 733%N].

Definition _get_char_trim_percents (ch : str) (scale : Q) : Percents.t :=
  let '(lr, tb) :=
    if str_in ch punct_small then (0.25 * scale, 0.25 * scale)
    else if str_in ch thin_stems then (0.12 * scale, 0.18 * scale)
    else if str_in ch hooks then (0.10 * scale, 0.12 * scale)
    else if str_in ch brackets || str_in ch quotes then (0.08 * scale, 0.10 * scale)
    else if str_in ch math_ops then (0.10 * scale, 0.10 * scale)
    else if str_in ch diacritics then (0.20 * scale, 0.20 * scale)
    else if str_isdigit ch then (0.06 * scale, 0.08 * scale)
    else if str_isalpha ch then (0.07 * scale, 0.10 * scale)
    else (0.05 * scale, 0.05 * scale) in
  Percents.mk (Some lr) (Some lr) (Some tb) (Some tb).

Definition _apply_trim (bbox : Box) (percents : Percents.t) : Box :=
  let '(x, y, w, h) := bbox in
  if Qleb w 0 || Qleb h 0 then (x, y, w, h)
  else
    let lt := Percents.get (Percents.left percents) in
    let rt := Percents.get (Percents.right percents) in
    let tp := Percents.get (Percents.top percents) in
    let bt := Percents.get (Percents.bottom percents) in
    let dx_left := w * lt in
    let dx_right := w * rt in
    let dy_top := h * tp in
    let dy_bottom := h * bt in
    let new_x := x + dx_left in
    let new_y := y + dy_bottom in
    let new_w := py_max 0.1 (w - dx_left - dx_right) in
    let new_h := py_max 0.1 (h - dy_top - dy_bottom) in
    (new_x, new_y, new_w, new_h).

Definition group_step (filter_watermarks enable_char_trim : bool) (trim_scale : Q)
    (g : Glyph.t) (st : Group.t) : result Group.t :=
  match Glyph.page g with
  | None => Raise (ValueError "Glyph record missing page number")
  | Some page =>
      if filter_watermarks && is_watermark g default_watermark_font_size then
        Ok (Group.mk (Group.by_page st) (Group.filtered_count st + 1)
              (Group.trimmed_count st))
      else
        let '(bbox, trimmed) :=
          if enable_char_trim then
            (_apply_trim (Glyph.bbox g)
               (_get_char_trim_percents (Glyph.char g) trim_scale),
             (Group.trimmed_count st + 1)%Z)
          else (Glyph.bbox g, Group.trimmed_count st) in
        let '(bx, by_, bw, bh) := bbox in
        let glyph_dict := PageGlyph.mk (Glyph.char g) bx by_ bw bh in
        Ok (Group.mk (dict_setdefault_append page glyph_dict (Group.by_page st))
              (Group.filtered_count st) trimmed)
  end.

Fixpoint group_loop (filter_watermarks enable_char_trim : bool) (trim_scale : Q)
    (glyphs_list : list Glyph.t) (st : Group.t) : result Group.t :=
  match glyphs_list with
  | [] => Ok st
  | g :: rest =>
      st' <- group_step filter_watermarks enable_char_trim trim_scale g st ;;
      group_loop filter_watermarks enable_char_trim trim_scale rest st'
  end.

Definition group_glyphs_by_page (glyphs_list : list Glyph.t)
    (filter_watermarks enable_char_trim : bool) (trim_scale : Q)
  : result (Dict (list PageGlyph.t)) :=
  st <- group_loop filter_watermarks enable_char_trim trim_scale glyphs_list
          (Group.mk [] 0 0) ;;
  Ok (Group.by_page st).

End Pipeline.


(* ================================================================== *)
(** ** Overlap finder *)

(** The variables of [find_overlaps_by_page] that its loops update;
    [page_rects] is reset at the start of every page. *)
Record FinderState : Type := mkFinder {
  overlaps : list Overlap.t;
  highlights_by_page : Dict (list Box);
  total : Z;
  filtered_count : Z;
  page_rects : list Box
}.

(** [(float(g['x']), float(g['y']), float(g['width']), float(g['height']))] *)
Definition box_of (g : PageGlyph.t) : Box :=
  (PageGlyph.x g, PageGlyph.y g, PageGlyph.width g, PageGlyph.height g).

(** The body of the inner loop, for one pair [i < j]. *)
Definition visit_pair (overlap_percentage_threshold : Q) (page_num : Z)
    (gi gj : PageGlyph.t) (st : FinderState) : result FinderState :=
  let box_i := box_of gi in
  let box_j := box_of gj in
  if intersects box_i box_j then
    overlap_metrics <- calculate_overlap_percentage box_i box_j ;;
    let percentage_of_union := percentage_of_total overlap_metrics in
    if Qltb overlap_percentage_threshold percentage_of_union then
      Ok (mkFinder
            (overlaps st ++
               [Overlap.mk page_num box_i box_j (PageGlyph.char gi)
                  (PageGlyph.char gj) percentage_of_union])
            (highlights_by_page st)
            (total st + 1)
            (filtered_count st)
            (set_add box_j (set_add box_i (page_rects st))))
    else
      Ok (mkFinder (overlaps st) (highlights_by_page st) (total st)
            (filtered_count st + 1) (page_rects st))
  else Ok st.

(** [for j in range(i + 1, n)]: [later] holds [glyphs[i+1:]]. *)
Fixpoint inner_loop (thr : Q) (page_num : Z) (gi : PageGlyph.t)
    (later : list PageGlyph.t) (st : FinderState) : result FinderState :=
  match later with
  | [] => Ok st
  | gj :: rest =>
      st' <- visit_pair thr page_num gi gj st ;;
      inner_loop thr page_num gi rest st'
  end.

(** [for i in range(n)]: the argument holds [glyphs[i:]]. *)
Fixpoint outer_loop (thr : Q) (page_num : Z) (glyphs : list PageGlyph.t)
    (st : FinderState) : result FinderState :=
  match glyphs with
  | [] => Ok st
  | gi :: later =>
      st' <- inner_loop thr page_num gi later st ;;
      outer_loop thr page_num later st'
  end.

(** One iteration of [for page_num, glyphs in glyphs_by_page.items()]. *)
Definition page_step (thr : Q) (page_num : Z) (glyphs : list PageGlyph.t)
    (st : FinderState) : result FinderState :=
  st' <- outer_loop thr page_num glyphs
           (mkFinder (overlaps st) (highlights_by_page st) (total st)
              (filtered_count st) []) ;;
  match page_rects st' with
  | [] => Ok st'
  | _ :: _ =>
      Ok (mkFinder (overlaps st')
            (dict_set page_num (page_rects st') (highlights_by_page st'))
            (total st') (filtered_count st') (page_rects st'))
  end.

Fixpoint pages_loop (thr : Q) (items : Dict (list PageGlyph.t))
    (st : FinderState) : result FinderState :=
  match items with
  | [] => Ok st
  | (page_num, glyphs) :: rest =>
      st' <- page_step thr page_num glyphs st ;;
      pages_loop thr rest st'
  end.

(** Returns [(overlaps, highlights_by_page, total, filtered_count)]. *)
Definition find_overlaps_by_page (glyphs_by_page : Dict (list PageGlyph.t))
    (overlap_percentage_threshold : Q)
  : result (list Overlap.t * Dict (list Box) * Z * Z) :=
  st <- pages_loop overlap_percentage_threshold glyphs_by_page
          (mkFinder [] [] 0 0 []) ;;
  Ok (overlaps st, highlights_by_page st, total st, filtered_count st).

(** The detection stage of [process_pdf]: grouping followed by the
    finder, on an already extracted glyph list. *)
Definition group_and_find (str_upper : str -> str)
    (str_isdigit str_isalpha : str -> bool)
    (glyphs_list : list Glyph.t) (filter_watermarks : bool)
    (union_percentage_threshold : Q) (enable_char_trim : bool) (trim_scale : Q)
  : result (list Overlap.t * Dict (list Box) * Z * Z) :=
  glyphs_by_page <- group_glyphs_by_page str_upper str_isdigit str_isalpha
                      glyphs_list filter_watermarks enable_char_trim trim_scale ;;
  find_overlaps_by_page glyphs_by_page union_percentage_threshold.

(* ================================================================== *)
(** ** Position labeler *)

(** The vertical label, from the first [if]/[elif]/[else] chain. *)
Definition v_pos (y page_height : Q) : str :=
  let v_third := page_height / 3 in
  if Qltb y v_third then py_str "bottom"
  else if Qltb y (2 * v_third) then py_str "middle"
  else py_str "top".

(** The horizontal label, from the second chain. *)
Definition h_pos (x page_width : Q) : str :=
  let h_third := page_width / 3 in
  if Qltb x h_third then py_str "left"
  else if Qltb x (2 * h_third) then py_str "center"
  else py_str "right".

Definition get_position_label (x y page_width page_height : Q) : str :=
  v_pos y page_height ++ py_str "-" ++ h_pos x page_width.

(* ================================================================== *)
(** ** Binary64 arithmetic on integers *)

(** The statistics engine starts from integers, so its three float
    operations are modelled as CPython performs them: a binary64 value is
    represented by the rational it denotes, and every operation returns the
    binary64 number nearest to the exact result, ties to the even
    significand.  Results beyond the binary64 range are not modelled (a
    count divided by the total is at most 1). *)
Module Binary64.

Definition pow2 (e : Z) : Q := Qpower 2 e.

(** The integer part of the base-2 logarithm of a positive rational. *)
Definition ilog2 (q : Q) : Z :=
  let k := (Z.log2 (Qnum q) - Z.log2 (Zpos (Qden q)))%Z in
  if Qltb q (pow2 k) then (k - 1)%Z else k.

(** The exponent of the last bit of the 53-bit significand of the
    binary64 numbers around [q > 0]; -1074 in the subnormal range. *)
Definition ulp_exp (q : Q) : Z := Z.max (ilog2 q - 52) (-1074).

(** The binary64 number nearest to [q > 0]. *)
Definition nearest (q : Q) : Q :=
  inject_Z (round_half_even (q / pow2 (ulp_exp q))) * pow2 (ulp_exp q).

(** The binary64 number nearest to [q]. *)
Definition fl (q : Q) : Q :=
  if Qeq_bool q 0 then 0
  else if Qltb q 0 then - nearest (- q)
  else nearest q.

End Binary64.
Import Binary64.

(** [a / b] on two ints: the correctly rounded quotient, or
    [ZeroDivisionError]. *)
Definition py_int_truediv (a b : Z) : result Q :=
  if Z.eqb b 0 then Raise ZeroDivisionError
  else Ok (fl (inject_Z a / inject_Z b)).

(** [x * y] on two floats. *)
Definition py_float_mul (x y : Q) : Q := fl (x * y).

(** [round(x, 2)] on a float: the decimal with two places nearest to the
    exact value of [x], ties to even, converted back to a float. *)
Definition py_round2 (x : Q) : Q := fl (round2 x).

(* ================================================================== *)
(** ** Statistics engine *)

(** A [collections.Counter] keyed by character, in insertion order. *)
Definition Counter : Type := list (str * Z).

(** [c[k] += 1] *)
Fixpoint counter_incr (k : str) (c : Counter) : Counter :=
  match c with
  | [] => [(k, 1%Z)]
  | (k', n) :: rest =>
      if str_eqb k k' then (k', (n + 1)%Z) :: rest
      else (k', n) :: counter_incr k rest
  end.

Definition count_chars (ovs : list Overlap.t) : Counter :=
  fold_left
    (fun c o => counter_incr (Overlap.char_b o) (counter_incr (Overlap.char_a o) c))
    ovs [].

(** [Counter.most_common()] is a stable sort by decreasing count. *)
Fixpoint insert_desc (e : str * Z) (l : Counter) : Counter :=
  match l with
  | [] => [e]
  | e' :: rest =>
      if Z.leb (snd e') (snd e) then e :: l else e' :: insert_desc e rest
  end.

Fixpoint most_common (c : Counter) : Counter :=
  match c with
  | [] => []
  | e :: rest => insert_desc e (most_common rest)
  end.

(** [sum(char_counts.values())] *)
Definition counter_total (c : Counter) : Z :=
  fold_right (fun e s => (snd e + s)%Z) 0%Z c.

Record Statistics : Type := mkStatistics {
  character_stats : list CharStat.t;
  total_unique_chars : Z;
  total_character_occurrences : option Z
}.

(** [for char, count in char_counts.most_common(): ...] *)
Fixpoint stats_loop (total_occurrences : Z) (entries : Counter)
  : result (list CharStat.t) :=
  match entries with
  | [] => Ok []
  | (char, count) :: rest =>
      q <- py_int_truediv count total_occurrences ;;
      let percentage := py_float_mul q 100 in
      tl <- stats_loop total_occurrences rest ;;
      Ok (CharStat.mk char count (py_round2 percentage) :: tl)
  end.

Definition calculate_character_statistics (ovs : list Overlap.t)
  : result Statistics :=
  let char_counts := count_chars ovs in
  match char_counts with
  | [] => Ok (mkStatistics [] 0 None)
  | _ :: _ =>
      let total_occurrences := counter_total char_counts in
      char_stats <- stats_loop total_occurrences (most_common char_counts) ;;
      Ok (mkStatistics char_stats (Z.of_nat (List.length char_counts))
            (Some total_occurrences))
  end.


(* ================================================================== *)
(** ** Exception-free views used by the proofs *)

(** The value of [(overlap / area * 100) if area > 0 else 0]. *)
Definition pct (overlap area : Q) : Q :=
  if Qltb 0 area then overlap / area * 100 else 0.

(** The intersection area before rounding; 0 when the early return of
    [calculate_overlap_percentage] is taken. *)
Definition intersection_area (a b : Box) : Q :=
  let '(ax, ay, aw, ah) := a in
  let '(bx, by_, bw, bh) := b in
  let x_left := py_max ax bx in
  let y_bottom := py_max ay by_ in
  let x_right := py_min (ax + aw) (bx + bw) in
  let y_top := py_min (ay + ah) (by_ + bh) in
  if Qltb x_right x_left || Qltb y_top y_bottom then 0
  else (x_right - x_left) * (y_top - y_bottom).

Definition box_area (a : Box) : Q := let '(_, _, w, h) := a in w * h.

(** The metrics [calculate_overlap_percentage] returns. *)
Definition metrics (a b : Box) : Metrics :=
  let '(ax, ay, aw, ah) := a in
  let '(bx, by_, bw, bh) := b in
  let x_left := py_max ax bx in
  let y_bottom := py_max ay by_ in
  let x_right := py_min (ax + aw) (bx + bw) in
  let y_top := py_min (ay + ah) (by_ + bh) in
  if Qltb x_right x_left || Qltb y_top y_bottom then mkMetrics 0 0 0 0
  else
    let overlap := (x_right - x_left) * (y_top - y_bottom) in
    let area_a := aw * ah in
    let area_b := bw * bh in
    mkMetrics (round2 overlap) (round2 (pct overlap area_a))
      (round2 (pct overlap area_b))
      (round2 (pct overlap (area_a + area_b - overlap))).

(** Every unordered pair of positions [i < j], in scan order. *)
Fixpoint pairs {A : Type} (l : list A) : list (A * A) :=
  match l with
  | [] => []
  | x :: rest => map (pair x) rest ++ pairs rest
  end.

Definition union_pct (p : PageGlyph.t * PageGlyph.t) : Q :=
  percentage_of_total (metrics (box_of (fst p)) (box_of (snd p))).

Definition touches (p : PageGlyph.t * PageGlyph.t) : bool :=
  intersects (box_of (fst p)) (box_of (snd p)).

Definition is_kept (thr : Q) (p : PageGlyph.t * PageGlyph.t) : bool :=
  touches p && Qltb thr (union_pct p).

Definition is_dropped (thr : Q) (p : PageGlyph.t * PageGlyph.t) : bool :=
  touches p && negb (Qltb thr (union_pct p)).

Definition record_of (page_num : Z) (p : PageGlyph.t * PageGlyph.t) : Overlap.t :=
  Overlap.mk page_num (box_of (fst p)) (box_of (snd p))
    (PageGlyph.char (fst p)) (PageGlyph.char (snd p)) (union_pct p).

Definition records_of (thr : Q) (page_num : Z) (ps : list (PageGlyph.t * PageGlyph.t))
  : list Overlap.t :=
  map (record_of page_num) (filter (is_kept thr) ps).

Definition dropped_of (thr : Q) (ps : list (PageGlyph.t * PageGlyph.t)) : Z :=
  Z.of_nat (List.length (filter (is_dropped thr) ps)).

Definition add_rects (rects : list Box) (r : Overlap.t) : list Box :=
  set_add (Overlap.b r) (set_add (Overlap.a r) rects).

Definition count_of (rs : list Overlap.t) : Z := Z.of_nat (List.length rs).

(** The state after scanning the pairs [ps] of one page. *)
Definition scanned (thr : Q) (page_num : Z) (ps : list (PageGlyph.t * PageGlyph.t))
    (st : FinderState) : FinderState :=
  mkFinder (overlaps st ++ records_of thr page_num ps)
    (highlights_by_page st)
    (total st + count_of (records_of thr page_num ps))
    (filtered_count st + dropped_of thr ps)
    (fold_left add_rects (records_of thr page_num ps) (page_rects st)).

Definition page_highlights (thr : Q) (page_num : Z) (glyphs : list PageGlyph.t)
  : list Box :=
  fold_left add_rects (records_of thr page_num (pairs glyphs)) [].

Definition put_highlights (thr : Q) (h : Dict (list Box))
    (item : Z * list PageGlyph.t) : Dict (list Box) :=
  match page_highlights thr (fst item) (snd item) with
  | [] => h
  | _ :: _ => dict_set (fst item) (page_highlights thr (fst item) (snd item)) h
  end.

Definition all_records (thr : Q) (items : Dict (list PageGlyph.t)) : list Overlap.t :=
  flat_map (fun item => records_of thr (fst item) (pairs (snd item))) items.

Definition all_dropped (thr : Q) (items : Dict (list PageGlyph.t)) : Z :=
  fold_right (fun item s => (dropped_of thr (pairs (snd item)) + s)%Z) 0%Z items.

(** The state after one whole page. *)
Definition after_page (thr : Q) (st : FinderState) (item : Z * list PageGlyph.t)
  : FinderState :=
  mkFinder (overlaps st ++ records_of thr (fst item) (pairs (snd item)))
    (put_highlights thr (highlights_by_page st) item)
    (total st + count_of (records_of thr (fst item) (pairs (snd item))))
    (filtered_count st + dropped_of thr (pairs (snd item)))
    (page_highlights thr (fst item) (snd item)).

(** Every list stored in the highlights map is duplicate-free. *)
Definition values_nodup (h : Dict (list Box)) : Prop :=
  forall (p : Z) (boxes : list Box),
    dict_get p h = Some boxes -> NoDupA box_eq boxes.

(** The characters in the two slots of every overlap, in order. *)
Definition slots (ovs : list Overlap.t) : list str :=
  flat_map (fun o => [Overlap.char_a o; Overlap.char_b o]) ovs.

Definition occurrences (ch : str) (l : list str) : Z :=
  Z.of_nat (List.length (filter (str_eqb ch) l)).

(** The float product [count / total_occurrences * 100]. *)
Definition float_percentage (count total_occurrences : Z) : Q :=
  py_float_mul (fl (inject_Z count / inject_Z total_occurrences)) 100.

Definition stat_of (total_occurrences : Z) (e : str * Z) : CharStat.t :=
  CharStat.mk (fst e) (snd e)
    (py_round2 (float_percentage (snd e) total_occurrences)).

(** [c[k]], which is 0 for a character never counted. *)
Fixpoint counter_get (k : str) (c : Counter) : Z :=
  match c with
  | [] => 0%Z
  | (k', n) :: rest => if str_eqb k k' then n else counter_get k rest
  end.

Definition counter_keys (c : Counter) : list str := map fst c.

(** Counting a sequence of characters one by one. *)
Definition tally (l : list str) (acc : Counter) : Counter :=
  fold_left (fun c k => counter_incr k c) l acc.

Definition stats_total (l : list CharStat.t) : Z :=
  fold_right (fun e s => (CharStat.overlap_count e + s)%Z) 0%Z l.

Definition entry_desc (e1 e2 : str * Z) : Prop := (snd e2 <= snd e1)%Z.

Definition count_desc (e1 e2 : CharStat.t) : Prop :=
  (CharStat.overlap_count e2 <= CharStat.overlap_count e1)%Z.

(** A trim fraction in [0, 1). *)
Definition fraction (q : Q) : Prop := 0 <= q /\ q < 1.

Definition fractions (p : Percents.t) : Prop :=
  fraction (Percents.get (Percents.left p))
  /\ fraction (Percents.get (Percents.right p))
  /\ fraction (Percents.get (Percents.top p))
  /\ fraction (Percents.get (Percents.bottom p)).

(** The glyph record has no page number. *)
Definition missing_page (g : Glyph.t) : Prop := Glyph.page g = None.

Definition has_page (g : Glyph.t) : Prop := Glyph.page g <> None.

Definition missing_page_error : exn :=
  ValueError "Glyph record missing page number".

(** Sample inputs: two 10 x 10 glyphs overlapping in a 5 x 5 square, and
    the two identical glyphs of the scenario. *)
Definition glyph_A : PageGlyph.t := PageGlyph.mk (py_str "A") 0 0 10 10.
Definition glyph_B : PageGlyph.t := PageGlyph.mk (py_str "B") 5 5 10 10.
Definition sample_page : Dict (list PageGlyph.t) := [(1%Z, [glyph_A; glyph_B])].
Definition scenario_glyph : Glyph.t :=
  Glyph.mk (py_str "A") (Some 1%Z) (0, 0, 10, 10) (Some 12).

(* ================================================================== *)
(** ** Further views used by the proofs *)

(** A box of positive width and height. *)
Definition valid_box (a : Box) : Prop :=
  let '(_, _, w, h) := a in 0 < w /\ 0 < h.

(** A box whose width and height are not negative. *)
Definition nonneg_box (a : Box) : Prop :=
  let '(_, _, w, h) := a in 0 <= w /\ 0 <= h.

Definition nonneg_glyph (g : PageGlyph.t) : Prop := nonneg_box (box_of g).

(** No glyph of any page has a negative width or height. *)
Definition nonneg_pages (items : Dict (list PageGlyph.t)) : Prop :=
  Forall (fun item => Forall nonneg_glyph (snd item)) items.

(** All four metrics are (numerically) zero. *)
Definition zero_metrics (m : Metrics) : Prop :=
  overlap_area m == 0 /\ percentage_of_a m == 0
  /\ percentage_of_b m == 0 /\ percentage_of_total m == 0.

Definition is_percentage (q : Q) : Prop := 0 <= q /\ q <= 100.

(** The scanned pairs of all pages, in scan order. *)
Definition all_pairs (items : Dict (list PageGlyph.t))
  : list (PageGlyph.t * PageGlyph.t) :=
  flat_map (fun item => pairs (snd item)) items.


(** [d.get(k, [])] *)
Definition dict_get_list {V : Type} (k : Z) (d : Dict (list V)) : list V :=
  match dict_get k d with Some l => l | None => [] end.

(** The box is one of the two boxes of the record. *)
Definition box_of_record (box : Box) (r : Overlap.t) : Prop :=
  box_eq box (Overlap.a r) \/ box_eq box (Overlap.b r).


(** The glyph passes the grouper's watermark filter. *)
Definition retained (str_upper : str -> str) (filter_watermarks : bool)
    (g : Glyph.t) : bool :=
  negb (filter_watermarks && is_watermark str_upper g default_watermark_font_size).

(** The box the grouper stores for a glyph. *)
Definition stored_bbox (str_isdigit str_isalpha : str -> bool)
    (enable_char_trim : bool) (trim_scale : Q) (g : Glyph.t) : Box :=
  if enable_char_trim then
    _apply_trim (Glyph.bbox g)
      (_get_char_trim_percents str_isdigit str_isalpha (Glyph.char g) trim_scale)
  else Glyph.bbox g.

(** The [glyph_dict] the grouper appends for a glyph. *)
Definition glyph_dict_of (str_isdigit str_isalpha : str -> bool)
    (enable_char_trim : bool) (trim_scale : Q) (g : Glyph.t) : PageGlyph.t :=
  let '(bx, by_, bw, bh) :=
    stored_bbox str_isdigit str_isalpha enable_char_trim trim_scale g in
  PageGlyph.mk (Glyph.char g) bx by_ bw bh.

Definition on_page (p : Z) (g : Glyph.t) : bool :=
  match Glyph.page g with Some q => Z.eqb p q | None => false end.

(** The retained glyphs of page [p], converted, in extraction order. *)
Definition page_glyphs (str_upper : str -> str)
    (str_isdigit str_isalpha : str -> bool)
    (filter_watermarks enable_char_trim : bool) (trim_scale : Q)
    (p : Z) (glyphs_list : list Glyph.t) : list PageGlyph.t :=
  map (glyph_dict_of str_isdigit str_isalpha enable_char_trim trim_scale)
    (filter (fun g => retained str_upper filter_watermarks g && on_page p g)
       glyphs_list).

(** The number of values stored in a dict of lists. *)
Definition dict_size {V : Type} (d : Dict (list V)) : Z :=
  fold_right (fun kv s => (Z.of_nat (List.length (snd kv)) + s)%Z) 0%Z d.

Definition count_if {A : Type} (f : A -> bool) (l : list A) : Z :=
  Z.of_nat (List.length (filter f l)).

(** One iteration of the grouper's loop on a glyph that has a page. *)
Definition grouped (str_upper : str -> str)
    (str_isdigit str_isalpha : str -> bool)
    (filter_watermarks enable_char_trim : bool) (trim_scale : Q)
    (st : Group.t) (g : Glyph.t) : Group.t :=
  if retained str_upper filter_watermarks g then
    Group.mk
      (dict_setdefault_append
         (match Glyph.page g with Some p => p | None => 0%Z end)
         (glyph_dict_of str_isdigit str_isalpha enable_char_trim trim_scale g)
         (Group.by_page st))
      (Group.filtered_count st)
      (if enable_char_trim then (Group.trimmed_count st + 1)%Z
       else Group.trimmed_count st)
  else
    Group.mk (Group.by_page st) (Group.filtered_count st + 1)
      (Group.trimmed_count st).


(** [ch in l] for a list of strings. *)
Definition str_mem (ch : str) (l : list str) : bool := existsb (str_eqb ch) l.

(** The distinct strings of [l] in order of first appearance. *)
Fixpoint first_seen (l : list str) : list str :=
  match l with
  | [] => []
  | x :: rest => x :: filter (fun y => negb (str_eqb y x)) (first_seen rest)
  end.


(* ================================================================== *)
(** ** Annotation overlay, export and orchestration *)

(** [str(n)] for an int. *)
Definition py_str_of_int (n : Z) : str :=
  py_str (NilZero.string_of_int (Z.to_int n)).

(** [s.endswith(suffix)] *)
Definition str_endswith (s suffix : str) : bool :=
  Nat.leb (List.length suffix) (List.length s)
  && str_eqb (skipn (List.length s - List.length suffix) s) suffix.

(** Lookup in a dict keyed by strings. *)
Fixpoint str_dict_get {V : Type} (k : str) (d : list (str * V)) : option V :=
  match d with
  | [] => None
  | (k', v) :: rest => if str_eqb k k' then Some v else str_dict_get k rest
  end.

(** The calls [annotate_pdf] makes on the overlay canvas of one page.
    Rectangles are always drawn with [fill=1, stroke=1]. *)
Inductive CanvasOp : Type :=
| SetStrokeColor (r g b alpha : Q)
| SetFillColor (r g b alpha : Q)
| SetLineWidth (w : Q)
| SetFont (name : str) (size : Q)
| Rect (x y w h : Q)
| DrawString (x y : Q) (text : str)
| Save.

Definition is_rect (op : CanvasOp) : bool :=
  match op with Rect _ _ _ _ => true | _ => false end.

Definition is_draw_string (op : CanvasOp) : bool :=
  match op with DrawString _ _ _ => true | _ => false end.

Definition label_positions (page_width page_height : Q) : list (str * (Q * Q)) :=
  [ (py_str "bottom-left", (10, 10));
    (py_str "bottom-center", (page_width / 2 - 40, 10));
    (py_str "bottom-right", (page_width - 120, 10));
    (py_str "middle-left", (10, page_height / 2));
    (py_str "middle-center", (page_width / 2 - 40, page_height / 2));
    (py_str "middle-right", (page_width - 120, page_height / 2));
    (py_str "top-left", (10, page_height - 20));
    (py_str "top-center", (page_width / 2 - 40, page_height - 20));
    (py_str "top-right", (page_width - 120, page_height - 20)) ].

(** The first loop over [rects]:
    [position_counts[pos_label] = position_counts.get(pos_label, 0) + 1]. *)
Definition count_positions (page_width page_height : Q) (rects : list Box)
  : Counter :=
  fold_left
    (fun position_counts r =>
       let '(x, y, w, h) := r in
       counter_incr (get_position_label x y page_width page_height)
         position_counts)
    rects [].

(** The second loop: each box is drawn with its y coordinate flipped. *)
Definition draw_rects (page_height : Q) (rects : list Box) : list CanvasOp :=
  map (fun r => let '(x, y, w, h) := r in
                let y_topleft := page_height - y - h in
                Rect x y_topleft w h)
    rects.

(** The loop over [position_counts.items()]. *)
Definition draw_labels (page_width page_height : Q) (position_counts : Counter)
  : list CanvasOp :=
  flat_map
    (fun item =>
       let '(pos_label, count) := item in
       match str_dict_get pos_label (label_positions page_width page_height) with
       | Some (label_x, label_y) =>
           [DrawString label_x label_y
              (pos_label ++ py_str ": " ++ py_str_of_int count)]
       | None => []
       end)
    position_counts.

(** The overlay drawn for one page. *)
Definition page_overlay (page_width page_height : Q) (rects : list Box)
    (add_labels : bool) : list CanvasOp :=
  let position_counts :=
    if add_labels then count_positions page_width page_height rects else [] in
  [SetStrokeColor 1 0 0 0.3; SetFillColor 1 0 0 0.3; SetLineWidth 1]
  ++ draw_rects page_height rects
  ++ (if add_labels && negb (Nat.eqb (List.length position_counts) 0) then
        [SetFillColor 0 0 1 0.7; SetFont (py_str "Helvetica-Bold") 10]
        ++ draw_labels page_width page_height position_counts
      else [])
  ++ [Save].

(** [for page_idx in range(num_pages)]: the argument holds the media-box
    sizes of the pages from [page_idx] on. *)
Fixpoint annotate_pages (page_idx : Z) (pages : list (Q * Q))
    (highlights : Dict (list Box)) (add_labels : bool)
  : list (list CanvasOp) :=
  match pages with
  | [] => []
  | (page_width, page_height) :: rest =>
      let page_num_1_based := (page_idx + 1)%Z in
      page_overlay page_width page_height
        (dict_get_list page_num_1_based highlights) add_labels
      :: annotate_pages (page_idx + 1) rest highlights add_labels
  end.

(** [annotate_pdf], with the document given as the media-box sizes of its
    pages; the result is the overlay merged onto each page.  Reading,
    merging and writing the PDF are left to the PDF library. *)
Definition annotate_pdf (pages : list (Q * Q)) (highlights : Dict (list Box))
    (add_labels : bool) : list (list CanvasOp) :=
  annotate_pages 0 pages highlights add_labels.

(** One entry of [overlaps_by_page] in the exported data; the two
    position dicts hold the four fields of a box. *)
Module ExportEntry.
Record t : Type := mk {
  char_a : str;
  char_b : str;
  overlap_area : Q;
  percentage_of_char_a : Q;
  percentage_of_char_b : Q;
  percentage_of_union : Q;
  position_a : Box;
  position_b : Box
}.
End ExportEntry.

(** The [data] dict handed to [json.dump]. *)
Module ExportData.
Record t : Type := mk {
  pdf_file : str;
  pdf_path : str;
  total_overlaps : Z;
  overlaps_by_page : Dict (list ExportEntry.t)
}.
End ExportData.

Definition export_entry (overlap : Overlap.t) : result ExportEntry.t :=
  m <- calculate_overlap_percentage (Overlap.a overlap) (Overlap.b overlap) ;;
  Ok (ExportEntry.mk (Overlap.char_a overlap) (Overlap.char_b overlap)
        (overlap_area m) (percentage_of_a m) (percentage_of_b m)
        (percentage_of_total m) (Overlap.a overlap) (Overlap.b overlap)).

Fixpoint export_loop (ovs : list Overlap.t) (by_page : Dict (list ExportEntry.t))
  : result (Dict (list ExportEntry.t)) :=
  match ovs with
  | [] => Ok by_page
  | overlap :: rest =>
      overlap_entry <- export_entry overlap ;;
      export_loop rest
        (dict_setdefault_append (Overlap.page overlap) overlap_entry by_page)
  end.

(** [export_overlaps_to_json] up to the [json.dump] call: the data it
    writes.  [basename] is [os.path.basename]. *)
Definition export_overlaps_to_json (basename : str -> str) (pdf_path : str)
    (ovs : list Overlap.t) (total_overlaps : Z) : result ExportData.t :=
  by_page <- export_loop ovs [] ;;
  Ok (ExportData.mk (basename pdf_path) pdf_path total_overlaps by_page).

(** The files [process_pdf] writes. *)
Inductive Event : Type :=
| WriteMarkedPdf (output_pdf_path : str) (overlays : list (list CanvasOp))
| WriteJson (output_path : str) (data : ExportData.t).

Definition is_marked_pdf (e : Event) : bool :=
  match e with WriteMarkedPdf _ _ => true | _ => false end.

Definition ProcessResult : Type :=
  (Z * option str * option str * option Statistics * Z)%type.

(** [process_pdf].  The collaborators are parameters: the glyph extractor,
    the reader giving the page sizes of a PDF, [os.path.splitext] and
    [os.path.basename].  The result is the list of files written, in order,
    and the returned tuple or the exception raised.  Writing a file is
    taken to succeed. *)
Definition process_pdf (str_upper : str -> str)
    (str_isdigit str_isalpha : str -> bool)
    (extract_glyph_bboxes : str -> result (list Glyph.t))
    (read_pages : str -> list (Q * Q))
    (splitext : str -> str * str) (basename : str -> str)
    (pdf_path : str) (filter_watermarks add_labels : bool)
    (overlap_threshold : Z) (export_json : bool)
    (union_percentage_threshold : Q) (enable_char_trim : bool) (trim_scale : Q)
  : list Event * result ProcessResult :=
  match (glyphs_list <- extract_glyph_bboxes pdf_path ;;
         group_and_find str_upper str_isdigit str_isalpha glyphs_list
           filter_watermarks union_percentage_threshold enable_char_trim
           trim_scale) with
  | Raise e => ([], Raise e)
  | Ok (ovs, highlights, total_overlaps, filtered) =>
      let '(written, marked_path) :=
        if Z.ltb overlap_threshold total_overlaps then
          let '(base, ext) := splitext pdf_path in
          let marked_path := base ++ py_str "_marked" ++ ext in
          ([WriteMarkedPdf marked_path
              (annotate_pdf (read_pages pdf_path) highlights add_labels)],
           Some marked_path)
        else ([], None) in
      match (if Z.ltb 0 total_overlaps then
               s <- calculate_character_statistics ovs ;; Ok (Some s)
             else Ok None) with
      | Raise e => (written, Raise e)
      | Ok char_stats =>
          if export_json && Z.ltb 0 total_overlaps then
            let '(base, ext) := splitext pdf_path in
            let json_path := base ++ py_str "_overlaps.json" in
            match export_overlaps_to_json basename pdf_path ovs total_overlaps with
            | Raise e => (written, Raise e)
            | Ok data =>
                (written ++ [WriteJson json_path data],
                 Ok (total_overlaps, marked_path, Some json_path, char_stats,
                     filtered))
            end
          else
            (written,
             Ok (total_overlaps, marked_path, None, char_stats, filtered))
      end
  end.

(** [main]'s filter [[p for p in all_pdf_paths if not p.endswith('_marked.pdf')]]. *)
Definition skip_marked (all_pdf_paths : list str) : list str :=
  filter (fun p => negb (str_endswith p (py_str "_marked.pdf"))) all_pdf_paths.

(** The nine labels. *)
Definition position_labels : list str :=
  map fst (label_positions 0 0).


(** The entry [export_entry] builds, with the metrics as a value. *)
Definition entry_of (overlap : Overlap.t) : ExportEntry.t :=
  let m := metrics (Overlap.a overlap) (Overlap.b overlap) in
  ExportEntry.mk (Overlap.char_a overlap) (Overlap.char_b overlap)
    (overlap_area m) (percentage_of_a m) (percentage_of_b m)
    (percentage_of_total m) (Overlap.a overlap) (Overlap.b overlap).

Definition record_on_page (p : Z) (r : Overlap.t) : bool :=
  Z.eqb p (Overlap.page r).

Definition exported (by_page : Dict (list ExportEntry.t)) (r : Overlap.t)
  : Dict (list ExportEntry.t) :=
  dict_setdefault_append (Overlap.page r) (entry_of r) by_page.

Definition option_list {A : Type} (o : option A) : list A :=
  match o with Some a => [a] | None => [] end.

Definition event_path (e : Event) : str :=
  match e with
  | WriteMarkedPdf output_pdf_path _ => output_pdf_path
  | WriteJson output_path _ => output_path
  end.

(** The label computed for a highlight box. *)
Definition label_of (page_width page_height : Q) (r : Box) : str :=
  let '(x, y, w, h) := r in get_position_label x y page_width page_height.


Definition is_write_json (e : Event) : bool :=
  match e with WriteJson _ _ => true | _ => false end.

(** Truth value of an optional path: [None] and the empty string are
    false. *)
Definition truthy (o : option str) : bool :=
  match o with Some (_ :: _) => true | _ => false end.

(** The variables of [main]'s loop over the documents: the files written
    so far and the two counters of the summary. *)
Record MainState : Type := mkMain {
  written : list Event;
  total_marked : Z;
  total_json : Z
}.

(** One iteration of [for pdf_path in pdf_paths], with its
    [try]/[except Exception]; [process] stands for the call of [process_pdf]
    with the parsed options.  Console output is not modelled. *)
Definition main_step (process : str -> list Event * result ProcessResult)
    (st : MainState) (pdf_path : str) : MainState :=
  let '(events, outcome) := process pdf_path in
  match outcome with
  | Ok (overlaps_count, marked_path, json_path, _, _) =>
      if Z.eqb overlaps_count 0 then
        mkMain (written st ++ events) (total_marked st) (total_json st)
      else
        mkMain (written st ++ events)
          (if truthy marked_path then total_marked st + 1 else total_marked st)
          (if truthy json_path then total_json st + 1 else total_json st)
  | Raise _ =>
      mkMain (written st ++ events) (total_marked st) (total_json st)
  end.

Definition main_loop (process : str -> list Event * result ProcessResult)
    (pdf_paths : list str) : MainState :=
  fold_left (main_step process) pdf_paths (mkMain [] 0 0).

(** Sample collaborators: every document has one 300 x 300 page and holds
    the two glyphs of the scenario. *)
Definition sample_extract (pdf_path : str) : result (list Glyph.t) :=
  Ok [scenario_glyph; scenario_glyph].
Definition sample_bad_extract (pdf_path : str) : result (list Glyph.t) :=
  Ok [scenario_glyph; Glyph.mk (py_str "B") None (0, 0, 10, 10) (Some 12)].
Definition sample_pages (pdf_path : str) : list (Q * Q) := [(300, 300)].
Definition sample_splitext (pdf_path : str) : str * str :=
  (py_str "doc", py_str ".pdf").
Definition sample_process (pdf_path : str) : list Event * result ProcessResult :=
  process_pdf (fun s => s) (fun _ => false) (fun _ => true) sample_extract
    sample_pages sample_splitext (fun s => s) pdf_path true true 0 true 0
    false 1.


Definition sample_mixed_extract (pdf_path : str) : result (list Glyph.t) :=
  if str_eqb pdf_path (py_str "bad.pdf") then sample_bad_extract pdf_path
  else sample_extract pdf_path.

Definition sample_mixed_process (pdf_path : str)
  : list Event * result ProcessResult :=
  process_pdf (fun s => s) (fun _ => false) (fun _ => true) sample_mixed_extract
    sample_pages sample_splitext (fun s => s) pdf_path true true 0 true 0
    false 1.

(** Eighty overlaps in which "a" fills 23 of the 160 slots and "e" the
    other 137: both exact percentages, 14.375 and 85.625, lie midway
    between two hundredths. *)
Definition sample_tie_overlaps : list Overlap.t :=
  repeat (Overlap.mk 1 (0, 0, 1, 1) (0, 0, 1, 1) (py_str "a") (py_str "e") 100) 23
  ++ repeat (Overlap.mk 1 (0, 0, 1, 1) (0, 0, 1, 1) (py_str "e") (py_str "e") 100) 57.

(* ================================================================== *)
(** ** Numbers: facts *)

Lemma Qltb_true (x y : Q) : Qltb x y = true <-> x < y.
Proof.
  unfold Qltb. rewrite negb_true_iff, <- not_true_iff_false, Qle_bool_iff.
  split; [apply Qnot_le_lt | apply Qlt_not_le].
Qed.

Lemma Qltb_false (x y : Q) : Qltb x y = false <-> y <= x.
Proof.
  unfold Qltb. rewrite negb_false_iff. apply Qle_bool_iff.
Qed.

Lemma Qleb_true (x y : Q) : Qleb x y = true <-> x <= y.
Proof. apply Qle_bool_iff. Qed.

Lemma Qleb_false (x y : Q) : Qleb x y = false <-> y < x.
Proof.
  unfold Qleb. rewrite <- not_true_iff_false, Qle_bool_iff.
  split; [apply Qnot_le_lt | apply Qlt_not_le].
Qed.

#[export] Instance Qltb_proper : Proper (Qeq ==> Qeq ==> eq) Qltb.
Proof. intros x x' Hx y y' Hy. unfold Qltb. now rewrite Hx, Hy. Qed.

Lemma py_max_cases (a b : Q) :
  (a < b /\ py_max a b = b) \/ (b <= a /\ py_max a b = a).
Proof.
  unfold py_max. destruct (Qltb a b) eqn:E.
  - left. split; [now apply Qltb_true | reflexivity].
  - right. split; [now apply Qltb_false | reflexivity].
Qed.

Lemma py_min_cases (a b : Q) :
  (b < a /\ py_min a b = b) \/ (a <= b /\ py_min a b = a).
Proof.
  unfold py_min. destruct (Qltb b a) eqn:E.
  - left. split; [now apply Qltb_true | reflexivity].
  - right. split; [now apply Qltb_false | reflexivity].
Qed.

#[export] Instance round_half_even_proper : Proper (Qeq ==> eq) round_half_even.
Proof.
  intros x x' Hx. unfold round_half_even.
  rewrite (Qfloor_comp _ _ Hx). cbv zeta.
  assert (E : x - inject_Z (Qfloor x') == x' - inject_Z (Qfloor x'))
    by now rewrite Hx.
  rewrite (Qltb_proper _ _ E _ _ (Qeq_refl _)).
  rewrite (Qltb_proper _ _ (Qeq_refl (1 # 2)) _ _ E).
  reflexivity.
Qed.

#[export] Instance round2_proper : Proper (Qeq ==> Qeq) round2.
Proof.
  intros x x' Hx. unfold round2.
  assert (E : x * 100 == x' * 100) by now rewrite Hx.
  now rewrite (round_half_even_proper _ _ E).
Qed.

Lemma round2_two_decimals (x : Q) : two_decimals (round2 x).
Proof. exists (round_half_even (x * 100)). reflexivity. Qed.

Lemma two_decimals_0 : two_decimals 0.
Proof. exists 0%Z. reflexivity. Qed.

Lemma round2_0 : round2 0 == 0.
Proof. reflexivity. Qed.

Lemma round2_100 (x : Q) : x == 100 -> round2 x == 100.
Proof. intros ->. reflexivity. Qed.

Lemma round_half_even_le (q : Q) (n : Z) :
  q <= inject_Z n -> (round_half_even q <= n)%Z.
Proof.
  intros H. unfold round_half_even. cbv zeta.
  pose proof (Qfloor_le q) as Hf.
  assert (Hfn : (Qfloor q <= n)%Z) by (rewrite Zle_Qle; lra).
  destruct (Qltb (q - inject_Z (Qfloor q)) (1 # 2)) eqn:E; [assumption|].
  apply Qltb_false in E.
  assert (Hlt : (Qfloor q < n)%Z) by (rewrite Zlt_Qlt; lra).
  destruct (Qltb (1 # 2) (q - inject_Z (Qfloor q))); [lia|].
  destruct (Z.even (Qfloor q)); lia.
Qed.

Lemma round_half_even_ge (q : Q) (n : Z) :
  inject_Z n <= q -> (n <= round_half_even q)%Z.
Proof.
  intros H. unfold round_half_even. cbv zeta.
  pose proof (Qlt_floor q) as Hf.
  assert (Hlt : (n < Qfloor q + 1)%Z) by (rewrite Zlt_Qlt; lra).
  destruct (Qltb (q - inject_Z (Qfloor q)) (1 # 2)); [lia|].
  destruct (Qltb (1 # 2) (q - inject_Z (Qfloor q))); [lia|].
  destruct (Z.even (Qfloor q)); lia.
Qed.

(** Rounding to two decimals never crosses an integer. *)
Lemma round2_le_int (x : Q) (n : Z) : x <= inject_Z n -> round2 x <= inject_Z n.
Proof.
  intros H. unfold round2.
  assert (Hz : (round_half_even (x * 100) <= n * 100)%Z).
  { apply round_half_even_le. rewrite inject_Z_mult.
    change (inject_Z 100) with 100. lra. }
  rewrite Zle_Qle, inject_Z_mult in Hz.
  change (inject_Z 100) with 100 in Hz.
  apply Qle_shift_div_r; [reflexivity | exact Hz].
Qed.

Lemma round2_ge_int (x : Q) (n : Z) : inject_Z n <= x -> inject_Z n <= round2 x.
Proof.
  intros H. unfold round2.
  assert (Hz : (n * 100 <= round_half_even (x * 100))%Z).
  { apply round_half_even_ge. rewrite inject_Z_mult.
    change (inject_Z 100) with 100. lra. }
  rewrite Zle_Qle, inject_Z_mult in Hz.
  change (inject_Z 100) with 100 in Hz.
  apply Qle_shift_div_l; [reflexivity | exact Hz].
Qed.

Lemma round2_percentage (x : Q) : is_percentage x -> is_percentage (round2 x).
Proof.
  intros (H0 & H100). split.
  - apply (round2_ge_int x 0). exact H0.
  - apply (round2_le_int x 100). exact H100.
Qed.

(* ================================================================== *)
(** ** Binary64 arithmetic: facts *)

(** The nearest integer is at most one half away. *)
Lemma round_half_even_close (q : Q) :
  q - (1 # 2) <= inject_Z (round_half_even q)
  /\ inject_Z (round_half_even q) <= q + (1 # 2).
Proof.
  unfold round_half_even. cbv zeta.
  pose proof (Qfloor_le q) as Hf. pose proof (Qlt_floor q) as Hc.
  rewrite inject_Z_plus in Hc. change (inject_Z 1) with 1 in Hc.
  destruct (Qltb (q - inject_Z (Qfloor q)) (1 # 2)) eqn:E.
  { apply Qltb_true in E. split; lra. }
  apply Qltb_false in E.
  assert (H1 : q - (1 # 2) <= inject_Z (Qfloor q + 1)
               /\ inject_Z (Qfloor q + 1) <= q + (1 # 2)).
  { rewrite inject_Z_plus. change (inject_Z 1) with 1. split; lra. }
  destruct (Qltb (1 # 2) (q - inject_Z (Qfloor q))) eqn:E'; [exact H1|].
  apply Qltb_false in E'.
  destruct (Z.even (Qfloor q)); [split; lra | exact H1].
Qed.

Lemma pow2_pos (e : Z) : 0 < pow2 e.
Proof. apply Qpower_0_lt. reflexivity. Qed.

Lemma pow2_add (a b : Z) : pow2 (a + b) == pow2 a * pow2 b.
Proof. apply Qpower_plus. discriminate. Qed.

Lemma pow2_le (a b : Z) : (a <= b)%Z -> pow2 a <= pow2 b.
Proof. intros H. apply Qpower_le_compat_l; [exact H | discriminate]. Qed.

Lemma pow2_le_inv (a b : Z) : pow2 a <= pow2 b -> (a <= b)%Z.
Proof. intros H. apply (Qpower_le_compat_l_inv 2); [exact H | reflexivity]. Qed.

Lemma pow2_inject (n : Z) : (0 <= n)%Z -> pow2 n == inject_Z (2 ^ n).
Proof. intros H. unfold pow2. now rewrite Zpower_Qpower. Qed.

(** [ilog2 q] is not above the base-2 logarithm of [q]. *)
Lemma ilog2_lower (q : Q) : 0 < q -> pow2 (ilog2 q) <= q.
Proof.
  intros Hq. unfold ilog2. cbv zeta.
  set (ln := Z.log2 (Qnum q)). set (ld := Z.log2 (Zpos (Qden q))).
  destruct (Qltb q (pow2 (ln - ld))) eqn:E; [|now apply Qltb_false in E].
  clear E.
  assert (Hn : (0 < Qnum q)%Z).
  { destruct q as [n d]. unfold Qlt in Hq. cbn in *. lia. }
  pose proof (Z.log2_spec (Qnum q) Hn) as (Hln & _).
  pose proof (Z.log2_spec (Zpos (Qden q)) eq_refl) as (_ & Hld).
  fold ln in Hln. fold ld in Hld.
  pose proof (Z.log2_nonneg (Qnum q)) as Hln0. fold ln in Hln0.
  pose proof (Z.log2_nonneg (Zpos (Qden q))) as Hld0. fold ld in Hld0.
  assert (En : pow2 ln <= inject_Z (Qnum q)).
  { rewrite pow2_inject by assumption. now rewrite <- Zle_Qle. }
  assert (Ed : inject_Z (Zpos (Qden q)) <= pow2 (ld + 1)).
  { rewrite pow2_inject by lia. rewrite <- Zle_Qle.
    change (Z.succ ld) with (ld + 1)%Z in Hld. lia. }
  assert (Es : pow2 ln == pow2 (ln - ld - 1) * pow2 (ld + 1)).
  { rewrite <- pow2_add. now replace (ln - ld - 1 + (ld + 1))%Z with ln by lia. }
  assert (Eq : q * inject_Z (Zpos (Qden q)) == inject_Z (Qnum q)).
  { destruct q as [n d]. unfold Qeq. cbn. lia. }
  pose proof (pow2_pos (ln - ld - 1)) as Hp.
  assert (Hd : 0 < inject_Z (Zpos (Qden q))) by reflexivity.
  set (D := inject_Z (Zpos (Qden q))) in *.
  set (N := inject_Z (Qnum q)) in *.
  set (P := pow2 (ln - ld - 1)) in *.
  set (P1 := pow2 (ld + 1)) in *.
  set (PN := pow2 ln) in *.
  assert (H1 : P * D <= q * D).
  { rewrite Eq. apply Qle_trans with PN; [|exact En].
    rewrite Es. apply Qmult_le_l; [exact Hp | exact Ed]. }
  apply Qmult_le_r in H1; assumption.
Qed.

Lemma ilog2_le (q : Q) (m : Z) : 0 < q -> q <= pow2 m -> (ilog2 q <= m)%Z.
Proof.
  intros Hq Hm. apply pow2_le_inv.
  apply Qle_trans with q; [now apply ilog2_lower | exact Hm].
Qed.

Lemma ulp_exp_le (q : Q) (m : Z) :
  0 < q -> q <= pow2 (m + 52) -> (-1074 <= m)%Z -> (ulp_exp q <= m)%Z.
Proof.
  intros Hq Hm Hs. unfold ulp_exp.
  pose proof (ilog2_le q (m + 52) Hq Hm). lia.
Qed.

(** Rounding to nearest moves a positive number by at most half a unit in
    the last place. *)
Lemma nearest_close (q : Q) :
  q - pow2 (ulp_exp q) * (1 # 2) <= nearest q
  /\ nearest q <= q + pow2 (ulp_exp q) * (1 # 2).
Proof.
  unfold nearest. set (u := pow2 (ulp_exp q)).
  pose proof (pow2_pos (ulp_exp q)) as Hu. fold u in Hu.
  destruct (round_half_even_close (q / u)) as (Hl & Hh).
  set (r := inject_Z (round_half_even (q / u))) in *.
  assert (E : q == q / u * u) by (field; lra).
  set (x := q / u) in *.
  assert (H1 : (x - (1 # 2)) * u <= r * u) by (apply Qmult_le_r; assumption).
  assert (H2 : r * u <= (x + (1 # 2)) * u) by (apply Qmult_le_r; assumption).
  split; lra.
Qed.

Lemma nearest_nonneg (q : Q) : 0 <= q -> 0 <= nearest q.
Proof.
  intros Hq. unfold nearest.
  pose proof (pow2_pos (ulp_exp q)) as Hu.
  apply Qmult_le_0_compat; [|now apply Qlt_le_weak].
  change 0 with (inject_Z 0). rewrite <- Zle_Qle.
  apply round_half_even_ge. change (inject_Z 0) with 0.
  apply Qle_shift_div_l; [exact Hu | now rewrite Qmult_0_l].
Qed.

(** Rounding to nearest never crosses an integer that is itself a binary64
    number. *)
Lemma nearest_le_int (q : Q) (K : Z) :
  0 < q -> q <= inject_Z K -> inject_Z K <= pow2 52 ->
  nearest q <= inject_Z K.
Proof.
  intros Hq HK H52. unfold nearest.
  assert (He : (ulp_exp q <= 0)%Z).
  { apply ulp_exp_le; [exact Hq | | lia].
    apply Qle_trans with (inject_Z K); [exact HK | exact H52]. }
  set (e := ulp_exp q) in *.
  pose proof (pow2_pos e) as Hu.
  assert (Einv : pow2 (- e) * pow2 e == 1).
  { rewrite <- pow2_add. now replace (- e + e)%Z with 0%Z by lia. }
  assert (Hr : (round_half_even (q / pow2 e) <= K * 2 ^ (- e))%Z).
  { apply round_half_even_le. rewrite inject_Z_mult.
    rewrite <- pow2_inject by lia.
    apply Qle_shift_div_r; [exact Hu|].
    rewrite <- Qmult_assoc, Einv. lra. }
  rewrite Zle_Qle, inject_Z_mult, <- pow2_inject in Hr by lia.
  apply Qle_trans with (inject_Z K * pow2 (- e) * pow2 e).
  - apply Qmult_le_r; assumption.
  - rewrite <- Qmult_assoc, Einv. lra.
Qed.

Lemma fl_nonneg_eq (q : Q) : 0 < q -> fl q = nearest q.
Proof.
  intros Hq. unfold fl.
  destruct (Qeq_bool q 0) eqn:E.
  { apply Qeq_bool_iff in E. lra. }
  destruct (Qltb q 0) eqn:E'; [|reflexivity].
  apply Qltb_true in E'. lra.
Qed.

Lemma fl_zero (q : Q) : q == 0 -> fl q = 0.
Proof.
  intros Hq. unfold fl. apply Qeq_bool_iff in Hq. now rewrite Hq.
Qed.

Lemma fl_nonneg (q : Q) : 0 <= q -> 0 <= fl q.
Proof.
  intros Hq. destruct (Qlt_le_dec 0 q) as [H|H].
  - rewrite fl_nonneg_eq by exact H. now apply nearest_nonneg.
  - rewrite fl_zero by lra. lra.
Qed.

Lemma fl_le_int (q : Q) (K : Z) :
  0 <= q -> q <= inject_Z K -> inject_Z K <= pow2 52 -> fl q <= inject_Z K.
Proof.
  intros Hq HK H52. destruct (Qlt_le_dec 0 q) as [H|H].
  - rewrite fl_nonneg_eq by exact H. now apply nearest_le_int.
  - rewrite fl_zero by lra. lra.
Qed.

(** The error of one rounding of a number in [[0, 2^(m+53)]]. *)
Lemma fl_close (q : Q) (m : Z) :
  0 <= q -> q <= pow2 (m + 53) -> (-1075 <= m)%Z ->
  q - pow2 m <= fl q /\ fl q <= q + pow2 m.
Proof.
  intros Hq Hm Hs. destruct (Qlt_le_dec 0 q) as [H|H].
  - rewrite fl_nonneg_eq by exact H.
    destruct (nearest_close q) as (Hl & Hh).
    assert (He : (ulp_exp q <= m + 1)%Z).
    { apply ulp_exp_le; [exact H | | lia].
      now replace (m + 1 + 52)%Z with (m + 53)%Z by lia. }
    apply pow2_le in He. rewrite pow2_add in He.
    change (pow2 1) with 2 in He.
    pose proof (pow2_pos m). split; lra.
  - rewrite fl_zero by lra. pose proof (pow2_pos m). split; lra.
Qed.

(** Values of [fl], as CPython gives them: [1/3], [0.1] and [-7/3]; a tie
    between two floats goes to the even significand; so does a tie in the
    subnormal range. *)
Example fl_values :
  Qred (fl (1 # 3)) = 6004799503160661 # 18014398509481984
  /\ Qred (fl (1 # 10)) = 3602879701896397 # 36028797018963968
  /\ Qred (fl (- (7 # 3))) = - (5254199565265579 # 2251799813685248)
  /\ fl (inject_Z (2 ^ 53 + 1)) == inject_Z (2 ^ 53)
  /\ fl (inject_Z (2 ^ 53 + 3)) == inject_Z (2 ^ 53 + 4)
  /\ fl (inject_Z (10 ^ 23)) == inject_Z 99999999999999991611392
  /\ fl (pow2 (-1075)) == 0
  /\ fl (3 * pow2 (-1075)) == pow2 (-1073).
Proof. repeat split; vm_compute; reflexivity. Qed.

Lemma ratio_bounds (c t : Z) :
  (0 <= c <= t)%Z -> (0 < t)%Z ->
  0 <= inject_Z c / inject_Z t /\ inject_Z c / inject_Z t <= 1.
Proof.
  intros Hc Ht.
  assert (HT : 0 < inject_Z t).
  { change 0 with (inject_Z 0). now rewrite <- Zlt_Qlt. }
  assert (HC : 0 <= inject_Z c).
  { change 0 with (inject_Z 0). rewrite <- Zle_Qle. lia. }
  assert (HCT : inject_Z c <= inject_Z t) by (rewrite <- Zle_Qle; lia).
  split.
  - apply Qle_shift_div_l; [exact HT | lra].
  - apply Qle_shift_div_r; [exact HT | lra].
Qed.

(** The float quotient of a count by a total no smaller. *)
Lemma int_truediv_bounds (c t : Z) :
  (0 <= c <= t)%Z -> (0 < t)%Z ->
  0 <= fl (inject_Z c / inject_Z t)
  /\ fl (inject_Z c / inject_Z t) <= 1
  /\ inject_Z c / inject_Z t - pow2 (-53) <= fl (inject_Z c / inject_Z t)
  /\ fl (inject_Z c / inject_Z t) <= inject_Z c / inject_Z t + pow2 (-53).
Proof.
  intros Hc Ht. destruct (ratio_bounds c t Hc Ht) as (H0 & H1).
  set (r := inject_Z c / inject_Z t) in *.
  split; [now apply fl_nonneg|].
  split; [apply (fl_le_int r 1); [exact H0 | exact H1 | discriminate]|].
  apply fl_close; [exact H0 | exact H1 | lia].
Qed.

(** The float product [count / total * 100] is a percentage and differs
    from the exact one by at most [2^-45]. *)
Lemma float_percentage_bounds (c t : Z) :
  (0 <= c <= t)%Z -> (0 < t)%Z ->
  0 <= float_percentage c t
  /\ float_percentage c t <= 100
  /\ inject_Z c / inject_Z t * 100 - pow2 (-45) <= float_percentage c t
  /\ float_percentage c t <= inject_Z c / inject_Z t * 100 + pow2 (-45).
Proof.
  intros Hc Ht. unfold float_percentage, py_float_mul.
  destruct (int_truediv_bounds c t Hc Ht) as (H0 & H1 & Hl & Hh).
  set (r := inject_Z c / inject_Z t) in *.
  set (q := fl r) in *.
  assert (P0 : 0 <= q * 100) by lra.
  assert (P1 : q * 100 <= inject_Z 100) by (change (inject_Z 100) with 100; lra).
  split; [now apply fl_nonneg|].
  split; [apply (fl_le_int (q * 100) 100); [exact P0 | exact P1 | discriminate]|].
  destruct (fl_close (q * 100) (-46)) as (Fl & Fh);
    [exact P0 | apply Qle_trans with (inject_Z 100); [exact P1 | discriminate]
    | lia |].
  change (pow2 (-46)) with (1 # 70368744177664) in Fl, Fh.
  change (pow2 (-53)) with (1 # 9007199254740992) in Hl, Hh.
  change (pow2 (-45)) with (1 # 35184372088832).
  split; lra.
Qed.

(** Rounding to two decimals moves a number by at most half a hundredth. *)
Lemma round2_close (x : Q) :
  x - (1 # 200) <= round2 x /\ round2 x <= x + (1 # 200).
Proof.
  unfold round2. destruct (round_half_even_close (x * 100)) as (Hl & Hh).
  set (n := inject_Z (round_half_even (x * 100))) in *.
  assert (E : n / 100 == n * (1 # 100)) by (field; discriminate).
  rewrite E. split; lra.
Qed.

(** With fewer than [2^37] occurrences the float error cannot move the
    result past the two-decimal numbers nearest to the exact percentage. *)
Lemma two_decimals_nearest (n c t : Z) :
  (0 < t < 2 ^ 37)%Z ->
  Qabs (inject_Z n / 100 - inject_Z c / inject_Z t * 100)
    <= (1 # 200) + pow2 (-45) ->
  Qabs (inject_Z n / 100 - inject_Z c / inject_Z t * 100) <= (1 # 200).
Proof.
  intros Ht H.
  assert (HT : 0 < inject_Z t).
  { change 0 with (inject_Z 0). rewrite <- Zlt_Qlt. lia. }
  assert (HT' : inject_Z t < inject_Z (2 ^ 37)) by (rewrite <- Zlt_Qlt; lia).
  change (inject_Z (2 ^ 37)) with 137438953472 in HT'.
  change (pow2 (-45)) with (1 # 35184372088832) in H.
  set (d := inject_Z n / 100 - inject_Z c / inject_Z t * 100) in *.
  set (D := (2 * n * t - 20000 * c)%Z).
  assert (E : d * (200 * inject_Z t) == inject_Z D).
  { unfold d, D, Z.sub. rewrite inject_Z_plus, inject_Z_opp, !inject_Z_mult.
    change (inject_Z 2) with 2. change (inject_Z 20000) with 20000.
    field. lra. }
  assert (HP : 0 < 200 * inject_Z t) by lra.
  apply Qabs_Qle_condition in H. destruct H as (Hl & Hh).
  assert (Hl' : - ((1 # 200) + (1 # 35184372088832)) * (200 * inject_Z t)
                <= d * (200 * inject_Z t)) by (apply Qmult_le_r; assumption).
  assert (Hh' : d * (200 * inject_Z t)
                <= ((1 # 200) + (1 # 35184372088832)) * (200 * inject_Z t))
    by (apply Qmult_le_r; assumption).
  rewrite E in Hl', Hh'.
  assert (Z1 : (D < t + 1)%Z).
  { rewrite Zlt_Qlt, inject_Z_plus. change (inject_Z 1) with 1. lra. }
  assert (Z2 : (- (t + 1) < D)%Z).
  { rewrite Zlt_Qlt, inject_Z_opp, inject_Z_plus. change (inject_Z 1) with 1.
    lra. }
  assert (Q1 : inject_Z D <= inject_Z t) by (rewrite <- Zle_Qle; lia).
  assert (Q2 : - inject_Z t <= inject_Z D).
  { rewrite <- inject_Z_opp, <- Zle_Qle. lia. }
  rewrite <- E in Q1, Q2.
  apply Qabs_Qle_condition. split.
  - apply (Qmult_le_r _ _ (200 * inject_Z t)); [exact HP|]. lra.
  - apply (Qmult_le_r _ _ (200 * inject_Z t)); [exact HP|]. lra.
Qed.

(** What [round(count / total * 100, 2)] returns: the float nearest to a
    number [n / 100] of hundredths that is, up to the error [2^-45] of the
    float product, a nearest one to the exact percentage. *)
Lemma rounded_percentage_spec (c t : Z) :
  (0 <= c <= t)%Z -> (0 < t)%Z ->
  exists n : Z,
    (0 <= n <= 10000)%Z
    /\ py_round2 (float_percentage c t) = fl (inject_Z n / 100)
    /\ Qabs (inject_Z n / 100 - inject_Z c / inject_Z t * 100)
       <= (1 # 200) + pow2 (-45)
    /\ ((t < 2 ^ 37)%Z ->
        Qabs (inject_Z n / 100 - inject_Z c / inject_Z t * 100) <= (1 # 200)).
Proof.
  intros Hc Ht.
  destruct (float_percentage_bounds c t Hc Ht) as (H0 & H1 & Hl & Hh).
  set (p := float_percentage c t) in *.
  exists (round_half_even (p * 100)).
  assert (B : Qabs (inject_Z (round_half_even (p * 100)) / 100
                    - inject_Z c / inject_Z t * 100)
              <= (1 # 200) + pow2 (-45)).
  { destruct (round2_close p) as (Rl & Rh). unfold round2 in Rl, Rh.
    set (r := inject_Z (round_half_even (p * 100)) / 100) in *.
    set (x := inject_Z c / inject_Z t * 100) in *.
    set (eps := pow2 (-45)) in *.
    apply Qabs_Qle_condition. split; lra. }
  split; [|split; [reflexivity | split; [exact B|]]].
  - split.
    + apply round_half_even_ge. change (inject_Z 0) with 0. lra.
    + apply round_half_even_le. change (inject_Z 10000) with 10000. lra.
  - intros Hlt. apply two_decimals_nearest; [lia | exact B].
Qed.

Lemma py_round2_percentage (x : Q) :
  0 <= x -> x <= 100 -> 0 <= py_round2 x /\ py_round2 x <= 100.
Proof.
  intros H0 H1. unfold py_round2.
  destruct (round2_close x) as (Rl & Rh).
  assert (L : 0 <= round2 x).
  { unfold round2. apply Qle_shift_div_l; [reflexivity|]. rewrite Qmult_0_l.
    change 0 with (inject_Z 0). rewrite <- Zle_Qle.
    apply round_half_even_ge. change (inject_Z 0) with 0. lra. }
  assert (U : round2 x <= inject_Z 100).
  { unfold round2. apply Qle_shift_div_r; [reflexivity|].
    change (inject_Z 100 * 100) with (inject_Z 10000). rewrite <- Zle_Qle.
    apply round_half_even_le. change (inject_Z 10000) with 10000. lra. }
  split; [now apply fl_nonneg|].
  apply (fl_le_int (round2 x) 100); [exact L | exact U | discriminate].
Qed.

(* ================================================================== *)
(** ** The metrics never raise *)

Lemma py_div_nonzero (x y : Q) : ~ y == 0 -> py_div x y = Ok (x / y).
Proof.
  intros H. unfold py_div. destruct (Qeq_bool y 0) eqn:E; [|reflexivity].
  apply Qeq_bool_iff in E. contradiction.
Qed.

Lemma guarded_percentage_ok (overlap area : Q) :
  guarded_percentage overlap area = Ok (pct overlap area).
Proof.
  unfold guarded_percentage, pct. destruct (Qltb 0 area) eqn:E; [|reflexivity].
  apply Qltb_true in E. rewrite py_div_nonzero; [reflexivity|].
  intros H. rewrite H in E. now apply Qlt_irrefl in E.
Qed.

Lemma calculate_overlap_percentage_ok (a b : Box) :
  calculate_overlap_percentage a b = Ok (metrics a b).
Proof.
  destruct a as [[[ax ay] aw] ah], b as [[[bx by_] bw] bh].
  unfold calculate_overlap_percentage, metrics.
  destruct (_ || _); [reflexivity|].
  now rewrite !guarded_percentage_ok.
Qed.

Lemma metrics_two_decimals (a b : Box) :
  two_decimals (percentage_of_a (metrics a b))
  /\ two_decimals (percentage_of_b (metrics a b))
  /\ two_decimals (percentage_of_total (metrics a b)).
Proof.
  destruct a as [[[ax ay] aw] ah], b as [[[bx by_] bw] bh].
  unfold metrics. destruct (_ || _); cbn.
  - repeat split; apply two_decimals_0.
  - repeat split; apply round2_two_decimals.
Qed.

Lemma pct_zero_area (overlap area : Q) : area == 0 -> round2 (pct overlap area) == 0.
Proof.
  intros H. unfold pct.
  assert (E : Qltb 0 area = false) by (apply Qltb_false; rewrite H; apply Qle_refl).
  rewrite E. reflexivity.
Qed.

(** C7.  The overlap metrics are total: for every pair of boxes,
    zero-area ones included, [calculate_overlap_percentage] returns
    (it never raises [ZeroDivisionError]); every percentage it returns has
    at most two decimals; and a percentage whose denominator (area of a,
    area of b, union area) is zero is returned as 0. *)
Theorem overlap_metrics_total (a b : Box) :
  exists m : Metrics,
    calculate_overlap_percentage a b = Ok m
    /\ two_decimals (percentage_of_a m)
    /\ two_decimals (percentage_of_b m)
    /\ two_decimals (percentage_of_total m)
    /\ (box_area a == 0 -> percentage_of_a m == 0)
    /\ (box_area b == 0 -> percentage_of_b m == 0)
    /\ (box_area a + box_area b - intersection_area a b == 0 ->
        percentage_of_total m == 0).
Proof.
  exists (metrics a b). split; [apply calculate_overlap_percentage_ok|].
  destruct (metrics_two_decimals a b) as (Ha & Hb & Ht).
  repeat (split; [assumption|]).
  destruct a as [[[ax ay] aw] ah], b as [[[bx by_] bw] bh].
  unfold metrics, intersection_area, box_area.
  destruct (_ || _); cbn.
  - repeat split; intros _; reflexivity.
  - repeat split; intros H; now apply pct_zero_area.
Qed.

(** The zero-width box against a unit square: the guard yields 0. *)
Lemma overlap_metrics_total_witness :
  exists m : Metrics,
    calculate_overlap_percentage (0, 0, 0, 5) (0, 0, 1, 1) = Ok m
    /\ percentage_of_a m == 0.
Proof.
  destruct (overlap_metrics_total (0, 0, 0, 5) (0, 0, 1, 1))
    as (m & Hm & _ & _ & _ & Ha & _).
  exists m. split; [exact Hm | apply Ha; reflexivity].
Defined.

(* ================================================================== *)
(** ** Whitespace trimmer *)

(** C2, as stated, fails: a side shorter than the 0.1 floor is widened. *)
Lemma apply_trim_widens_small_box :
  _apply_trim (0, 0, 0.05, 0.05)
    (Percents.mk (Some 0.05) (Some 0.05) (Some 0.05) (Some 0.05))
  = (0.0025, 0.0025, 0.1, 0.1)
  /\ fractions (Percents.mk (Some 0.05) (Some 0.05) (Some 0.05) (Some 0.05))
  /\ ~ 0.1 <= 0.05.
Proof.
  split; [reflexivity|]. split.
  - unfold fractions, fraction; cbn. repeat split; lra.
  - lra.
Qed.

(** A left trim close to 1 pushes the floored box past the right edge. *)
Example apply_trim_overshoots_right_edge :
  _apply_trim (0, 0, 10, 10) (Percents.mk (Some 0.995) (Some 0) (Some 0) (Some 0))
  = (9.950, 0, 0.1, 10)
  /\ ~ 9.950 + 0.1 <= 0 + 10.
Proof. split; [reflexivity | lra]. Qed.

(** C2 (amended).  A box whose width or height is not positive is
    returned unchanged, whatever the trim table.  For a box with positive
    width and height and trim fractions in [0,1): the origin moves inward
    ([x' >= x], [y' >= y]); both sides are at least 0.1; a side that was at
    least 0.1 does not grow; and the far edges stay inside the original box
    whenever what is left of the side after the left (bottom) trim is at
    least 0.1. *)
Theorem apply_trim_invariant (x y w h : Q) (p : Percents.t) :
  (w <= 0 \/ h <= 0 -> _apply_trim (x, y, w, h) p = (x, y, w, h))
  /\ (0 < w -> 0 < h -> fractions p ->
      exists x' y' w' h' : Q,
        _apply_trim (x, y, w, h) p = (x', y', w', h')
        /\ x <= x' /\ y <= y' /\ 0.1 <= w' /\ 0.1 <= h'
        /\ (0.1 <= w -> w' <= w)
        /\ (0.1 <= h -> h' <= h)
        /\ (0.1 <= w * (1 - Percents.get (Percents.left p)) -> x' + w' <= x + w)
        /\ (0.1 <= h * (1 - Percents.get (Percents.bottom p)) -> y' + h' <= y + h)).
Proof.
  split.
  - intros Hd. unfold _apply_trim.
    destruct (Qleb w 0) eqn:Ew; [reflexivity|].
    destruct (Qleb h 0) eqn:Eh; [reflexivity|].
    apply Qleb_false in Ew, Eh. destruct Hd; lra.
  - intros Hw Hh Hp.
    destruct Hp as ((Hl0 & Hl1) & (Hr0 & Hr1) & (Ht0 & Ht1) & (Hb0 & Hb1)).
    unfold _apply_trim.
    assert (Ew : Qleb w 0 = false) by now apply Qleb_false.
    assert (Eh : Qleb h 0 = false) by now apply Qleb_false.
    rewrite Ew, Eh. cbn [orb].
    set (lt := Percents.get (Percents.left p)) in *.
    set (rt := Percents.get (Percents.right p)) in *.
    set (tp := Percents.get (Percents.top p)) in *.
    set (bt := Percents.get (Percents.bottom p)) in *.
    do 4 eexists. split; [reflexivity|].
    assert (0 <= w * lt) by (apply Qmult_le_0_compat; lra).
    assert (0 <= w * rt) by (apply Qmult_le_0_compat; lra).
    assert (0 <= h * tp) by (apply Qmult_le_0_compat; lra).
    assert (0 <= h * bt) by (apply Qmult_le_0_compat; lra).
    destruct (py_max_cases 0.1 (w - w * lt - w * rt)) as [(Lw & ->) | (Lw & ->)];
      destruct (py_max_cases 0.1 (h - h * tp - h * bt)) as [(Lh & ->) | (Lh & ->)];
      repeat split; intros; lra.
Qed.

Lemma apply_trim_invariant_witness :
  ((- (2) <= 0 \/ 5 <= 0)
   /\ _apply_trim (3, 4, - (2), 5)
        (Percents.mk (Some 0.07) (Some 0.07) (Some 0.10) (Some 0.10))
      = (3, 4, - (2), 5))
  /\ ((0 < 10 /\ 0 < 12
       /\ fractions (Percents.mk (Some 0.07) (Some 0.07) (Some 0.10) (Some 0.10)))
      /\ exists x' y' w' h' : Q,
           _apply_trim (3, 4, 10, 12)
             (Percents.mk (Some 0.07) (Some 0.07) (Some 0.10) (Some 0.10))
           = (x', y', w', h')
           /\ x' + w' <= 3 + 10 /\ y' + h' <= 4 + 12).
Proof.
  assert (Hp : fractions (Percents.mk (Some 0.07) (Some 0.07) (Some 0.10) (Some 0.10)))
    by (unfold fractions, fraction; cbn; repeat split; lra).
  assert (Hd : - (2) <= 0 \/ 5 <= 0) by (left; lra).
  split.
  - split; [exact Hd|].
    exact (proj1 (apply_trim_invariant 3 4 (- (2)) 5 _) Hd).
  - split; [split; [lra | split; [lra | exact Hp]]|].
    destruct (proj2 (apply_trim_invariant 3 4 10 12 _) ltac:(lra) ltac:(lra) Hp)
      as (x' & y' & w' & h' & E & _ & _ & _ & _ & _ & _ & Hx & Hy).
    exists x', y', w', h'. split; [exact E|].
    split; [apply Hx | apply Hy]; cbn; lra.
Defined.

(* ================================================================== *)
(** ** Watermark classifier *)

(** C4.  With the default threshold, a glyph is a watermark exactly when
    its font size is at least 40, or its font size exceeds 20 and its text
    is a single character whose upper-cased form is in the watermark
    letter set.  A glyph of font size 41 is a watermark whatever its
    character; the glyph 'a' of font size 15 is not. *)
Theorem is_watermark_spec (str_upper : str -> str) (g : Glyph.t) :
  (is_watermark str_upper g default_watermark_font_size = true <->
   40 <= get_fontSize g
   \/ (20 < get_fontSize g
       /\ List.length (Glyph.char g) = 1%nat
       /\ str_in (str_upper (Glyph.char g)) watermark_chars = true))
  /\ is_watermark str_upper
       (Glyph.mk (Glyph.char g) (Glyph.page g) (Glyph.bbox g) (Some 41))
       default_watermark_font_size = true
  /\ is_watermark str_upper
       (Glyph.mk (py_str "a") (Glyph.page g) (Glyph.bbox g) (Some 15))
       default_watermark_font_size = false.
Proof.
  split; [|split; reflexivity].
  unfold is_watermark, default_watermark_font_size.
  destruct (Qleb 40 (get_fontSize g)) eqn:E40.
  - apply Qleb_true in E40. split; [intros _; now left | reflexivity].
  - apply Qleb_false in E40.
    destruct (Qltb 20 (get_fontSize g)) eqn:E20.
    + apply Qltb_true in E20.
      destruct (Nat.eqb (List.length (Glyph.char g)) 1) eqn:El; cbn [andb].
      * apply Nat.eqb_eq in El.
        destruct (str_in (str_upper (Glyph.char g)) watermark_chars) eqn:Es.
        -- split; [intros _; right; now repeat split | reflexivity].
        -- split; [discriminate|].
           intros [H | (_ & _ & H)]; [lra | discriminate].
      * apply Nat.eqb_neq in El. split; [discriminate|].
        intros [H | (_ & H & _)]; [lra | contradiction].
    + apply Qltb_false in E20. split; [discriminate|].
      intros [H | (H & _)]; lra.
Qed.

(* ================================================================== *)
(** ** Page grouper *)

Section Grouper.

Variable str_upper : str -> str.
Variable str_isdigit : str -> bool.
Variable str_isalpha : str -> bool.
Variable filter_watermarks enable_char_trim : bool.
Variable trim_scale : Q.

Local Abbreviation step := (group_step str_upper str_isdigit str_isalpha
                          filter_watermarks enable_char_trim trim_scale).
Local Abbreviation loop := (group_loop str_upper str_isdigit str_isalpha
                          filter_watermarks enable_char_trim trim_scale).

Lemma group_step_missing (g : Glyph.t) (st : Group.t) :
  missing_page g -> step g st = Raise missing_page_error.
Proof. unfold missing_page, group_step. now intros ->. Qed.

Lemma group_step_present (g : Glyph.t) (st : Group.t) :
  has_page g -> exists st', step g st = Ok st'.
Proof.
  unfold has_page, group_step. destruct (Glyph.page g) as [pg|]; [|congruence].
  intros _. destruct (_ && _); [eauto|].
  destruct enable_char_trim.
  - destruct (_apply_trim _ _) as [[[bx by_] bw] bh]. eauto.
  - destruct (Glyph.bbox g) as [[[bx by_] bw] bh]. eauto.
Qed.

(** The loop either meets a glyph without page and raises, or runs to
    the end. *)
Lemma group_loop_cases (glyphs_list : list Glyph.t) (st : Group.t) :
  (Exists missing_page glyphs_list /\ loop glyphs_list st = Raise missing_page_error)
  \/ (Forall has_page glyphs_list /\ exists st', loop glyphs_list st = Ok st').
Proof.
  revert st. induction glyphs_list as [|g rest IH]; intros st.
  - right. split; [constructor | now exists st].
  - cbn [group_loop].
    destruct (Glyph.page g) as [pg|] eqn:Epage.
    + assert (Hg : has_page g) by (unfold has_page; congruence).
      destruct (group_step_present g st Hg) as (st' & ->). cbn [bind].
      destruct (IH st') as [(Hex & Hr) | (Hall & Hok)].
      * left. split; [now apply Exists_cons_tl | exact Hr].
      * right. split; [now constructor | exact Hok].
    + left. split; [now apply Exists_cons_hd|].
      now rewrite (group_step_missing g st Epage).
Qed.

Lemma missing_excludes_all_present (l : list Glyph.t) :
  Exists missing_page l -> Forall has_page l -> False.
Proof.
  intros Hex Hall. apply Exists_exists in Hex. destruct Hex as (g & Hin & Hm).
  rewrite Forall_forall in Hall. exact (Hall g Hin Hm).
Qed.

(** C6.  The grouper raises the data error exactly when some glyph record
    has no page number, and returns the per-page map exactly when every
    record has one (whatever the filter and trim settings). *)
Theorem group_glyphs_by_page_errors (glyphs_list : list Glyph.t) :
  (group_glyphs_by_page str_upper str_isdigit str_isalpha glyphs_list
     filter_watermarks enable_char_trim trim_scale
   = Raise (ValueError "Glyph record missing page number")
   <-> Exists (fun g => Glyph.page g = None) glyphs_list)
  /\ ((exists by_page : Dict (list PageGlyph.t),
         group_glyphs_by_page str_upper str_isdigit str_isalpha glyphs_list
           filter_watermarks enable_char_trim trim_scale
         = Ok by_page)
      <-> Forall (fun g => Glyph.page g <> None) glyphs_list).
Proof.
  unfold group_glyphs_by_page.
  destruct (group_loop_cases glyphs_list (Group.mk [] 0 0))
    as [(Hex & ->) | (Hall & st' & ->)]; cbn [bind].
  - split.
    + split; [intros _; exact Hex | reflexivity].
    + split; [intros (m & Hm); discriminate|].
      intros Hall. destruct (missing_excludes_all_present _ Hex Hall).
  - split.
    + split; [discriminate|].
      intros Hex. destruct (missing_excludes_all_present _ Hex Hall).
    + split; [intros _; exact Hall | intros _; eauto].
Qed.

End Grouper.

(* ================================================================== *)
(** ** Position labeler *)

Lemma v_pos_cases (y page_height : Q) :
  (y < page_height / 3 /\ v_pos y page_height = py_str "bottom")
  \/ (page_height / 3 <= y /\ y < 2 * (page_height / 3)
      /\ v_pos y page_height = py_str "middle")
  \/ (page_height / 3 <= y /\ 2 * (page_height / 3) <= y
      /\ v_pos y page_height = py_str "top").
Proof.
  unfold v_pos. cbv zeta.
  destruct (Qltb y (page_height / 3)) eqn:E1.
  - left. split; [now apply Qltb_true | reflexivity].
  - apply Qltb_false in E1.
    destruct (Qltb y (2 * (page_height / 3))) eqn:E2.
    + right; left. repeat split; [assumption | now apply Qltb_true].
    + right; right. repeat split; [assumption | now apply Qltb_false].
Qed.

Lemma h_pos_cases (x page_width : Q) :
  (x < page_width / 3 /\ h_pos x page_width = py_str "left")
  \/ (page_width / 3 <= x /\ x < 2 * (page_width / 3)
      /\ h_pos x page_width = py_str "center")
  \/ (page_width / 3 <= x /\ 2 * (page_width / 3) <= x
      /\ h_pos x page_width = py_str "right").
Proof.
  unfold h_pos. cbv zeta.
  destruct (Qltb x (page_width / 3)) eqn:E1.
  - left. split; [now apply Qltb_true | reflexivity].
  - apply Qltb_false in E1.
    destruct (Qltb x (2 * (page_width / 3))) eqn:E2.
    + right; left. repeat split; [assumption | now apply Qltb_true].
    + right; right. repeat split; [assumption | now apply Qltb_false].
Qed.

(** C9.  The label is the vertical third followed by the horizontal third.
    Each third is chosen by half-open comparisons: strictly below the first
    boundary is the lower bucket, otherwise strictly below the second is the
    middle one, otherwise the upper one.  On a page of positive size a
    coordinate exactly on a boundary lands in the higher bucket.  On a
    300 x 300 page, (10,10) is bottom-left, (290,290) is top-right and
    (150,150) is middle-center. *)
Theorem position_label_half_open (x y page_width page_height : Q)
    (Hw : 0 < page_width) (Hh : 0 < page_height) :
  get_position_label x y page_width page_height
  = v_pos y page_height ++ py_str "-" ++ h_pos x page_width
  /\ ((y < page_height / 3 /\ v_pos y page_height = py_str "bottom")
      \/ (page_height / 3 <= y /\ y < 2 * (page_height / 3)
          /\ v_pos y page_height = py_str "middle")
      \/ (page_height / 3 <= y /\ 2 * (page_height / 3) <= y
          /\ v_pos y page_height = py_str "top"))
  /\ ((x < page_width / 3 /\ h_pos x page_width = py_str "left")
      \/ (page_width / 3 <= x /\ x < 2 * (page_width / 3)
          /\ h_pos x page_width = py_str "center")
      \/ (page_width / 3 <= x /\ 2 * (page_width / 3) <= x
          /\ h_pos x page_width = py_str "right"))
  /\ v_pos (page_height / 3) page_height = py_str "middle"
  /\ v_pos (2 * (page_height / 3)) page_height = py_str "top"
  /\ h_pos (page_width / 3) page_width = py_str "center"
  /\ h_pos (2 * (page_width / 3)) page_width = py_str "right"
  /\ get_position_label 10 10 300 300 = py_str "bottom-left"
  /\ get_position_label 290 290 300 300 = py_str "top-right"
  /\ get_position_label 150 150 300 300 = py_str "middle-center".
Proof.
  split; [reflexivity|].
  split; [apply v_pos_cases|].
  split; [apply h_pos_cases|].
  assert (Tv : 0 < page_height / 3)
    by (apply Qlt_shift_div_l; [reflexivity | lra]).
  assert (Th : 0 < page_width / 3)
    by (apply Qlt_shift_div_l; [reflexivity | lra]).
  split.
  { destruct (v_pos_cases (page_height / 3) page_height)
      as [(H & _) | [(_ & _ & E) | (_ & H & _)]]; [lra | exact E | lra]. }
  split.
  { destruct (v_pos_cases (2 * (page_height / 3)) page_height)
      as [(H & _) | [(_ & H & _) | (_ & _ & E)]]; [lra | lra | exact E]. }
  split.
  { destruct (h_pos_cases (page_width / 3) page_width)
      as [(H & _) | [(_ & _ & E) | (_ & H & _)]]; [lra | exact E | lra]. }
  split.
  { destruct (h_pos_cases (2 * (page_width / 3)) page_width)
      as [(H & _) | [(_ & H & _) | (_ & _ & E)]]; [lra | lra | exact E]. }
  repeat split.
Qed.

(** The boundary point (100, 200) of a 300 x 300 page. *)
Lemma position_label_half_open_witness :
  (0 < 300 /\ 0 < 300)
  /\ get_position_label 100 200 300 300 = py_str "top-center"
  /\ v_pos (300 / 3) 300 = py_str "middle"
  /\ h_pos (2 * (300 / 3)) 300 = py_str "right".
Proof.
  split; [split; reflexivity|].
  destruct (position_label_half_open 100 200 300 300 eq_refl eq_refl)
    as (E & _ & _ & Hm & _ & _ & Hr & _).
  split; [|split; [exact Hm | exact Hr]].
  rewrite E. reflexivity.
Defined.

(* ================================================================== *)
(** ** Overlap finder: the loops compute [scanned] *)

Lemma scanned_nil (thr : Q) (page_num : Z) (st : FinderState) :
  scanned thr page_num [] st = st.
Proof.
  destruct st. unfold scanned, records_of, dropped_of, count_of. cbn.
  now rewrite app_nil_r, !Z.add_0_r.
Qed.

Lemma scanned_app (thr : Q) (page_num : Z)
    (ps qs : list (PageGlyph.t * PageGlyph.t)) (st : FinderState) :
  scanned thr page_num (ps ++ qs) st
  = scanned thr page_num qs (scanned thr page_num ps st).
Proof.
  unfold scanned, records_of, dropped_of, count_of. cbn.
  rewrite !filter_app, !map_app, !length_app, !Nat2Z.inj_add, fold_left_app.
  now rewrite app_assoc, !Z.add_assoc.
Qed.

Lemma visit_pair_ok (thr : Q) (page_num : Z) (gi gj : PageGlyph.t)
    (st : FinderState) :
  visit_pair thr page_num gi gj st = Ok (scanned thr page_num [(gi, gj)] st).
Proof.
  unfold visit_pair, scanned, records_of, dropped_of, count_of.
  cbn [filter]. unfold is_kept, is_dropped, touches, union_pct. cbn [fst snd].
  rewrite calculate_overlap_percentage_ok.
  destruct (intersects (box_of gi) (box_of gj)); cbn [bind andb].
  - destruct (Qltb thr _); cbn.
    + now rewrite Z.add_0_r.
    + now rewrite app_nil_r, Z.add_0_r.
  - destruct st; cbn. now rewrite app_nil_r, !Z.add_0_r.
Qed.

Lemma inner_loop_ok (thr : Q) (page_num : Z) (gi : PageGlyph.t)
    (later : list PageGlyph.t) (st : FinderState) :
  inner_loop thr page_num gi later st
  = Ok (scanned thr page_num (map (pair gi) later) st).
Proof.
  revert st. induction later as [|gj rest IH]; intros st; cbn [inner_loop map].
  - now rewrite scanned_nil.
  - rewrite visit_pair_ok. cbn [bind]. rewrite IH.
    now rewrite <- scanned_app.
Qed.

Lemma outer_loop_ok (thr : Q) (page_num : Z) (glyphs : list PageGlyph.t)
    (st : FinderState) :
  outer_loop thr page_num glyphs st
  = Ok (scanned thr page_num (pairs glyphs) st).
Proof.
  revert st. induction glyphs as [|gi later IH]; intros st; cbn [outer_loop pairs].
  - now rewrite scanned_nil.
  - rewrite inner_loop_ok. cbn [bind]. rewrite IH.
    now rewrite <- scanned_app.
Qed.

Lemma page_step_ok (thr : Q) (page_num : Z) (glyphs : list PageGlyph.t)
    (st : FinderState) :
  page_step thr page_num glyphs st = Ok (after_page thr st (page_num, glyphs)).
Proof.
  unfold page_step. rewrite outer_loop_ok. cbn [bind].
  unfold after_page, put_highlights, page_highlights, scanned. cbn.
  destruct (fold_left add_rects _ []); reflexivity.
Qed.

Lemma pages_loop_ok (thr : Q) (items : Dict (list PageGlyph.t))
    (st : FinderState) :
  pages_loop thr items st = Ok (fold_left (after_page thr) items st).
Proof.
  revert st. induction items as [|[page_num glyphs] rest IH]; intros st;
    cbn [pages_loop fold_left]; [reflexivity|].
  rewrite page_step_ok. cbn [bind]. apply IH.
Qed.

Lemma after_pages_overlaps (thr : Q) (items : Dict (list PageGlyph.t))
    (st : FinderState) :
  overlaps (fold_left (after_page thr) items st)
  = overlaps st ++ all_records thr items.
Proof.
  revert st. induction items as [|item rest IH]; intros st; cbn.
  - now rewrite app_nil_r.
  - rewrite IH. cbn. now rewrite app_assoc.
Qed.

Lemma after_pages_total (thr : Q) (items : Dict (list PageGlyph.t))
    (st : FinderState) :
  total (fold_left (after_page thr) items st)
  = (total st + count_of (all_records thr items))%Z.
Proof.
  revert st. induction items as [|item rest IH]; intros st; cbn.
  - unfold count_of. cbn. now rewrite Z.add_0_r.
  - rewrite IH. cbn. unfold count_of.
    rewrite length_app, Nat2Z.inj_add. now rewrite Z.add_assoc.
Qed.

Lemma after_pages_filtered (thr : Q) (items : Dict (list PageGlyph.t))
    (st : FinderState) :
  filtered_count (fold_left (after_page thr) items st)
  = (filtered_count st + all_dropped thr items)%Z.
Proof.
  revert st. induction items as [|item rest IH]; intros st; cbn.
  - now rewrite Z.add_0_r.
  - rewrite IH. cbn. now rewrite Z.add_assoc.
Qed.

Lemma after_pages_highlights (thr : Q) (items : Dict (list PageGlyph.t))
    (st : FinderState) :
  highlights_by_page (fold_left (after_page thr) items st)
  = fold_left (put_highlights thr) items (highlights_by_page st).
Proof.
  revert st. induction items as [|item rest IH]; intros st; cbn; [reflexivity|].
  now rewrite IH.
Qed.

(** The finder always returns, and what it returns. *)
Lemma find_overlaps_by_page_ok (glyphs_by_page : Dict (list PageGlyph.t)) (thr : Q) :
  find_overlaps_by_page glyphs_by_page thr
  = Ok (all_records thr glyphs_by_page,
        fold_left (put_highlights thr) glyphs_by_page [],
        count_of (all_records thr glyphs_by_page),
        all_dropped thr glyphs_by_page).
Proof.
  unfold find_overlaps_by_page. rewrite pages_loop_ok. cbn [bind].
  now rewrite after_pages_overlaps, after_pages_total, after_pages_filtered,
    after_pages_highlights.
Qed.

(* ================================================================== *)
(** ** Overlap finder: which pairs are kept *)

Lemma pairs_nth {A : Type} (l : list A) (i j : nat) (x y : A) :
  (i < j)%nat -> nth_error l i = Some x -> nth_error l j = Some y ->
  In (x, y) (pairs l).
Proof.
  revert i j. induction l as [|z rest IH]; intros i j Hij Hi Hj.
  - destruct i; discriminate.
  - cbn [pairs]. apply in_or_app. destruct j as [|j]; [lia|].
    cbn in Hj. destruct i as [|i].
    + cbn in Hi. injection Hi as ->. left.
      apply in_map. eapply nth_error_In; eassumption.
    + cbn in Hi. right. apply (IH i j); [lia | assumption | assumption].
Qed.

Lemma in_all_records (thr : Q) (items : Dict (list PageGlyph.t)) (r : Overlap.t) :
  In r (all_records thr items) <->
  exists page_num glyphs p,
    In (page_num, glyphs) items /\ In p (pairs glyphs)
    /\ is_kept thr p = true /\ r = record_of page_num p.
Proof.
  unfold all_records, records_of. rewrite in_flat_map. split.
  - intros ([page_num glyphs] & Hin & Hr). cbn [fst snd] in Hr.
    apply in_map_iff in Hr. destruct Hr as (p & <- & Hp).
    apply filter_In in Hp. destruct Hp as (Hp & Hk).
    exists page_num, glyphs, p. auto.
  - intros (page_num & glyphs & p & Hin & Hp & Hk & ->).
    exists (page_num, glyphs). split; [assumption|]. cbn [fst snd].
    apply in_map. apply filter_In. auto.
Qed.

Lemma is_kept_iff (thr : Q) (p : PageGlyph.t * PageGlyph.t) :
  is_kept thr p = true <-> touches p = true /\ thr < union_pct p.
Proof. unfold is_kept. now rewrite andb_true_iff, Qltb_true. Qed.

Lemma is_kept_antitone (t1 t2 : Q) (p : PageGlyph.t * PageGlyph.t) :
  t1 <= t2 -> is_kept t2 p = true -> is_kept t1 p = true.
Proof.
  rewrite !is_kept_iff. intros Ht (Hx & Hu). split; [assumption | lra].
Qed.

Lemma filter_length_le {A : Type} (f g : A -> bool) (l : list A) :
  (forall x, f x = true -> g x = true) ->
  (List.length (filter f l) <= List.length (filter g l))%nat.
Proof.
  intros Hfg. induction l as [|x rest IH]; cbn; [lia|].
  destruct (f x) eqn:Ef.
  - rewrite (Hfg x Ef). cbn. lia.
  - destruct (g x); cbn; lia.
Qed.

Lemma records_of_antitone (t1 t2 : Q) (page_num : Z)
    (ps : list (PageGlyph.t * PageGlyph.t)) :
  t1 <= t2 ->
  (List.length (records_of t2 page_num ps)
   <= List.length (records_of t1 page_num ps))%nat.
Proof.
  intros Ht. unfold records_of. rewrite !length_map.
  apply filter_length_le. intros p. now apply is_kept_antitone.
Qed.

Lemma all_records_antitone (t1 t2 : Q) (items : Dict (list PageGlyph.t)) :
  t1 <= t2 ->
  (count_of (all_records t2 items) <= count_of (all_records t1 items))%Z.
Proof.
  intros Ht. unfold count_of. apply Nat2Z.inj_le.
  induction items as [|item rest IH]; cbn; [lia|].
  rewrite !length_app.
  pose proof (records_of_antitone t1 t2 (fst item) (pairs (snd item)) Ht).
  fold (all_records t2 rest). fold (all_records t1 rest). lia.
Qed.

Lemma all_records_above (thr : Q) (items : Dict (list PageGlyph.t)) :
  Forall (fun r => thr < Overlap.percentage_of_union r) (all_records thr items).
Proof.
  apply Forall_forall. intros r Hr. apply in_all_records in Hr.
  destruct Hr as (page_num & glyphs & p & _ & _ & Hk & ->).
  apply is_kept_iff in Hk. apply Hk.
Qed.

(** C3.  Raising the union-percentage threshold never increases the
    number of kept overlaps, and every kept record has a percentage of
    union strictly above the threshold it was kept at. *)
Theorem threshold_monotone (glyphs_by_page : Dict (list PageGlyph.t))
    (t1 t2 : Q) (Ht : t1 <= t2) :
  exists o1 h1 n1 f1 o2 h2 n2 f2,
    find_overlaps_by_page glyphs_by_page t1 = Ok (o1, h1, n1, f1)
    /\ find_overlaps_by_page glyphs_by_page t2 = Ok (o2, h2, n2, f2)
    /\ (n2 <= n1)%Z
    /\ Forall (fun r => t1 < Overlap.percentage_of_union r) o1
    /\ Forall (fun r => t2 < Overlap.percentage_of_union r) o2.
Proof.
  rewrite !find_overlaps_by_page_ok. do 8 eexists.
  split; [reflexivity|]. split; [reflexivity|].
  split; [now apply all_records_antitone|].
  split; apply all_records_above.
Qed.

(** C1, as stated, fails: two 1000 x 1000 boxes sharing a unit square
    intersect with area 1, yet at threshold 0 the pair is counted as
    filtered out, because 1/1999999 of the union rounds to 0.00. *)
Lemma threshold_zero_drops_tiny_overlap :
  intersects (0, 0, 1000, 1000) (999, 999, 1000, 1000) = true
  /\ intersection_area (0, 0, 1000, 1000) (999, 999, 1000, 1000) == 1
  /\ (exists m : Metrics,
        calculate_overlap_percentage (0, 0, 1000, 1000) (999, 999, 1000, 1000)
        = Ok m
        /\ overlap_area m == 1 /\ percentage_of_total m == 0)
  /\ find_overlaps_by_page
       [(1%Z, [PageGlyph.mk (py_str "A") 0 0 1000 1000;
               PageGlyph.mk (py_str "B") 999 999 1000 1000])] 0
     = Ok ([], [], 0%Z, 1%Z).
Proof.
  split; [reflexivity|]. split; [reflexivity|]. split; [|reflexivity].
  eexists. split; [vm_compute; reflexivity|]. split; reflexivity.
Qed.

(** C1 (amended).  At threshold 0 every scanned pair [i < j] of a page
    whose boxes intersect and whose percentage of union, as returned by the
    metrics (rounded to two decimals), is above 0 is kept as a record. *)
Theorem threshold_zero_keeps (glyphs_by_page : Dict (list PageGlyph.t))
    (page_num : Z) (glyphs : list PageGlyph.t) (i j : nat)
    (gi gj : PageGlyph.t) (m : Metrics)
    (Hpage : In (page_num, glyphs) glyphs_by_page)
    (Hij : (i < j)%nat)
    (Hi : nth_error glyphs i = Some gi)
    (Hj : nth_error glyphs j = Some gj)
    (Hx : intersects (box_of gi) (box_of gj) = true)
    (Hm : calculate_overlap_percentage (box_of gi) (box_of gj) = Ok m)
    (Hpos : 0 < percentage_of_total m) :
  exists o h n f,
    find_overlaps_by_page glyphs_by_page 0 = Ok (o, h, n, f)
    /\ In (Overlap.mk page_num (box_of gi) (box_of gj) (PageGlyph.char gi)
             (PageGlyph.char gj) (percentage_of_total m)) o.
Proof.
  rewrite find_overlaps_by_page_ok. do 4 eexists. split; [reflexivity|].
  rewrite calculate_overlap_percentage_ok in Hm. injection Hm as <-.
  apply in_all_records. exists page_num, glyphs, (gi, gj).
  split; [assumption|]. split; [eapply pairs_nth; eassumption|].
  split; [|reflexivity].
  apply is_kept_iff. split; assumption.
Qed.

Lemma threshold_zero_keeps_witness :
  exists o h n f,
    find_overlaps_by_page sample_page 0 = Ok (o, h, n, f)
    /\ In (Overlap.mk 1 (0, 0, 10, 10) (5, 5, 10, 10) (py_str "A") (py_str "B")
             (percentage_of_total (metrics (0, 0, 10, 10) (5, 5, 10, 10)))) o.
Proof.
  apply (threshold_zero_keeps sample_page 1 [glyph_A; glyph_B] 0 1
           glyph_A glyph_B (metrics (0, 0, 10, 10) (5, 5, 10, 10))).
  - left. reflexivity.
  - lia.
  - reflexivity.
  - reflexivity.
  - reflexivity.
  - apply calculate_overlap_percentage_ok.
  - reflexivity.
Defined.

Lemma threshold_monotone_witness :
  0 <= 20
  /\ exists o1 h1 n1 f1 o2 h2 n2 f2,
       find_overlaps_by_page sample_page 0 = Ok (o1, h1, n1, f1)
       /\ find_overlaps_by_page sample_page 20 = Ok (o2, h2, n2, f2)
       /\ (n2 <= n1)%Z
       /\ Forall (fun r => 0 < Overlap.percentage_of_union r) o1
       /\ Forall (fun r => 20 < Overlap.percentage_of_union r) o2.
Proof.
  split; [discriminate|].
  apply (threshold_monotone sample_page 0 20). discriminate.
Defined.

(* ================================================================== *)
(** ** Overlap finder: highlights *)

Lemma box_eqb_refl (a : Box) : box_eqb a a = true.
Proof.
  destruct a as [[[ax ay] aw] ah]. unfold box_eqb.
  now rewrite !Qeq_bool_refl.
Qed.

Lemma box_eqb_sym (a b : Box) : box_eqb a b = true -> box_eqb b a = true.
Proof.
  destruct a as [[[ax ay] aw] ah], b as [[[bx by_] bw] bh]. unfold box_eqb.
  rewrite !andb_true_iff. intros (((H1 & H2) & H3) & H4).
  repeat split; now apply Qeq_bool_sym.
Qed.

Lemma box_eqb_trans (a b c : Box) :
  box_eqb a b = true -> box_eqb b c = true -> box_eqb a c = true.
Proof.
  destruct a as [[[ax ay] aw] ah], b as [[[bx by_] bw] bh],
    c as [[[cx cy] cw] ch]. unfold box_eqb.
  rewrite !andb_true_iff.
  intros (((H1 & H2) & H3) & H4) (((K1 & K2) & K3) & K4).
  repeat split; eapply Qeq_bool_trans; eassumption.
Qed.

#[export] Instance box_eq_equiv : Equivalence box_eq.
Proof.
  split.
  - intros a. apply box_eqb_refl.
  - intros a b. apply box_eqb_sym.
  - intros a b c. apply box_eqb_trans.
Qed.

Lemma existsb_box_InA (b : Box) (s : list Box) :
  existsb (box_eqb b) s = true <-> InA box_eq b s.
Proof.
  rewrite existsb_exists, InA_alt. unfold box_eq.
  split; intros (c & H1 & H2); exists c; split; assumption.
Qed.

Lemma set_add_nodup (b : Box) (s : list Box) :
  NoDupA box_eq s -> NoDupA box_eq (set_add b s).
Proof.
  intros Hs. unfold set_add. destruct (existsb (box_eqb b) s) eqn:E; [assumption|].
  apply NoDupA_app; [apply box_eq_equiv | assumption | |].
  - constructor; [|constructor]. intros H. inversion H.
  - intros c Hc Hb. inversion Hb as [? ? Hcb | ? ? Hnil]; subst; [|inversion Hnil].
    assert (Hin : InA box_eq b s).
    { eapply InA_eqA; [apply box_eq_equiv | exact Hcb | exact Hc]. }
    apply existsb_box_InA in Hin. congruence.
Qed.

Lemma set_add_nonempty (b : Box) (s : list Box) : set_add b s <> [].
Proof.
  unfold set_add. destruct s as [|c s]; cbn; [discriminate|].
  destruct (box_eqb b c || existsb (box_eqb b) s); discriminate.
Qed.

Lemma add_rects_nodup (rs : list Overlap.t) (acc : list Box) :
  NoDupA box_eq acc -> NoDupA box_eq (fold_left add_rects rs acc).
Proof.
  revert acc. induction rs as [|r rest IH]; intros acc Hacc; cbn; [assumption|].
  apply IH. unfold add_rects. now do 2 apply set_add_nodup.
Qed.

Lemma add_rects_nil (rs : list Overlap.t) (acc : list Box) :
  fold_left add_rects rs acc = [] <-> rs = [] /\ acc = [].
Proof.
  revert acc. induction rs as [|r rest IH]; intros acc; cbn.
  - split; [auto | intros (_ & H); exact H].
  - rewrite IH. split.
    + intros (_ & H). unfold add_rects in H. now apply set_add_nonempty in H.
    + intros (H & _). discriminate.
Qed.

Lemma page_highlights_nodup (thr : Q) (page_num : Z) (glyphs : list PageGlyph.t) :
  NoDupA box_eq (page_highlights thr page_num glyphs).
Proof. apply add_rects_nodup. constructor. Qed.

Lemma records_of_page (thr : Q) (page_num : Z)
    (ps : list (PageGlyph.t * PageGlyph.t)) (r : Overlap.t) :
  In r (records_of thr page_num ps) -> Overlap.page r = page_num.
Proof.
  unfold records_of. rewrite in_map_iff. intros (p & <- & _). reflexivity.
Qed.

Lemma page_highlights_nil (thr : Q) (page_num : Z) (glyphs : list PageGlyph.t) :
  page_highlights thr page_num glyphs = [] <->
  records_of thr page_num (pairs glyphs) = [].
Proof.
  unfold page_highlights. rewrite add_rects_nil. tauto.
Qed.

Lemma dict_keys_set {V : Type} (k p : Z) (v : V) (d : Dict V) :
  In k (dict_keys (dict_set p v d)) <-> k = p \/ In k (dict_keys d).
Proof.
  induction d as [|[p' v'] rest IH]; cbn.
  - intuition.
  - destruct (Z.eqb p p') eqn:E; cbn.
    + apply Z.eqb_eq in E. subst p'. intuition.
    + rewrite IH. intuition.
Qed.

Lemma dict_get_set {V : Type} (k p : Z) (v : V) (d : Dict V) :
  dict_get k (dict_set p v d) = if Z.eqb k p then Some v else dict_get k d.
Proof.
  induction d as [|[p' v'] rest IH]; cbn.
  - reflexivity.
  - destruct (Z.eqb p p') eqn:E; cbn.
    + apply Z.eqb_eq in E. subst p'. now destruct (Z.eqb k p).
    + rewrite IH. destruct (Z.eqb k p) eqn:Ek; [|reflexivity].
      apply Z.eqb_eq in Ek. subst k. now rewrite E.
Qed.

Lemma put_highlights_keys (thr : Q) (h : Dict (list Box))
    (item : Z * list PageGlyph.t) (k : Z) :
  In k (dict_keys (put_highlights thr h item)) <->
  In k (dict_keys h)
  \/ exists r, In r (records_of thr (fst item) (pairs (snd item)))
               /\ Overlap.page r = k.
Proof.
  unfold put_highlights.
  destruct (page_highlights thr (fst item) (snd item)) as [|b bs] eqn:E.
  - apply page_highlights_nil in E. rewrite E. split; [auto|].
    intros [H | (r & [] & _)]. exact H.
  - rewrite dict_keys_set.
    assert (Hne : records_of thr (fst item) (pairs (snd item)) <> []).
    { intros H. apply page_highlights_nil in H. congruence. }
    split.
    + intros [-> | H]; [right | now left].
      destruct (records_of thr (fst item) (pairs (snd item))) as [|r rs] eqn:Er;
        [congruence|].
      exists r. split; [now left|].
      apply (records_of_page thr (fst item) (pairs (snd item))).
      rewrite Er. now left.
    + intros [H | (r & Hr & <-)]; [now right | left].
      now apply records_of_page in Hr.
Qed.

Lemma highlights_keys (thr : Q) (items : Dict (list PageGlyph.t))
    (h : Dict (list Box)) (k : Z) :
  In k (dict_keys (fold_left (put_highlights thr) items h)) <->
  In k (dict_keys h)
  \/ exists r, In r (all_records thr items) /\ Overlap.page r = k.
Proof.
  revert h. induction items as [|item rest IH]; intros h; cbn [fold_left].
  - split; [auto|]. intros [H | (r & [] & _)]. exact H.
  - rewrite IH, put_highlights_keys. unfold all_records. cbn [flat_map].
    split.
    + intros [[H | (r & Hr & Hp)] | (r & Hr & Hp)].
      * now left.
      * right. exists r. split; [apply in_or_app; now left | assumption].
      * right. exists r. split; [apply in_or_app; now right | assumption].
    + intros [H | (r & Hr & Hp)]; [now do 2 left|].
      apply in_app_or in Hr. destruct Hr as [Hr | Hr].
      * left; right. eauto.
      * right. eauto.
Qed.

Lemma put_highlights_nodup (thr : Q) (h : Dict (list Box))
    (item : Z * list PageGlyph.t) :
  values_nodup h -> values_nodup (put_highlights thr h item).
Proof.
  intros Hh. unfold put_highlights.
  destruct (page_highlights thr (fst item) (snd item)) as [|b bs] eqn:E;
    [assumption|].
  intros p boxes. rewrite dict_get_set. destruct (Z.eqb p (fst item)).
  - intros H. injection H as <-. rewrite <- E. apply page_highlights_nodup.
  - apply Hh.
Qed.

Lemma highlights_nodup (thr : Q) (items : Dict (list PageGlyph.t))
    (h : Dict (list Box)) :
  values_nodup h -> values_nodup (fold_left (put_highlights thr) items h).
Proof.
  revert h. induction items as [|item rest IH]; intros h Hh; cbn [fold_left].
  - assumption.
  - apply IH. now apply put_highlights_nodup.
Qed.

(** C10.  The finder always returns; the returned total is the length of
    the returned overlap list; a page is a key of the highlights map exactly
    when some returned record belongs to that page; and no highlight list
    holds the same box twice. *)
Theorem finder_outputs_consistent (glyphs_by_page : Dict (list PageGlyph.t))
    (thr : Q) :
  exists o h n f,
    find_overlaps_by_page glyphs_by_page thr = Ok (o, h, n, f)
    /\ n = Z.of_nat (List.length o)
    /\ (forall p : Z,
          In p (dict_keys h) <-> exists r, In r o /\ Overlap.page r = p)
    /\ (forall (p : Z) (boxes : list Box),
          dict_get p h = Some boxes -> NoDupA box_eq boxes).
Proof.
  rewrite find_overlaps_by_page_ok. do 4 eexists.
  split; [reflexivity|]. split; [reflexivity|]. split.
  - intros p. rewrite highlights_keys. cbn. tauto.
  - apply highlights_nodup. intros p boxes H. discriminate.
Qed.

Lemma finder_outputs_consistent_witness :
  exists o h n f boxes,
    find_overlaps_by_page sample_page 0 = Ok (o, h, n, f)
    /\ dict_get 1 h = Some boxes
    /\ NoDupA box_eq boxes.
Proof.
  destruct (finder_outputs_consistent sample_page 0)
    as (o & h & n & f & E & _ & _ & Hnd).
  pose proof E as E'. rewrite find_overlaps_by_page_ok in E'.
  injection E' as _ Eh _ _.
  exists o, h, n, f, [(0, 0, 10, 10); (5, 5, 10, 10)].
  assert (Hget : dict_get 1 h = Some [(0, 0, 10, 10); (5, 5, 10, 10)])
    by (rewrite <- Eh; reflexivity).
  split; [exact E|]. split; [exact Hget|].
  exact (Hnd 1%Z _ Hget).
Defined.

(* ================================================================== *)
(** ** Identical glyphs *)

Lemma pct_full (overlap area : Q) :
  0 < area -> overlap == area -> round2 (pct overlap area) == 100.
Proof.
  intros Ha He. unfold pct.
  assert (E : Qltb 0 area = true) by now apply Qltb_true.
  rewrite E. apply round2_100. rewrite He. field.
  intros H. rewrite H in Ha. now apply Qlt_irrefl in Ha.
Qed.

Lemma metrics_identical (x y w h : Q) :
  0 < w -> 0 < h ->
  percentage_of_a (metrics (x, y, w, h) (x, y, w, h)) == 100
  /\ percentage_of_b (metrics (x, y, w, h) (x, y, w, h)) == 100
  /\ percentage_of_total (metrics (x, y, w, h) (x, y, w, h)) == 100.
Proof.
  intros Hw Hh. unfold metrics.
  assert (Mx : py_max x x = x) by (unfold py_max; now destruct (Qltb x x)).
  assert (My : py_max y y = y) by (unfold py_max; now destruct (Qltb y y)).
  assert (Nx : py_min (x + w) (x + w) = x + w)
    by (unfold py_min; now destruct (Qltb (x + w) (x + w))).
  assert (Ny : py_min (y + h) (y + h) = y + h)
    by (unfold py_min; now destruct (Qltb (y + h) (y + h))).
  rewrite Mx, My, Nx, Ny.
  assert (Ex : Qltb (x + w) x = false) by (apply Qltb_false; lra).
  assert (Ey : Qltb (y + h) y = false) by (apply Qltb_false; lra).
  rewrite Ex, Ey. cbn [orb percentage_of_a percentage_of_b percentage_of_total].
  assert (Hwh : 0 < w * h) by (apply Qmult_lt_0_compat; assumption).
  repeat split; apply pct_full; try assumption; try ring.
  assert (E : w * h + w * h - (x + w - x) * (y + h - y) == w * h) by ring.
  now rewrite E.
Qed.

(** C5.  Grouping (watermark filter on, no trim) and scanning at
    threshold 0 the two identical glyphs 'A' on page 1 with box
    (0,0,10,10) and font size 12 gives exactly one record, whose percentage
    of union is 100; and for any box of positive width and height, the
    metrics of the box against itself are 100 % of a, of b and of the
    union. *)
Theorem identical_glyphs_full_overlap (str_upper : str -> str)
    (str_isdigit str_isalpha : str -> bool) (x y w h : Q)
    (Hw : 0 < w) (Hh : 0 < h) :
  (exists (r : Overlap.t) (hl : Dict (list Box)),
     group_and_find str_upper str_isdigit str_isalpha
       [scenario_glyph; scenario_glyph] true 0 false 1
     = Ok ([r], hl, 1%Z, 0%Z)
     /\ Overlap.percentage_of_union r == 100)
  /\ exists m : Metrics,
       calculate_overlap_percentage (x, y, w, h) (x, y, w, h) = Ok m
       /\ percentage_of_a m == 100
       /\ percentage_of_b m == 100
       /\ percentage_of_total m == 100.
Proof.
  split.
  - do 2 eexists. split; [vm_compute; reflexivity | reflexivity].
  - exists (metrics (x, y, w, h) (x, y, w, h)).
    split; [apply calculate_overlap_percentage_ok|].
    now apply metrics_identical.
Qed.

Lemma identical_glyphs_full_overlap_witness :
  (0 < 10 /\ 0 < 10)
  /\ exists m : Metrics,
       calculate_overlap_percentage (0, 0, 10, 10) (0, 0, 10, 10) = Ok m
       /\ percentage_of_a m == 100
       /\ percentage_of_b m == 100
       /\ percentage_of_total m == 100.
Proof.
  split; [split; reflexivity|].
  exact (proj2 (identical_glyphs_full_overlap (fun s => s) (fun _ => false)
                  (fun _ => false) 0 0 10 10 eq_refl eq_refl)).
Defined.

(* ================================================================== *)
(** ** Statistics engine *)

Lemma str_eqb_eq (s t : str) : str_eqb s t = true <-> s = t.
Proof.
  revert t. induction s as [|c s IH]; intros [|d t]; cbn;
    try (split; [discriminate | discriminate]); [tauto|].
  rewrite andb_true_iff, N.eqb_eq, IH. split.
  - intros (-> & ->). reflexivity.
  - intros H. injection H as -> ->. auto.
Qed.

Lemma str_eqb_refl (s : str) : str_eqb s s = true.
Proof. now apply str_eqb_eq. Qed.

Lemma str_eqb_neq (s t : str) : str_eqb s t = false <-> s <> t.
Proof. rewrite <- str_eqb_eq. now destruct (str_eqb s t). Qed.

Lemma counter_incr_total (k : str) (c : Counter) :
  counter_total (counter_incr k c) = (counter_total c + 1)%Z.
Proof.
  unfold counter_total.
  induction c as [|[k' n] rest IH]; cbn [counter_incr]; [reflexivity|].
  destruct (str_eqb k k'); cbn [fold_right snd] in *; lia.
Qed.

Lemma counter_incr_keys (k k' : str) (c : Counter) :
  In k' (counter_keys (counter_incr k c)) <-> k' = k \/ In k' (counter_keys c).
Proof.
  induction c as [|[k'' n] rest IH]; cbn.
  - intuition.
  - destruct (str_eqb k k'') eqn:E; cbn.
    + apply str_eqb_eq in E. subst k''. intuition.
    + rewrite IH. intuition.
Qed.

Lemma counter_incr_nodup (k : str) (c : Counter) :
  NoDup (counter_keys c) -> NoDup (counter_keys (counter_incr k c)).
Proof.
  induction c as [|[k' n] rest IH]; cbn; intros H.
  - constructor; [intros [] | constructor].
  - inversion H as [|? ? Hnin Hnd]; subst.
    destruct (str_eqb k k') eqn:E; cbn.
    + now constructor.
    + constructor; [|now apply IH].
      fold (counter_keys (counter_incr k rest)). rewrite counter_incr_keys.
      intros [-> | Hin]; [|contradiction].
      rewrite str_eqb_refl in E. discriminate.
Qed.

Lemma counter_get_incr (k k' : str) (c : Counter) :
  counter_get k (counter_incr k' c)
  = (counter_get k c + (if str_eqb k k' then 1 else 0))%Z.
Proof.
  induction c as [|[k'' n] rest IH]; cbn.
  - destruct (str_eqb k k'); reflexivity.
  - destruct (str_eqb k' k'') eqn:E; cbn.
    + apply str_eqb_eq in E. subst k''.
      destruct (str_eqb k k'); lia.
    + destruct (str_eqb k k'') eqn:E2.
      * apply str_eqb_eq in E2. subst k''.
        assert (E3 : str_eqb k k' = false).
        { apply str_eqb_neq. apply str_eqb_neq in E. congruence. }
        rewrite E3. lia.
      * apply IH.
Qed.

Lemma counter_get_in (k : str) (n : Z) (c : Counter) :
  NoDup (counter_keys c) -> In (k, n) c -> counter_get k c = n.
Proof.
  induction c as [|[k' n'] rest IH]; cbn; intros Hnd Hin; [contradiction|].
  inversion Hnd as [|? ? Hnin Hnd']; subst.
  destruct Hin as [H | Hin].
  - injection H as -> ->. now rewrite str_eqb_refl.
  - destruct (str_eqb k k') eqn:E.
    + apply str_eqb_eq in E. subst k'. exfalso. apply Hnin.
      change k with (fst (k, n)). now apply in_map.
    + now apply IH.
Qed.

Lemma occurrences_cons (k x : str) (l : list str) :
  occurrences k (x :: l)
  = ((if str_eqb k x then 1 else 0) + occurrences k l)%Z.
Proof.
  unfold occurrences. cbn [filter]. destruct (str_eqb k x); cbn [List.length]; lia.
Qed.

Lemma occurrences_le_length (ch : str) (l : list str) :
  (0 <= occurrences ch l <= Z.of_nat (List.length l))%Z.
Proof.
  unfold occurrences. induction l as [|x rest IH]; cbn [filter List.length];
    [lia|].
  destruct (str_eqb ch x); cbn [List.length]; lia.
Qed.

Lemma tally_total (l : list str) (acc : Counter) :
  counter_total (tally l acc) = (counter_total acc + Z.of_nat (List.length l))%Z.
Proof.
  unfold tally. revert acc. induction l as [|x rest IH]; intros acc; cbn [fold_left].
  - cbn. lia.
  - rewrite IH, counter_incr_total. cbn [List.length]. lia.
Qed.

Lemma tally_get (k : str) (l : list str) (acc : Counter) :
  counter_get k (tally l acc) = (counter_get k acc + occurrences k l)%Z.
Proof.
  unfold tally. revert acc. induction l as [|x rest IH]; intros acc; cbn [fold_left].
  - unfold occurrences. cbn. lia.
  - rewrite IH, counter_get_incr, occurrences_cons. lia.
Qed.

Lemma tally_nodup (l : list str) (acc : Counter) :
  NoDup (counter_keys acc) -> NoDup (counter_keys (tally l acc)).
Proof.
  unfold tally. revert acc. induction l as [|x rest IH]; intros acc H; cbn [fold_left].
  - assumption.
  - apply IH. now apply counter_incr_nodup.
Qed.

Lemma tally_keys (k : str) (l : list str) (acc : Counter) :
  In k (counter_keys (tally l acc)) <-> In k (counter_keys acc) \/ In k l.
Proof.
  unfold tally. revert acc. induction l as [|x rest IH]; intros acc; cbn [fold_left].
  - cbn. tauto.
  - rewrite IH, counter_incr_keys. cbn. intuition.
Qed.

Lemma count_chars_tally (ovs : list Overlap.t) :
  count_chars ovs = tally (slots ovs) [].
Proof.
  unfold count_chars, tally. generalize (@nil (str * Z)).
  induction ovs as [|o rest IH]; intros acc; cbn; [reflexivity|].
  apply IH.
Qed.

Lemma slots_length (ovs : list Overlap.t) :
  Z.of_nat (List.length (slots ovs)) = (2 * Z.of_nat (List.length ovs))%Z.
Proof.
  unfold slots. induction ovs as [|o rest IH]; cbn [flat_map List.length app].
  - reflexivity.
  - cbn [List.length app] in *. lia.
Qed.

Lemma insert_desc_perm (e : str * Z) (l : Counter) :
  Permutation (insert_desc e l) (e :: l).
Proof.
  induction l as [|e' rest IH]; cbn; [reflexivity|].
  destruct (Z.leb (snd e') (snd e)); [reflexivity|].
  rewrite IH. apply perm_swap.
Qed.

Lemma most_common_perm (c : Counter) : Permutation (most_common c) c.
Proof.
  induction c as [|e rest IH]; cbn; [reflexivity|].
  rewrite insert_desc_perm. now constructor.
Qed.

Lemma insert_desc_hdrel (a e : str * Z) (l : Counter) :
  entry_desc a e -> HdRel entry_desc a l -> HdRel entry_desc a (insert_desc e l).
Proof.
  intros Hae Hal. destruct l as [|b rest]; cbn.
  - now constructor.
  - destruct (Z.leb (snd b) (snd e)); constructor; [assumption|].
    now inversion Hal.
Qed.

Lemma insert_desc_sorted (e : str * Z) (l : Counter) :
  Sorted entry_desc l -> Sorted entry_desc (insert_desc e l).
Proof.
  induction l as [|a rest IH]; cbn; intros H.
  - repeat constructor.
  - destruct (Z.leb (snd a) (snd e)) eqn:E.
    + apply Z.leb_le in E. constructor; [assumption | now constructor].
    + apply Z.leb_gt in E. inversion H as [|? ? Hs Hh]; subst.
      constructor; [now apply IH|].
      apply insert_desc_hdrel; [unfold entry_desc; lia | assumption].
Qed.

Lemma most_common_sorted (c : Counter) : Sorted entry_desc (most_common c).
Proof.
  induction c as [|e rest IH]; cbn; [constructor|].
  now apply insert_desc_sorted.
Qed.

Lemma most_common_strongly_sorted (c : Counter) :
  StronglySorted entry_desc (most_common c).
Proof.
  apply Sorted_StronglySorted; [|apply most_common_sorted].
  intros e1 e2 e3. unfold entry_desc. lia.
Qed.

Lemma stat_of_sorted (t : Z) (l : Counter) :
  StronglySorted entry_desc l -> StronglySorted count_desc (map (stat_of t) l).
Proof.
  induction 1 as [|e rest Hs IH Hall]; cbn; constructor; [assumption|].
  apply Forall_map. revert Hall. apply Forall_impl. intros e' H. exact H.
Qed.

Lemma stat_of_total (t : Z) (l : Counter) :
  stats_total (map (stat_of t) l) = counter_total l.
Proof.
  unfold stats_total, counter_total.
  induction l as [|e rest IH]; cbn; [reflexivity | now rewrite IH].
Qed.

Lemma counter_total_perm (l l' : Counter) :
  Permutation l l' -> counter_total l = counter_total l'.
Proof.
  unfold counter_total. induction 1; cbn; lia.
Qed.

Lemma stats_loop_ok (t : Z) (entries : Counter) :
  t <> 0%Z -> stats_loop t entries = Ok (map (stat_of t) entries).
Proof.
  intros Ht. induction entries as [|[char count] rest IH]; cbn [stats_loop map];
    [reflexivity|].
  unfold py_int_truediv. destruct (Z.eqb_spec t 0) as [E|_]; [contradiction|].
  cbn [bind]. rewrite IH. reflexivity.
Qed.

Lemma count_chars_total (ovs : list Overlap.t) :
  counter_total (count_chars ovs) = (2 * Z.of_nat (List.length ovs))%Z.
Proof.
  rewrite count_chars_tally, tally_total, slots_length. cbn. lia.
Qed.

(** What the statistics engine returns. *)
Lemma calculate_character_statistics_ok (ovs : list Overlap.t) :
  calculate_character_statistics ovs
  = match count_chars ovs with
    | [] => Ok (mkStatistics [] 0 None)
    | _ :: _ =>
        Ok (mkStatistics
              (map (stat_of (2 * Z.of_nat (List.length ovs)))
                 (most_common (count_chars ovs)))
              (Z.of_nat (List.length (count_chars ovs)))
              (Some (2 * Z.of_nat (List.length ovs))%Z))
    end.
Proof.
  unfold calculate_character_statistics.
  pose proof (count_chars_total ovs) as Ht.
  destruct (count_chars ovs) as [|e c] eqn:Ec; [reflexivity|].
  rewrite Ht. rewrite stats_loop_ok; [reflexivity|].
  destruct ovs as [|o rest]; [discriminate Ec|]. cbn [List.length]. lia.
Qed.

(** C8.  The statistics engine always returns.  Its table has one entry
    per character occurring in a slot of some overlap, and the entry's
    count is the number of slots holding that character, so the counts add
    up to twice the number of overlaps.  The table is in descending order of
    count.  Each entry's percentage is the float
    [round(count / total * 100, 2)], total being the number of occurrences:
    it is the float written [n / 100] for a whole number [n] of hundredths
    between 0 and 100, and [n / 100] is within half a hundredth plus the
    error [2^-45] of the float product of the exact percentage; with fewer
    than [2^37] occurrences it is one of the two-decimal numbers nearest to
    the exact percentage. *)
Theorem character_statistics_spec (ovs : list Overlap.t) :
  exists s : Statistics,
    calculate_character_statistics ovs = Ok s
    /\ stats_total (character_stats s) = (2 * Z.of_nat (List.length ovs))%Z
    /\ Forall (fun e => CharStat.overlap_count e
                        = occurrences (CharStat.character e) (slots ovs))
         (character_stats s)
    /\ Forall (fun ch => exists e, In e (character_stats s)
                                   /\ CharStat.character e = ch)
         (slots ovs)
    /\ NoDup (map CharStat.character (character_stats s))
    /\ StronglySorted count_desc (character_stats s)
    /\ Forall (fun e =>
                 CharStat.percentage e
                 = py_round2
                     (py_float_mul
                        (fl (inject_Z (CharStat.overlap_count e)
                             / inject_Z (2 * Z.of_nat (List.length ovs))))
                        100)
                 /\ exists n : Z,
                      (0 <= n <= 10000)%Z
                      /\ CharStat.percentage e = fl (inject_Z n / 100)
                      /\ Qabs (inject_Z n / 100
                               - inject_Z (CharStat.overlap_count e)
                                 / inject_Z (2 * Z.of_nat (List.length ovs))
                                 * 100)
                         <= (1 # 200) + pow2 (-45)
                      /\ ((2 * Z.of_nat (List.length ovs) < 2 ^ 37)%Z ->
                          Qabs (inject_Z n / 100
                                - inject_Z (CharStat.overlap_count e)
                                  / inject_Z (2 * Z.of_nat (List.length ovs))
                                  * 100)
                          <= (1 # 200)))
         (character_stats s).
Proof.
  rewrite calculate_character_statistics_ok.
  pose proof (count_chars_total ovs) as Ht.
  pose proof (tally_nodup (slots ovs) [] (NoDup_nil _)) as Hnd.
  rewrite <- count_chars_tally in Hnd.
  assert (Hkeys : forall k, In k (counter_keys (count_chars ovs)) <-> In k (slots ovs)).
  { intros k. rewrite count_chars_tally, tally_keys. cbn. tauto. }
  assert (Hget : forall k n, In (k, n) (count_chars ovs) ->
                             n = occurrences k (slots ovs)).
  { intros k n Hin. rewrite <- (counter_get_in k n _ Hnd Hin).
    rewrite count_chars_tally, tally_get. cbn. lia. }
  destruct (count_chars ovs) as [|e0 c0] eqn:Ec.
  - eexists. split; [reflexivity|]. cbn.
    split; [exact Ht|]. split; [constructor|].
    split; [|split; [constructor | split; constructor]].
    apply Forall_forall. intros ch Hch. apply Hkeys in Hch. destruct Hch.
  - assert (Hpos : (0 < 2 * Z.of_nat (List.length ovs))%Z).
    { destruct ovs as [|o rest]; [discriminate Ec | cbn [List.length]; lia]. }
    rewrite <- Ec in *. clear Ec e0 c0.
    set (t := (2 * Z.of_nat (List.length ovs))%Z) in *.
    set (c := count_chars ovs) in *.
    eexists. split; [reflexivity|]. cbn [character_stats].
    split.
    { rewrite stat_of_total, <- Ht. apply counter_total_perm, most_common_perm. }
    split.
    { apply Forall_forall. intros e He. apply in_map_iff in He.
      destruct He as ([k n] & <- & Hin). cbn.
      apply Hget. eapply Permutation_in; [apply most_common_perm | exact Hin]. }
    split.
    { apply Forall_forall. intros ch Hch. apply Hkeys in Hch.
      unfold counter_keys in Hch. apply in_map_iff in Hch.
      destruct Hch as ([k n] & Hk & Hin). cbn in Hk. subst k.
      exists (stat_of t (ch, n)). split; [|reflexivity].
      apply in_map. eapply Permutation_in;
        [apply Permutation_sym, most_common_perm | exact Hin]. }
    split.
    { rewrite map_map. cbn.
      eapply Permutation_NoDup; [|exact Hnd].
      apply Permutation_sym. unfold counter_keys.
      apply Permutation_map, most_common_perm. }
    split.
    { apply stat_of_sorted, most_common_strongly_sorted. }
    apply Forall_forall. intros e He. apply in_map_iff in He.
    destruct He as ([k n] & <- & Hin).
    apply (Permutation_in _ (most_common_perm _)) in Hin.
    pose proof (Hget k n Hin) as Hn.
    pose proof (occurrences_le_length k (slots ovs)) as Hb.
    rewrite slots_length, <- Hn in Hb. fold t in Hb.
    split; [reflexivity|].
    unfold stat_of. cbn [CharStat.percentage CharStat.overlap_count fst snd].
    apply rounded_percentage_spec; assumption.
Qed.

(** The table of [sample_tie_overlaps]: the percentages are the floats
    85.62 and 14.37. *)
Example sample_tie_statistics :
  exists s : Statistics,
    calculate_character_statistics sample_tie_overlaps = Ok s
    /\ map (fun e => (CharStat.character e, CharStat.overlap_count e))
         (character_stats s)
       = [(py_str "e", 137%Z); (py_str "a", 23%Z)]
    /\ map (fun e => Qred (CharStat.percentage e)) (character_stats s)
       = [Qred (fl (8562 # 100)); Qred (fl (1437 # 100))]
    /\ map (fun e => Qred (CharStat.percentage e)) (character_stats s)
       = [753121484561449 # 8796093022208;
          8089590830664253 # 562949953421312].
Proof.
  eexists. split; [vm_compute; reflexivity|].
  split; [|split]; vm_compute; reflexivity.
Qed.

(** Rounding the exact percentages of that table instead gives 85.62 and
    14.38: the second tie goes the other way. *)
Example sample_tie_exact_rounding :
  round2 (inject_Z 137 / inject_Z 160 * 100) == 8562 # 100
  /\ round2 (inject_Z 23 / inject_Z 160 * 100) == 1438 # 100.
Proof. split; reflexivity. Qed.

(** One slot of 4000: the exact percentage 0.025 lies midway between 0.02
    and 0.03; the float product is above it and the result is 0.03. *)
Example one_of_4000 :
  Qred (py_round2 (float_percentage 1 4000))
  = 1080863910568919 # 36028797018963968
  /\ Qred (fl (3 # 100)) = 1080863910568919 # 36028797018963968.
Proof. split; vm_compute; reflexivity. Qed.

(* ================================================================== *)
(** ** Geometry: symmetry, disjoint boxes and bounds *)

#[export] Instance pct_proper : Proper (Qeq ==> Qeq ==> Qeq) pct.
Proof.
  intros o o' Ho a a' Ha. unfold pct.
  rewrite (Qltb_proper _ _ (Qeq_refl 0) _ _ Ha).
  destruct (Qltb 0 a'); [|reflexivity].
  now rewrite Ho, Ha.
Qed.

Lemma py_max_sym (a b : Q) : py_max a b == py_max b a.
Proof.
  destruct (py_max_cases a b) as [(H & ->) | (H & ->)];
    destruct (py_max_cases b a) as [(K & ->) | (K & ->)]; lra.
Qed.

Lemma py_min_sym (a b : Q) : py_min a b == py_min b a.
Proof.
  destruct (py_min_cases a b) as [(H & ->) | (H & ->)];
    destruct (py_min_cases b a) as [(K & ->) | (K & ->)]; lra.
Qed.

Lemma py_max_bounds (a b : Q) : a <= py_max a b /\ b <= py_max a b.
Proof. destruct (py_max_cases a b) as [(H & ->) | (H & ->)]; lra. Qed.

Lemma py_min_bounds (a b : Q) : py_min a b <= a /\ py_min a b <= b.
Proof. destruct (py_min_cases a b) as [(H & ->) | (H & ->)]; lra. Qed.

Lemma intersects_sym (a b : Box) : intersects a b = intersects b a.
Proof.
  destruct a as [[[ax ay] aw] ah], b as [[[bx by_] bw] bh]. unfold intersects.
  destruct (Qleb (ax + aw) bx), (Qleb (bx + bw) ax),
    (Qleb (ay + ah) by_), (Qleb (by_ + bh) ay); reflexivity.
Qed.

Lemma intersects_true (ax ay aw ah bx by_ bw bh : Q) :
  intersects (ax, ay, aw, ah) (bx, by_, bw, bh) = true <->
  bx < ax + aw /\ ax < bx + bw /\ by_ < ay + ah /\ ay < by_ + bh.
Proof.
  unfold intersects. rewrite negb_true_iff, !orb_false_iff, !Qleb_false. tauto.
Qed.

(** The unrounded intersection area, by cases on the early return. *)
Lemma intersection_area_cases (ax ay aw ah bx by_ bw bh : Q) :
  let dx := py_min (ax + aw) (bx + bw) - py_max ax bx in
  let dy := py_min (ay + ah) (by_ + bh) - py_max ay by_ in
  ((dx < 0 \/ dy < 0)
   /\ intersection_area (ax, ay, aw, ah) (bx, by_, bw, bh) = 0
   /\ metrics (ax, ay, aw, ah) (bx, by_, bw, bh) = mkMetrics 0 0 0 0)
  \/ (0 <= dx /\ 0 <= dy
      /\ intersection_area (ax, ay, aw, ah) (bx, by_, bw, bh) = dx * dy
      /\ metrics (ax, ay, aw, ah) (bx, by_, bw, bh)
         = mkMetrics (round2 (dx * dy)) (round2 (pct (dx * dy) (aw * ah)))
             (round2 (pct (dx * dy) (bw * bh)))
             (round2 (pct (dx * dy) (aw * ah + bw * bh - dx * dy)))).
Proof.
  cbv zeta. unfold intersection_area, metrics.
  destruct (Qltb (py_min (ax + aw) (bx + bw)) (py_max ax bx)) eqn:Ex.
  - apply Qltb_true in Ex. left. cbn [orb].
    split; [left; lra | split; reflexivity].
  - apply Qltb_false in Ex. cbn [orb].
    destruct (Qltb (py_min (ay + ah) (by_ + bh)) (py_max ay by_)) eqn:Ey.
    + apply Qltb_true in Ey. left.
      split; [right; lra | split; reflexivity].
    + apply Qltb_false in Ey. right.
      split; [lra | split; [lra | split; reflexivity]].
Qed.

(** The metrics in terms of the unrounded intersection area. *)
Lemma metrics_via_area (a b : Box) :
  overlap_area (metrics a b) == round2 (intersection_area a b)
  /\ percentage_of_a (metrics a b)
     == round2 (pct (intersection_area a b) (box_area a))
  /\ percentage_of_b (metrics a b)
     == round2 (pct (intersection_area a b) (box_area b))
  /\ percentage_of_total (metrics a b)
     == round2 (pct (intersection_area a b)
                  (box_area a + box_area b - intersection_area a b)).
Proof.
  destruct a as [[[ax ay] aw] ah], b as [[[bx by_] bw] bh].
  destruct (intersection_area_cases ax ay aw ah bx by_ bw bh)
    as [(_ & -> & ->) | (_ & _ & -> & ->)]; cbn [overlap_area percentage_of_a
      percentage_of_b percentage_of_total box_area].
  - assert (Z0 : forall area, round2 (pct 0 area) == 0).
    { intros area. unfold pct. destruct (Qltb 0 area); [|reflexivity].
      transitivity (round2 0); [|reflexivity].
      apply round2_proper. unfold Qdiv. ring. }
    split; [reflexivity|].
    split; [symmetry; apply Z0|]. split; symmetry; apply Z0.
  - split; [reflexivity|]. split; [reflexivity|]. split; reflexivity.
Qed.

Lemma intersection_area_sym (a b : Box) :
  intersection_area a b == intersection_area b a.
Proof.
  destruct a as [[[ax ay] aw] ah], b as [[[bx by_] bw] bh].
  pose proof (py_max_sym ax bx) as Mx. pose proof (py_max_sym ay by_) as My.
  pose proof (py_min_sym (ax + aw) (bx + bw)) as Nx.
  pose proof (py_min_sym (ay + ah) (by_ + bh)) as Ny.
  destruct (intersection_area_cases ax ay aw ah bx by_ bw bh)
    as [(H & -> & _) | (Hx & Hy & -> & _)];
    destruct (intersection_area_cases bx by_ bw bh ax ay aw ah)
      as [(K & -> & _) | (Kx & Ky & -> & _)].
  - reflexivity.
  - exfalso. destruct H; lra.
  - exfalso. destruct K; lra.
  - rewrite Mx, My, Nx, Ny. reflexivity.
Qed.

Lemma intersection_area_nonneg (a b : Box) : 0 <= intersection_area a b.
Proof.
  destruct a as [[[ax ay] aw] ah], b as [[[bx by_] bw] bh].
  destruct (intersection_area_cases ax ay aw ah bx by_ bw bh)
    as [(_ & -> & _) | (Hx & Hy & -> & _)]; [lra|].
  now apply Qmult_le_0_compat.
Qed.

Lemma intersection_area_le (a b : Box) :
  0 <= box_area a -> intersection_area a b <= box_area a.
Proof.
  destruct a as [[[ax ay] aw] ah], b as [[[bx by_] bw] bh]. cbn [box_area].
  intros Ha.
  destruct (intersection_area_cases ax ay aw ah bx by_ bw bh)
    as [(_ & -> & _) | (Hx & Hy & -> & _)]; [assumption|].
  pose proof (py_max_bounds ax bx). pose proof (py_max_bounds ay by_).
  pose proof (py_min_bounds (ax + aw) (bx + bw)).
  pose proof (py_min_bounds (ay + ah) (by_ + bh)).
  set (dx := py_min (ax + aw) (bx + bw) - py_max ax bx) in *.
  set (dy := py_min (ay + ah) (by_ + bh) - py_max ay by_) in *.
  assert (dx <= aw) by (unfold dx; lra).
  assert (dy <= ah) by (unfold dy; lra).
  nra.
Qed.

Lemma valid_box_area (a : Box) : valid_box a -> 0 < box_area a.
Proof.
  destruct a as [[[ax ay] aw] ah]. cbn. intros (Hw & Hh).
  now apply Qmult_lt_0_compat.
Qed.

Lemma nonneg_box_area (a : Box) : nonneg_box a -> 0 <= box_area a.
Proof.
  destruct a as [[[ax ay] aw] ah]. cbn. intros (Hw & Hh).
  now apply Qmult_le_0_compat.
Qed.

Lemma pct_percentage (overlap area : Q) :
  0 <= overlap -> overlap <= area -> is_percentage (pct overlap area).
Proof.
  intros H0 Hle. unfold pct, is_percentage.
  destruct (Qltb 0 area) eqn:E; [|lra].
  apply Qltb_true in E.
  assert (L : 0 <= overlap / area) by (apply Qle_shift_div_l; lra).
  assert (U : overlap / area <= 1) by (apply Qle_shift_div_r; lra).
  set (q := overlap / area) in *. lra.
Qed.

Lemma pct_zero_overlap (overlap area : Q) :
  overlap == 0 -> round2 (pct overlap area) == 0.
Proof.
  intros H. transitivity (round2 0); [|reflexivity].
  apply round2_proper. unfold pct. destruct (Qltb 0 area); [|reflexivity].
  rewrite H. unfold Qdiv. ring.
Qed.

Lemma metrics_percentages (a b : Box) :
  0 <= box_area a -> 0 <= box_area b ->
  is_percentage (percentage_of_a (metrics a b))
  /\ is_percentage (percentage_of_b (metrics a b))
  /\ is_percentage (percentage_of_total (metrics a b)).
Proof.
  intros Ha Hb.
  destruct (metrics_via_area a b) as (_ & Ea & Eb & Et).
  pose proof (intersection_area_nonneg a b) as H0.
  pose proof (intersection_area_le a b Ha) as Hla.
  pose proof (intersection_area_le b a Hb) as Hlb.
  rewrite <- (intersection_area_sym a b) in Hlb.
  unfold is_percentage in *. rewrite Ea, Eb, Et.
  split; [|split]; apply round2_percentage, pct_percentage; lra.
Qed.

Lemma disjoint_area_zero (a b : Box) :
  intersects a b = false -> intersection_area a b == 0.
Proof.
  destruct a as [[[ax ay] aw] ah], b as [[[bx by_] bw] bh]. intros H.
  assert (Hn : ~ (bx < ax + aw /\ ax < bx + bw /\ by_ < ay + ah /\ ay < by_ + bh)).
  { rewrite <- intersects_true. congruence. }
  destruct (intersection_area_cases ax ay aw ah bx by_ bw bh)
    as [(_ & -> & _) | (Hx & Hy & -> & _)]; [reflexivity|].
  pose proof (py_max_bounds ax bx). pose proof (py_max_bounds ay by_).
  pose proof (py_min_bounds (ax + aw) (bx + bw)).
  pose proof (py_min_bounds (ay + ah) (by_ + bh)).
  set (dx := py_min (ax + aw) (bx + bw) - py_max ax bx) in *.
  set (dy := py_min (ay + ah) (by_ + bh) - py_max ay by_) in *.
  destruct (Qlt_le_dec 0 dx) as [Px | Px].
  - destruct (Qlt_le_dec 0 dy) as [Py | Py].
    + exfalso. apply Hn. unfold dx, dy in *. repeat split; lra.
    + assert (E : dy == 0) by lra. rewrite E. ring.
  - assert (E : dx == 0) by lra. rewrite E. ring.
Qed.

Lemma positive_area_intersects (a b : Box) :
  0 < intersection_area a b -> intersects a b = true.
Proof.
  intros H. destruct (intersects a b) eqn:E; [reflexivity|].
  apply disjoint_area_zero in E. lra.
Qed.

Lemma intersects_positive_area (a b : Box) :
  valid_box a -> valid_box b -> intersects a b = true ->
  0 < intersection_area a b.
Proof.
  destruct a as [[[ax ay] aw] ah], b as [[[bx by_] bw] bh].
  intros (Haw & Hah) (Hbw & Hbh) H. apply intersects_true in H.
  destruct H as (H1 & H2 & H3 & H4).
  assert (Dx : 0 < py_min (ax + aw) (bx + bw) - py_max ax bx).
  { destruct (py_min_cases (ax + aw) (bx + bw)) as [(_ & ->) | (_ & ->)];
      destruct (py_max_cases ax bx) as [(_ & ->) | (_ & ->)]; lra. }
  assert (Dy : 0 < py_min (ay + ah) (by_ + bh) - py_max ay by_).
  { destruct (py_min_cases (ay + ah) (by_ + bh)) as [(_ & ->) | (_ & ->)];
      destruct (py_max_cases ay by_) as [(_ & ->) | (_ & ->)]; lra. }
  destruct (intersection_area_cases ax ay aw ah bx by_ bw bh)
    as [(K & _ & _) | (_ & _ & -> & _)].
  - exfalso. destruct K; lra.
  - now apply Qmult_lt_0_compat.
Qed.

(** X1.  Swapping the two boxes does not change [intersects], the overlap
    area or the percentage of union, and exchanges the percentages of a and
    of b. *)
Theorem overlap_metrics_symmetric (a b : Box) :
  intersects b a = intersects a b
  /\ exists m m' : Metrics,
       calculate_overlap_percentage a b = Ok m
       /\ calculate_overlap_percentage b a = Ok m'
       /\ overlap_area m' == overlap_area m
       /\ percentage_of_a m' == percentage_of_b m
       /\ percentage_of_b m' == percentage_of_a m
       /\ percentage_of_total m' == percentage_of_total m.
Proof.
  split; [apply intersects_sym|].
  exists (metrics a b), (metrics b a).
  split; [apply calculate_overlap_percentage_ok|].
  split; [apply calculate_overlap_percentage_ok|].
  destruct (metrics_via_area a b) as (Eo & Ea & Eb & Et).
  destruct (metrics_via_area b a) as (Eo' & Ea' & Eb' & Et').
  pose proof (intersection_area_sym b a) as S.
  rewrite Eo, Ea, Eb, Et, Eo', Ea', Eb', Et'.
  split; [now rewrite S|]. split; [now rewrite S|]. split; [now rewrite S|].
  apply round2_proper, pct_proper; [exact S|]. rewrite S. ring.
Qed.

(** X2.  Boxes that do not intersect (touching edges included) get an
    overlap area of 0 and 0 for all three percentages. *)
Theorem disjoint_boxes_zero_metrics (a b : Box) (H : intersects a b = false) :
  exists m : Metrics,
    calculate_overlap_percentage a b = Ok m /\ zero_metrics m.
Proof.
  exists (metrics a b). split; [apply calculate_overlap_percentage_ok|].
  destruct (metrics_via_area a b) as (Eo & Ea & Eb & Et).
  pose proof (disjoint_area_zero a b H) as Z.
  unfold zero_metrics. rewrite Eo, Ea, Eb, Et.
  split; [now rewrite Z|]. repeat split; now apply pct_zero_overlap.
Qed.

(** Two boxes sharing only the edge x = 10. *)
Lemma disjoint_boxes_zero_metrics_witness :
  intersects (0, 0, 10, 10) (10, 0, 10, 10) = false
  /\ exists m : Metrics,
       calculate_overlap_percentage (0, 0, 10, 10) (10, 0, 10, 10) = Ok m
       /\ zero_metrics m.
Proof.
  split; [reflexivity|].
  apply (disjoint_boxes_zero_metrics (0, 0, 10, 10) (10, 0, 10, 10)).
  reflexivity.
Defined.

(** X3.  For boxes of positive width and height, [intersects] holds
    exactly when the intersection rectangle computed by the metrics has a
    positive area. *)
Theorem intersects_iff_positive_area (a b : Box)
    (Ha : valid_box a) (Hb : valid_box b) :
  intersects a b = true <-> 0 < intersection_area a b.
Proof.
  split; [now apply intersects_positive_area | apply positive_area_intersects].
Qed.

Lemma intersects_iff_positive_area_witness :
  (valid_box (0, 0, 10, 10) /\ valid_box (5, 5, 10, 10))
  /\ (intersects (0, 0, 10, 10) (5, 5, 10, 10) = true
      <-> 0 < intersection_area (0, 0, 10, 10) (5, 5, 10, 10)).
Proof.
  assert (Ha : valid_box (0, 0, 10, 10)) by (split; reflexivity).
  assert (Hb : valid_box (5, 5, 10, 10)) by (split; reflexivity).
  split; [split; assumption|].
  exact (intersects_iff_positive_area (0, 0, 10, 10) (5, 5, 10, 10) Ha Hb).
Defined.

(** X4.  For boxes without negative sides every returned percentage lies
    between 0 and 100. *)
Theorem overlap_percentages_in_range (a b : Box)
    (Ha : nonneg_box a) (Hb : nonneg_box b) :
  exists m : Metrics,
    calculate_overlap_percentage a b = Ok m
    /\ is_percentage (percentage_of_a m)
    /\ is_percentage (percentage_of_b m)
    /\ is_percentage (percentage_of_total m).
Proof.
  exists (metrics a b). split; [apply calculate_overlap_percentage_ok|].
  apply metrics_percentages; now apply nonneg_box_area.
Qed.

Lemma overlap_percentages_in_range_witness :
  (nonneg_box (0, 0, 10, 10) /\ nonneg_box (5, 5, 0, 3))
  /\ exists m : Metrics,
       calculate_overlap_percentage (0, 0, 10, 10) (5, 5, 0, 3) = Ok m
       /\ is_percentage (percentage_of_a m)
       /\ is_percentage (percentage_of_b m)
       /\ is_percentage (percentage_of_total m).
Proof.
  assert (Ha : nonneg_box (0, 0, 10, 10)) by (split; discriminate).
  assert (Hb : nonneg_box (5, 5, 0, 3)) by (split; discriminate).
  split; [split; assumption|].
  exact (overlap_percentages_in_range (0, 0, 10, 10) (5, 5, 0, 3) Ha Hb).
Defined.

(* ================================================================== *)
(** ** Overlap finder: counts, provenance and highlights *)

Lemma pairs_inv {A : Type} (l : list A) (x y : A) :
  In (x, y) (pairs l) ->
  exists i j, (i < j)%nat /\ nth_error l i = Some x /\ nth_error l j = Some y.
Proof.
  induction l as [|z rest IH]; cbn [pairs]; [intros []|].
  intros H. apply in_app_or in H. destruct H as [H | H].
  - apply in_map_iff in H. destruct H as (y' & E & Hy). injection E as -> ->.
    apply In_nth_error in Hy. destruct Hy as (j & Hj).
    exists 0%nat, (S j). split; [lia|]. split; [reflexivity | exact Hj].
  - destruct (IH H) as (i & j & Hij & Hi & Hj).
    exists (S i), (S j). split; [lia|]. split; assumption.
Qed.

Lemma pairs_members {A : Type} (l : list A) (p : A * A) :
  In p (pairs l) -> In (fst p) l /\ In (snd p) l.
Proof.
  destruct p as [x y]. intros H. apply pairs_inv in H.
  destruct H as (i & j & _ & Hi & Hj).
  split; eapply nth_error_In; eassumption.
Qed.

Lemma pairs_short {A : Type} (l : list A) :
  (List.length l <= 1)%nat -> pairs l = [].
Proof.
  destruct l as [|x [|y rest]]; cbn; intros H; [reflexivity | reflexivity | lia].
Qed.

Lemma kept_dropped_touches (thr : Q) (ps : list (PageGlyph.t * PageGlyph.t)) :
  (count_of (records_of thr 0 ps) + dropped_of thr ps)%Z
  = Z.of_nat (List.length (filter touches ps)).
Proof.
  unfold count_of, records_of, dropped_of. rewrite length_map.
  induction ps as [|p rest IH]; cbn [filter]; [reflexivity|].
  unfold is_kept, is_dropped in *.
  destruct (touches p); cbn [andb]; [|exact IH].
  destruct (Qltb thr (union_pct p)); cbn [negb List.length]; lia.
Qed.

Lemma records_of_count (thr : Q) (page_num : Z)
    (ps : list (PageGlyph.t * PageGlyph.t)) :
  count_of (records_of thr page_num ps) = count_of (records_of thr 0 ps).
Proof. unfold count_of, records_of. now rewrite !length_map. Qed.

Lemma all_kept_dropped_touches (thr : Q) (items : Dict (list PageGlyph.t)) :
  (count_of (all_records thr items) + all_dropped thr items)%Z
  = Z.of_nat (List.length (filter touches (all_pairs items))).
Proof.
  unfold all_records, all_pairs.
  induction items as [|item rest IH]; cbn [flat_map all_dropped fold_right];
    [reflexivity|].
  rewrite filter_app, length_app, Nat2Z.inj_add.
  rewrite <- (kept_dropped_touches thr (pairs (snd item))).
  rewrite <- (records_of_count thr (fst item)).
  unfold count_of in *. rewrite length_app, Nat2Z.inj_add.
  unfold all_dropped in IH. lia.
Qed.

Lemma all_records_app (thr : Q) (m1 m2 : Dict (list PageGlyph.t)) :
  all_records thr (m1 ++ m2) = all_records thr m1 ++ all_records thr m2.
Proof. unfold all_records. apply flat_map_app. Qed.

Lemma all_dropped_app (thr : Q) (m1 m2 : Dict (list PageGlyph.t)) :
  all_dropped thr (m1 ++ m2) = (all_dropped thr m1 + all_dropped thr m2)%Z.
Proof.
  unfold all_dropped. induction m1 as [|item rest IH]; cbn; [reflexivity|].
  rewrite IH. lia.
Qed.

Lemma filter_none {A : Type} (f : A -> bool) (l : list A) :
  (forall x, In x l -> f x = false) -> filter f l = [].
Proof.
  induction l as [|x rest IH]; cbn; intros H; [reflexivity|].
  rewrite (H x (or_introl eq_refl)). apply IH. intros y Hy. apply H. now right.
Qed.

Lemma no_records_highlights (thr : Q) (items : Dict (list PageGlyph.t))
    (h : Dict (list Box)) :
  (forall item, In item items ->
     records_of thr (fst item) (pairs (snd item)) = []) ->
  fold_left (put_highlights thr) items h = h.
Proof.
  revert h. induction items as [|item rest IH]; intros h Hr; cbn [fold_left];
    [reflexivity|].
  rewrite IH by (intros it Hit; apply Hr; now right).
  unfold put_highlights, page_highlights.
  now rewrite (Hr item (or_introl eq_refl)).
Qed.

Lemma no_records_all (thr : Q) (items : Dict (list PageGlyph.t)) :
  (forall item, In item items ->
     records_of thr (fst item) (pairs (snd item)) = []) ->
  all_records thr items = [].
Proof.
  unfold all_records. induction items as [|item rest IH]; cbn; intros Hr;
    [reflexivity|].
  rewrite (Hr item (or_introl eq_refl)). cbn. apply IH.
  intros it Hit. apply Hr. now right.
Qed.

(** When no scanned pair passes the test, nothing is kept and every
    intersecting pair is counted as filtered. *)
Lemma find_nothing_kept (thr : Q) (items : Dict (list PageGlyph.t)) :
  (forall item p, In item items -> In p (pairs (snd item)) ->
     is_kept thr p = false) ->
  find_overlaps_by_page items thr
  = Ok ([], [], 0%Z, Z.of_nat (List.length (filter touches (all_pairs items)))).
Proof.
  intros H.
  assert (Hr : forall item, In item items ->
                 records_of thr (fst item) (pairs (snd item)) = []).
  { intros item Hin. unfold records_of.
    rewrite filter_none; [reflexivity|]. intros p Hp. now apply (H item). }
  rewrite find_overlaps_by_page_ok.
  pose proof (all_kept_dropped_touches thr items) as E.
  rewrite (no_records_all thr items Hr) in *.
  rewrite (no_records_highlights thr items [] Hr).
  cbn in E. rewrite E. reflexivity.
Qed.

(** X5.  At a threshold of 100 or more nothing is kept, provided no glyph
    has a negative width or height: the overlap list and the highlights map
    are empty and every intersecting pair is counted as filtered out. *)
Theorem threshold_100_keeps_nothing (glyphs_by_page : Dict (list PageGlyph.t))
    (thr : Q) (Hm : nonneg_pages glyphs_by_page) (Ht : 100 <= thr) :
  find_overlaps_by_page glyphs_by_page thr
  = Ok ([], [], 0%Z,
        Z.of_nat (List.length (filter touches (all_pairs glyphs_by_page)))).
Proof.
  apply find_nothing_kept. intros item p Hitem Hp.
  unfold nonneg_pages in Hm. rewrite Forall_forall in Hm.
  pose proof (Hm item Hitem) as Hg. rewrite Forall_forall in Hg.
  apply pairs_members in Hp. destruct Hp as (H1 & H2).
  destruct (metrics_percentages (box_of (fst p)) (box_of (snd p)))
    as (_ & _ & _ & Hu).
  - apply nonneg_box_area. exact (Hg _ H1).
  - apply nonneg_box_area. exact (Hg _ H2).
  - unfold is_kept. apply andb_false_iff. right.
    apply Qltb_false. unfold union_pct. lra.
Qed.

Lemma threshold_100_keeps_nothing_witness :
  (nonneg_pages [(1%Z, [glyph_A; glyph_A])] /\ 100 <= 100)
  /\ find_overlaps_by_page [(1%Z, [glyph_A; glyph_A])] 100
     = Ok ([], [], 0%Z, 1%Z).
Proof.
  assert (Hm : nonneg_pages [(1%Z, [glyph_A; glyph_A])]).
  { repeat constructor; discriminate. }
  split; [split; [exact Hm | discriminate]|].
  exact (threshold_100_keeps_nothing [(1%Z, [glyph_A; glyph_A])] 100 Hm
           ltac:(discriminate)).
Defined.

(** X6.  Whatever the threshold, the kept count plus the filtered count
    is the number of scanned pairs whose boxes intersect. *)
Theorem kept_plus_filtered (glyphs_by_page : Dict (list PageGlyph.t)) (thr : Q) :
  exists o h n f,
    find_overlaps_by_page glyphs_by_page thr = Ok (o, h, n, f)
    /\ (n + f)%Z
       = Z.of_nat (List.length (filter touches (all_pairs glyphs_by_page))).
Proof.
  rewrite find_overlaps_by_page_ok. do 4 eexists. split; [reflexivity|].
  apply all_kept_dropped_touches.
Qed.

(** X7.  Every returned record comes from two different positions
    [i < j] of one page: it carries that page number, the boxes and characters
    of the two glyphs, their boxes intersect, and its percentage of union is
    the one the metrics return for its two boxes and exceeds the
    threshold. *)
Theorem kept_records_sound (glyphs_by_page : Dict (list PageGlyph.t)) (thr : Q) :
  exists o h n f,
    find_overlaps_by_page glyphs_by_page thr = Ok (o, h, n, f)
    /\ Forall
         (fun r =>
            exists (glyphs : list PageGlyph.t) (i j : nat) (gi gj : PageGlyph.t)
                   (m : Metrics),
              In (Overlap.page r, glyphs) glyphs_by_page
              /\ (i < j)%nat
              /\ nth_error glyphs i = Some gi
              /\ nth_error glyphs j = Some gj
              /\ Overlap.a r = box_of gi /\ Overlap.b r = box_of gj
              /\ Overlap.char_a r = PageGlyph.char gi
              /\ Overlap.char_b r = PageGlyph.char gj
              /\ intersects (Overlap.a r) (Overlap.b r) = true
              /\ calculate_overlap_percentage (Overlap.a r) (Overlap.b r) = Ok m
              /\ Overlap.percentage_of_union r = percentage_of_total m
              /\ thr < Overlap.percentage_of_union r)
         o.
Proof.
  rewrite find_overlaps_by_page_ok. do 4 eexists. split; [reflexivity|].
  apply Forall_forall. intros r Hr. apply in_all_records in Hr.
  destruct Hr as (page_num & glyphs & [gi gj] & Hin & Hp & Hk & ->).
  apply pairs_inv in Hp. destruct Hp as (i & j & Hij & Hi & Hj).
  apply is_kept_iff in Hk. destruct Hk as (Hx & Hu).
  exists glyphs, i, j, gi, gj, (metrics (box_of gi) (box_of gj)).
  unfold record_of.
  cbn [Overlap.page Overlap.a Overlap.b Overlap.char_a Overlap.char_b
       Overlap.percentage_of_union fst snd].
  do 8 (split; [first [assumption | reflexivity]|]).
  split; [exact Hx|].
  split; [apply calculate_overlap_percentage_ok|].
  split; [reflexivity | exact Hu].
Qed.

(** X8.  Pages holding at most one glyph produce nothing: no record, no
    highlight, and both counters stay 0.  In particular the empty map
    does. *)
Theorem single_glyph_pages_give_nothing
    (glyphs_by_page : Dict (list PageGlyph.t)) (thr : Q)
    (Hm : Forall (fun item => (List.length (snd item) <= 1)%nat) glyphs_by_page) :
  find_overlaps_by_page glyphs_by_page thr = Ok ([], [], 0%Z, 0%Z).
Proof.
  rewrite Forall_forall in Hm.
  assert (Hp : all_pairs glyphs_by_page = []).
  { unfold all_pairs. induction glyphs_by_page as [|item rest IH]; cbn;
      [reflexivity|].
    rewrite pairs_short by (apply Hm; now left). cbn.
    apply IH. intros it Hit. apply Hm. now right. }
  rewrite find_nothing_kept.
  - now rewrite Hp.
  - intros item p Hitem Hin. rewrite pairs_short in Hin by now apply Hm.
    destruct Hin.
Qed.

Lemma single_glyph_pages_give_nothing_witness :
  Forall (fun item => (List.length (snd item) <= 1)%nat)
    [(1%Z, [glyph_A]); (2%Z, [glyph_B])]
  /\ find_overlaps_by_page [(1%Z, [glyph_A]); (2%Z, [glyph_B])] 0
     = Ok ([], [], 0%Z, 0%Z).
Proof.
  assert (Hm : Forall (fun item => (List.length (snd item) <= 1)%nat)
                 [(1%Z, [glyph_A]); (2%Z, [glyph_B])])
    by (repeat constructor).
  split; [exact Hm|].
  exact (single_glyph_pages_give_nothing _ 0 Hm).
Defined.

Lemma set_add_InA (x b : Box) (s : list Box) :
  InA box_eq x (set_add b s) <-> box_eq x b \/ InA box_eq x s.
Proof.
  unfold set_add. destruct (existsb (box_eqb b) s) eqn:E.
  - apply existsb_box_InA in E. split; [now right|].
    intros [H | H]; [|exact H].
    eapply InA_eqA; [apply box_eq_equiv | symmetry; exact H | exact E].
  - rewrite InA_app_iff. split.
    + intros [H | H]; [now right | left].
      inversion H as [? ? Hx | ? ? Hn]; subst; [exact Hx | inversion Hn].
    + intros [H | H]; [right; now constructor | now left].
Qed.

Lemma add_rects_InA (x : Box) (rs : list Overlap.t) (acc : list Box) :
  InA box_eq x (fold_left add_rects rs acc) <->
  InA box_eq x acc \/ exists r, In r rs /\ box_of_record x r.
Proof.
  revert acc. induction rs as [|r rest IH]; intros acc; cbn [fold_left].
  - split; [now left | intros [H | (r & [] & _)]; exact H].
  - rewrite IH. unfold add_rects. rewrite !set_add_InA. unfold box_of_record.
    split.
    + intros [[H | [H | H]] | (r' & Hr' & H)].
      * right. exists r. split; [now left | now right].
      * right. exists r. split; [now left | now left].
      * now left.
      * right. exists r'. split; [now right | exact H].
    + intros [H | (r' & [<- | Hr'] & [H | H])].
      * left. right. now right.
      * left. right. now left.
      * left. now left.
      * right. exists r'. split; [assumption | now left].
      * right. exists r'. split; [assumption | now right].
Qed.

Lemma nodup_keys_unique {V : Type} (d : Dict V) (k : Z) (v v' : V) :
  NoDup (dict_keys d) -> In (k, v) d -> In (k, v') d -> v = v'.
Proof.
  unfold dict_keys. induction d as [|[k0 v0] rest IH]; cbn; intros Hnd H H';
    [contradiction|].
  inversion Hnd as [|? ? Hnin Hnd']; subst.
  destruct H as [H | H], H' as [H' | H'].
  - congruence.
  - injection H as -> ->. exfalso. apply Hnin.
    change k with (fst (k, v')). now apply in_map.
  - injection H' as -> ->. exfalso. apply Hnin.
    change k with (fst (k, v)). now apply in_map.
  - now apply IH.
Qed.

Lemma put_highlights_other (thr : Q) (h : Dict (list Box))
    (item : Z * list PageGlyph.t) (p : Z) :
  p <> fst item -> dict_get p (put_highlights thr h item) = dict_get p h.
Proof.
  intros Hne. unfold put_highlights.
  destruct (page_highlights thr (fst item) (snd item)); [reflexivity|].
  rewrite dict_get_set. apply Z.eqb_neq in Hne. now rewrite Hne.
Qed.

Lemma highlights_get_absent (thr : Q) (items : Dict (list PageGlyph.t))
    (h : Dict (list Box)) (p : Z) :
  ~ In p (dict_keys items) ->
  dict_get p (fold_left (put_highlights thr) items h) = dict_get p h.
Proof.
  revert h. induction items as [|item rest IH]; intros h Hn; cbn [fold_left];
    [reflexivity|].
  cbn in Hn. rewrite IH by tauto. apply put_highlights_other. intros ->. tauto.
Qed.

Lemma highlights_get_present (thr : Q) (items : Dict (list PageGlyph.t))
    (h : Dict (list Box)) (p : Z) (glyphs : list PageGlyph.t) :
  NoDup (dict_keys items) -> In (p, glyphs) items ->
  dict_get p (fold_left (put_highlights thr) items h)
  = match page_highlights thr p glyphs with
    | [] => dict_get p h
    | _ :: _ => Some (page_highlights thr p glyphs)
    end.
Proof.
  revert h. induction items as [|item rest IH]; intros h Hnd Hin;
    [destruct Hin|].
  cbn [fold_left]. cbn in Hnd. inversion Hnd as [|? ? Hnin Hnd']; subst.
  destruct Hin as [-> | Hin].
  - cbn [fst] in Hnin. rewrite highlights_get_absent by exact Hnin.
    unfold put_highlights. cbn [fst snd].
    destruct (page_highlights thr p glyphs) eqn:E; [reflexivity|].
    rewrite dict_get_set, Z.eqb_refl. reflexivity.
  - rewrite (IH _ Hnd' Hin).
    assert (Hne : p <> fst item).
    { intros ->. apply Hnin. change (fst item) with (fst (fst item, glyphs)).
      now apply in_map. }
    now rewrite put_highlights_other.
Qed.

(** X9.  When the page numbers of the input map are distinct, the
    highlights of a page, read as [highlights_by_page.get(p, [])], hold
    exactly the boxes of the records kept on that page. *)
Theorem highlights_are_record_boxes (glyphs_by_page : Dict (list PageGlyph.t))
    (thr : Q) (p : Z) (box : Box) (Hnd : NoDup (dict_keys glyphs_by_page)) :
  exists o h n f,
    find_overlaps_by_page glyphs_by_page thr = Ok (o, h, n, f)
    /\ (InA box_eq box (dict_get_list p h) <->
        exists r, In r o /\ Overlap.page r = p /\ box_of_record box r).
Proof.
  rewrite find_overlaps_by_page_ok. do 4 eexists. split; [reflexivity|].
  unfold dict_get_list.
  destruct (in_dec Z.eq_dec p (dict_keys glyphs_by_page)) as [Hin | Hn].
  - unfold dict_keys in Hin. apply in_map_iff in Hin.
    destruct Hin as ([p' glyphs] & Hp & Hin). cbn in Hp. subst p'.
    rewrite (highlights_get_present thr _ [] p glyphs Hnd Hin). cbn [dict_get].
    assert (Hl : InA box_eq box
                   match match page_highlights thr p glyphs with
                         | [] => None
                         | _ :: _ => Some (page_highlights thr p glyphs)
                         end with
                   | Some l => l
                   | None => []
                   end
                 <-> InA box_eq box (page_highlights thr p glyphs)).
    { destruct (page_highlights thr p glyphs); reflexivity. }
    rewrite Hl. clear Hl. unfold page_highlights. rewrite add_rects_InA.
    split.
    + intros [H | (r & Hr & Hb)]; [inversion H|].
      exists r. split; [|split; [now apply records_of_page in Hr | exact Hb]].
      unfold all_records. apply in_flat_map. exists (p, glyphs). auto.
    + intros (r & Hr & Hp & Hb). right. exists r. split; [|exact Hb].
      unfold all_records in Hr. apply in_flat_map in Hr.
      destruct Hr as ([q gl] & Hq & Hr). cbn [fst snd] in Hr.
      pose proof (records_of_page _ _ _ _ Hr) as Eq. rewrite Hp in Eq. subst q.
      now rewrite (nodup_keys_unique _ _ _ _ Hnd Hin Hq).
  - rewrite (highlights_get_absent thr _ [] p Hn). cbn [dict_get].
    split; [intros H; inversion H|].
    intros (r & Hr & Hp & _). exfalso. apply Hn.
    apply in_all_records in Hr.
    destruct Hr as (page_num & glyphs & pr & Hin & _ & _ & ->).
    cbn in Hp. subst page_num. unfold dict_keys.
    change p with (fst (p, glyphs)). now apply in_map.
Qed.

Lemma highlights_are_record_boxes_witness :
  NoDup (dict_keys sample_page)
  /\ exists o h n f,
       find_overlaps_by_page sample_page 0 = Ok (o, h, n, f)
       /\ (InA box_eq (5, 5, 10, 10) (dict_get_list 1 h) <->
           exists r, In r o /\ Overlap.page r = 1%Z
                     /\ box_of_record (5, 5, 10, 10) r).
Proof.
  assert (Hnd : NoDup (dict_keys sample_page)).
  { constructor; [intros [] | constructor]. }
  split; [exact Hnd|].
  exact (highlights_are_record_boxes sample_page 0 1 (5, 5, 10, 10) Hnd).
Defined.

(** X10.  Pages are scanned independently: on a map made of two parts the
    finder returns the records of the first part followed by those of the
    second, and both counters are the sums of the parts' counters. *)
Theorem finder_pages_independent (m1 m2 : Dict (list PageGlyph.t)) (thr : Q) :
  exists o1 h1 n1 f1 o2 h2 n2 f2 h,
    find_overlaps_by_page m1 thr = Ok (o1, h1, n1, f1)
    /\ find_overlaps_by_page m2 thr = Ok (o2, h2, n2, f2)
    /\ find_overlaps_by_page (m1 ++ m2) thr
       = Ok (o1 ++ o2, h, (n1 + n2)%Z, (f1 + f2)%Z).
Proof.
  rewrite !find_overlaps_by_page_ok. do 9 eexists.
  split; [reflexivity|]. split; [reflexivity|].
  rewrite all_records_app, all_dropped_app. unfold count_of.
  now rewrite length_app, Nat2Z.inj_add.
Qed.

(* ================================================================== *)
(** ** Whitespace trimmer: the character table *)

(** The table is symmetric and every entry lies between 5 % and 25 % of
    the scale. *)
Lemma char_trim_percents_shape (str_isdigit str_isalpha : str -> bool)
    (ch : str) (scale : Q) :
  0 <= scale ->
  exists lr tb : Q,
    _get_char_trim_percents str_isdigit str_isalpha ch scale
    = Percents.mk (Some lr) (Some lr) (Some tb) (Some tb)
    /\ 0.05 * scale <= lr /\ lr <= 0.25 * scale
    /\ 0.05 * scale <= tb /\ tb <= 0.25 * scale.
Proof.
  intros Hs. unfold _get_char_trim_percents.
  repeat match goal with
         | |- context [if ?c then _ else _] => destruct c
         end;
    do 2 eexists; (split; [reflexivity|]); repeat split; lra.
Qed.

(** X11.  For a scale that is not negative, the trim table of any
    character has equal left and right fractions and equal top and bottom
    fractions, each between 5 % and 25 % of the scale; below a scale of 4
    they are fractions in [0,1). *)
Theorem char_trim_percents_range (str_isdigit str_isalpha : str -> bool)
    (ch : str) (scale : Q) (Hs : 0 <= scale) :
  let p := _get_char_trim_percents str_isdigit str_isalpha ch scale in
  Percents.left p = Percents.right p
  /\ Percents.top p = Percents.bottom p
  /\ 0.05 * scale <= Percents.get (Percents.left p)
  /\ Percents.get (Percents.left p) <= 0.25 * scale
  /\ 0.05 * scale <= Percents.get (Percents.top p)
  /\ Percents.get (Percents.top p) <= 0.25 * scale
  /\ (scale < 4 -> fractions p).
Proof.
  cbv zeta.
  destruct (char_trim_percents_shape str_isdigit str_isalpha ch scale Hs)
    as (lr & tb & -> & L1 & L2 & T1 & T2).
  cbn. repeat (split; [first [reflexivity | assumption]|]).
  intros H4. unfold fractions, fraction. cbn. repeat split; lra.
Qed.

Lemma char_trim_percents_range_witness :
  (0 <= 1 /\ 1 < 4)
  /\ fractions (_get_char_trim_percents (fun _ => false) (fun _ => true)
                  (py_str "i") 1).
Proof.
  split; [split; [discriminate | reflexivity]|].
  destruct (char_trim_percents_range (fun _ => false) (fun _ => true)
              (py_str "i") 1 ltac:(discriminate)) as (_ & _ & _ & _ & _ & _ & H).
  apply H. reflexivity.
Defined.

Lemma Qhalf (q : Q) : q / 2 == (1 # 2) * q.
Proof. field. Qed.

(** X12.  With a scale between 0 and 1, trimming a box whose sides are at
    least 0.2 by the table of any character never reaches the 0.1 floor:
    the trimmed box lies inside the original, keeps at least half of each
    side, and keeps the centre of the original. *)
Theorem char_trim_keeps_centre (str_isdigit str_isalpha : str -> bool)
    (ch : str) (scale x y w h : Q)
    (Hs0 : 0 <= scale) (Hs1 : scale <= 1) (Hw : 0.2 <= w) (Hh : 0.2 <= h) :
  exists x' y' w' h' : Q,
    _apply_trim (x, y, w, h)
      (_get_char_trim_percents str_isdigit str_isalpha ch scale)
    = (x', y', w', h')
    /\ x <= x' /\ y <= y'
    /\ x' + w' <= x + w /\ y' + h' <= y + h
    /\ w / 2 <= w' /\ h / 2 <= h'
    /\ x' + w' / 2 == x + w / 2
    /\ y' + h' / 2 == y + h / 2.
Proof.
  destruct (char_trim_percents_shape str_isdigit str_isalpha ch scale Hs0)
    as (lr & tb & -> & L1 & L2 & T1 & T2).
  unfold _apply_trim. cbn [Percents.left Percents.right Percents.top
                           Percents.bottom Percents.get].
  assert (Ew : Qleb w 0 = false) by (apply Qleb_false; lra).
  assert (Eh : Qleb h 0 = false) by (apply Qleb_false; lra).
  rewrite Ew, Eh. cbn [orb].
  assert (A1 : 0 <= w * lr) by (apply Qmult_le_0_compat; lra).
  assert (A2 : w * lr <= w * (1 # 4)) by (apply Qmult_le_l; lra).
  assert (B1 : 0 <= h * tb) by (apply Qmult_le_0_compat; lra).
  assert (B2 : h * tb <= h * (1 # 4)) by (apply Qmult_le_l; lra).
  do 4 eexists. split; [reflexivity|].
  destruct (py_max_cases 0.1 (w - w * lr - w * lr)) as [(Lw & ->) | (Lw & ->)];
    destruct (py_max_cases 0.1 (h - h * tb - h * tb)) as [(Lh & ->) | (Lh & ->)];
    repeat split; rewrite ?Qhalf; lra.
Qed.

Lemma char_trim_keeps_centre_witness :
  (0 <= 1 /\ 1 <= 1 /\ 0.2 <= 10 /\ 0.2 <= 12)
  /\ exists x' y' w' h' : Q,
       _apply_trim (3, 4, 10, 12)
         (_get_char_trim_percents (fun _ => false) (fun _ => true) (py_str "i") 1)
       = (x', y', w', h')
       /\ x' + w' <= 3 + 10 /\ y' + h' <= 4 + 12.
Proof.
  split; [repeat split; discriminate|].
  destruct (char_trim_keeps_centre (fun _ => false) (fun _ => true) (py_str "i")
              1 3 4 10 12 ltac:(discriminate) ltac:(discriminate)
              ltac:(discriminate) ltac:(discriminate))
    as (x' & y' & w' & h' & E & _ & _ & Hx & Hy & _).
  exists x', y', w', h'. split; [exact E | split; assumption].
Defined.

(* ================================================================== *)
(** ** Page grouper: what is stored where *)

Lemma dsa_get_list {V : Type} (k k' : Z) (x : V) (d : Dict (list V)) :
  dict_get_list k (dict_setdefault_append k' x d)
  = if Z.eqb k k' then dict_get_list k d ++ [x] else dict_get_list k d.
Proof.
  unfold dict_get_list. induction d as [|[k0 l] rest IH]; cbn.
  - now destruct (Z.eqb k k').
  - destruct (Z.eqb k' k0) eqn:E0; cbn.
    + apply Z.eqb_eq in E0. subst k0. now destruct (Z.eqb k k').
    + destruct (Z.eqb k k0) eqn:E1; [|exact IH].
      apply Z.eqb_eq in E1. subst k0.
      rewrite (proj2 (Z.eqb_neq k k')); [reflexivity|].
      apply Z.eqb_neq in E0. congruence.
Qed.

Lemma dsa_keys {V : Type} (k k' : Z) (x : V) (d : Dict (list V)) :
  In k (dict_keys (dict_setdefault_append k' x d)) <->
  k = k' \/ In k (dict_keys d).
Proof.
  induction d as [|[k0 l] rest IH]; cbn.
  - intuition.
  - destruct (Z.eqb k' k0) eqn:E; cbn.
    + apply Z.eqb_eq in E. subst k0. intuition.
    + rewrite IH. intuition.
Qed.

Lemma dsa_nodup {V : Type} (k' : Z) (x : V) (d : Dict (list V)) :
  NoDup (dict_keys d) -> NoDup (dict_keys (dict_setdefault_append k' x d)).
Proof.
  induction d as [|[k0 l] rest IH]; cbn; intros H.
  - constructor; [intros [] | constructor].
  - inversion H as [|? ? Hnin Hnd]; subst.
    destruct (Z.eqb k' k0) eqn:E; cbn.
    + now constructor.
    + constructor; [|now apply IH].
      fold (dict_keys (dict_setdefault_append k' x rest)). rewrite dsa_keys.
      intros [-> | Hin]; [|contradiction].
      rewrite Z.eqb_refl in E. discriminate.
Qed.

Lemma dsa_size {V : Type} (k' : Z) (x : V) (d : Dict (list V)) :
  dict_size (dict_setdefault_append k' x d) = (dict_size d + 1)%Z.
Proof.
  unfold dict_size. induction d as [|[k0 l] rest IH]; cbn [dict_setdefault_append].
  - reflexivity.
  - destruct (Z.eqb k' k0); cbn [fold_right snd] in *.
    + rewrite length_app. cbn [List.length]. lia.
    + rewrite IH. lia.
Qed.

Section GroupingFacts.

Variable str_upper : str -> str.
Variable str_isdigit : str -> bool.
Variable str_isalpha : str -> bool.
Variable filter_watermarks enable_char_trim : bool.
Variable trim_scale : Q.

Local Abbreviation keep := (retained str_upper filter_watermarks).
Local Abbreviation conv :=
  (glyph_dict_of str_isdigit str_isalpha enable_char_trim trim_scale).
Local Abbreviation one :=
  (grouped str_upper str_isdigit str_isalpha filter_watermarks
     enable_char_trim trim_scale).

Lemma group_step_grouped (g : Glyph.t) (st : Group.t) :
  has_page g ->
  group_step str_upper str_isdigit str_isalpha filter_watermarks
    enable_char_trim trim_scale g st
  = Ok (one st g).
Proof.
  unfold has_page, group_step, grouped, retained, glyph_dict_of, stored_bbox.
  destruct (Glyph.page g) as [pg|]; [intros _ | congruence].
  destruct (filter_watermarks && is_watermark str_upper g _); cbn [negb];
    [reflexivity|].
  destruct enable_char_trim.
  - now destruct (_apply_trim _ _) as [[[bx by_] bw] bh].
  - now destruct (Glyph.bbox g) as [[[bx by_] bw] bh].
Qed.

Lemma group_loop_grouped (glyphs_list : list Glyph.t) (st : Group.t) :
  Forall has_page glyphs_list ->
  group_loop str_upper str_isdigit str_isalpha filter_watermarks
    enable_char_trim trim_scale glyphs_list st
  = Ok (fold_left one glyphs_list st).
Proof.
  revert st. induction glyphs_list as [|g rest IH]; intros st H;
    cbn [group_loop fold_left]; [reflexivity|].
  inversion H as [|? ? Hg Hrest]; subst.
  rewrite group_step_grouped by exact Hg. cbn [bind]. now apply IH.
Qed.

Lemma on_page_has (p : Z) (g : Glyph.t) :
  has_page g ->
  on_page p g = Z.eqb p (match Glyph.page g with Some q => q | None => 0%Z end).
Proof.
  unfold has_page, on_page. destruct (Glyph.page g); [reflexivity | congruence].
Qed.

Lemma grouped_get_list (p : Z) (glyphs_list : list Glyph.t) (st : Group.t) :
  Forall has_page glyphs_list ->
  dict_get_list p (Group.by_page (fold_left one glyphs_list st))
  = dict_get_list p (Group.by_page st)
    ++ page_glyphs str_upper str_isdigit str_isalpha filter_watermarks
         enable_char_trim trim_scale p glyphs_list.
Proof.
  unfold page_glyphs.
  revert st. induction glyphs_list as [|g rest IH]; intros st H;
    cbn [fold_left filter map].
  - now rewrite app_nil_r.
  - inversion H as [|? ? Hg Hrest]; subst. rewrite (IH _ Hrest).
    unfold grouped. rewrite (on_page_has p g Hg).
    destruct (keep g); cbn [andb Group.by_page].
    + rewrite dsa_get_list.
      destruct (Z.eqb p _); cbn [map]; [now rewrite <- app_assoc | reflexivity].
    + reflexivity.
Qed.

Lemma grouped_keys (p : Z) (glyphs_list : list Glyph.t) (st : Group.t) :
  Forall has_page glyphs_list ->
  In p (dict_keys (Group.by_page (fold_left one glyphs_list st))) <->
  In p (dict_keys (Group.by_page st))
  \/ exists g, In g glyphs_list /\ keep g && on_page p g = true.
Proof.
  revert st. induction glyphs_list as [|g rest IH]; intros st H; cbn [fold_left].
  - split; [now left | intros [K | (g & [] & _)]; exact K].
  - inversion H as [|? ? Hg Hrest]; subst. rewrite (IH _ Hrest).
    unfold grouped. rewrite or_comm.
    destruct (keep g) eqn:Ek; cbn [Group.by_page].
    + rewrite dsa_keys. split.
      * intros [(g' & Hin & Hk) | [-> | K]].
        -- right. exists g'. split; [now right | exact Hk].
        -- right. exists g. split; [now left|].
           rewrite Ek, (on_page_has _ g Hg), Z.eqb_refl. reflexivity.
        -- now left.
      * intros [K | (g' & [<- | Hin] & Hk)].
        -- right. now right.
        -- right. left. rewrite Ek, (on_page_has p g Hg) in Hk.
           cbn in Hk. now apply Z.eqb_eq in Hk.
        -- left. eauto.
    + split.
      * intros [(g' & Hin & Hk) | K]; [right | now left].
        exists g'. split; [now right | exact Hk].
      * intros [K | (g' & [<- | Hin] & Hk)]; [now right | | left; eauto].
        rewrite Ek in Hk. discriminate.
Qed.

Lemma grouped_nodup (glyphs_list : list Glyph.t) (st : Group.t) :
  NoDup (dict_keys (Group.by_page st)) ->
  NoDup (dict_keys (Group.by_page (fold_left one glyphs_list st))).
Proof.
  revert st. induction glyphs_list as [|g rest IH]; intros st H; cbn [fold_left];
    [exact H|].
  apply IH. unfold grouped. destruct (keep g); cbn [Group.by_page];
    [now apply dsa_nodup | exact H].
Qed.

Lemma grouped_counters (glyphs_list : list Glyph.t) (st : Group.t) :
  Group.filtered_count (fold_left one glyphs_list st)
  = (Group.filtered_count st + count_if (fun g => negb (keep g)) glyphs_list)%Z
  /\ Group.trimmed_count (fold_left one glyphs_list st)
     = (Group.trimmed_count st
        + if enable_char_trim then count_if keep glyphs_list else 0)%Z
  /\ dict_size (Group.by_page (fold_left one glyphs_list st))
     = (dict_size (Group.by_page st) + count_if keep glyphs_list)%Z.
Proof.
  unfold count_if.
  revert st. induction glyphs_list as [|g rest IH]; intros st;
    cbn [fold_left filter].
  - cbn. destruct enable_char_trim; repeat split; lia.
  - destruct (IH (one st g)) as (E1 & E2 & E3). rewrite E1, E2, E3.
    unfold grouped. destruct (keep g); cbn [negb Group.filtered_count
      Group.trimmed_count Group.by_page List.length].
    + rewrite dsa_size. destruct enable_char_trim; repeat split; lia.
    + destruct enable_char_trim; repeat split; lia.
Qed.

Lemma page_glyphs_nonempty (p : Z) (glyphs_list : list Glyph.t) :
  page_glyphs str_upper str_isdigit str_isalpha filter_watermarks
    enable_char_trim trim_scale p glyphs_list <> []
  <-> exists g, In g glyphs_list /\ keep g && on_page p g = true.
Proof.
  unfold page_glyphs. split.
  - intros H.
    destruct (filter (fun g => keep g && on_page p g) glyphs_list) as [|g l] eqn:E;
      [now cbn in H|].
    exists g.
    assert (Hf : In g (filter (fun g => keep g && on_page p g) glyphs_list))
      by (rewrite E; now left).
    apply filter_In in Hf. exact Hf.
  - intros (g & Hin & Hk) E. apply map_eq_nil in E.
    assert (Hf : In g (filter (fun g => keep g && on_page p g) glyphs_list))
      by (apply filter_In; auto).
    rewrite E in Hf. destruct Hf.
Qed.

(** X13.  When every glyph has a page number the grouper returns a map
    with distinct page keys in which page [p] holds exactly the glyphs of
    page [p] that pass the watermark filter, converted (trimmed when
    trimming is on), in extraction order; a page is a key exactly when it
    holds at least one glyph. *)
Theorem group_glyphs_by_page_contents (glyphs_list : list Glyph.t) (p : Z)
    (Hp : Forall (fun g => Glyph.page g <> None) glyphs_list) :
  exists by_page : Dict (list PageGlyph.t),
    group_glyphs_by_page str_upper str_isdigit str_isalpha glyphs_list
      filter_watermarks enable_char_trim trim_scale
    = Ok by_page
    /\ NoDup (dict_keys by_page)
    /\ dict_get_list p by_page
       = page_glyphs str_upper str_isdigit str_isalpha filter_watermarks
           enable_char_trim trim_scale p glyphs_list
    /\ (In p (dict_keys by_page) <-> dict_get_list p by_page <> []).
Proof.
  unfold group_glyphs_by_page. rewrite group_loop_grouped by exact Hp.
  cbn [bind]. eexists. split; [reflexivity|].
  split; [apply grouped_nodup; constructor|].
  pose proof (grouped_get_list p glyphs_list (Group.mk [] 0 0) Hp) as E.
  cbn [Group.by_page] in E. unfold dict_get_list at 2 in E. cbn in E.
  split; [exact E|].
  rewrite E, page_glyphs_nonempty, (grouped_keys p glyphs_list _ Hp).
  cbn. tauto.
Qed.

(** X14.  When every glyph has a page number, the counters the grouper
    prints are the number of watermark glyphs skipped and the number of
    boxes trimmed; every glyph is either skipped or stored, so skipped plus
    stored is the length of the input, and with trimming on every stored
    glyph was trimmed. *)
Theorem group_counters (glyphs_list : list Glyph.t)
    (Hp : Forall (fun g => Glyph.page g <> None) glyphs_list) :
  exists st : Group.t,
    group_loop str_upper str_isdigit str_isalpha filter_watermarks
      enable_char_trim trim_scale glyphs_list (Group.mk [] 0 0)
    = Ok st
    /\ group_glyphs_by_page str_upper str_isdigit str_isalpha glyphs_list
         filter_watermarks enable_char_trim trim_scale
       = Ok (Group.by_page st)
    /\ Group.filtered_count st
       = count_if (fun g => filter_watermarks
                            && is_watermark str_upper g default_watermark_font_size)
           glyphs_list
    /\ (Group.filtered_count st + dict_size (Group.by_page st))%Z
       = Z.of_nat (List.length glyphs_list)
    /\ Group.trimmed_count st
       = (if enable_char_trim then dict_size (Group.by_page st) else 0%Z).
Proof.
  unfold group_glyphs_by_page. rewrite group_loop_grouped by exact Hp.
  cbn [bind]. eexists. split; [reflexivity|]. split; [reflexivity|].
  destruct (grouped_counters glyphs_list (Group.mk [] 0 0)) as (E1 & E2 & E3).
  cbn [Group.filtered_count Group.trimmed_count Group.by_page] in *.
  rewrite E1, E2, E3.
  assert (D0 : dict_size (@nil (Z * list PageGlyph.t)) = 0%Z) by reflexivity.
  rewrite D0.
  assert (Ef : count_if (fun g => negb (keep g)) glyphs_list
               = count_if (fun g => filter_watermarks
                            && is_watermark str_upper g default_watermark_font_size)
                   glyphs_list).
  { unfold count_if. f_equal. f_equal. apply filter_ext. intros g.
    unfold retained. apply negb_involutive. }
  assert (Et : (count_if (fun g => negb (keep g)) glyphs_list
                + count_if keep glyphs_list)%Z
               = Z.of_nat (List.length glyphs_list)).
  { unfold count_if. clear. induction glyphs_list as [|g rest IH];
      cbn [filter List.length]; [reflexivity|].
    destruct (keep g); cbn [negb List.length]; lia. }
  split; [lia|]. split; [lia|].
  destruct enable_char_trim; lia.
Qed.

End GroupingFacts.

Lemma group_glyphs_by_page_contents_witness :
  Forall (fun g => Glyph.page g <> None) [scenario_glyph; scenario_glyph]
  /\ exists by_page : Dict (list PageGlyph.t),
       group_glyphs_by_page (fun s => s) (fun _ => false) (fun _ => true)
         [scenario_glyph; scenario_glyph] true false 1
       = Ok by_page
       /\ dict_get_list 1 by_page = [glyph_A; glyph_A].
Proof.
  assert (Hp : Forall (fun g => Glyph.page g <> None)
                 [scenario_glyph; scenario_glyph])
    by (repeat constructor; discriminate).
  split; [exact Hp|].
  destruct (group_glyphs_by_page_contents (fun s => s) (fun _ => false)
              (fun _ => true) true false 1 _ 1%Z Hp) as (bp & E & _ & Hl & _).
  exists bp. split; [exact E|]. rewrite Hl. reflexivity.
Defined.

Lemma group_counters_witness :
  Forall (fun g => Glyph.page g <> None) [scenario_glyph; scenario_glyph]
  /\ exists st : Group.t,
       group_loop (fun s => s) (fun _ => false) (fun _ => true) true true 1
         [scenario_glyph; scenario_glyph] (Group.mk [] 0 0)
       = Ok st
       /\ Group.filtered_count st = 0%Z
       /\ Group.trimmed_count st = dict_size (Group.by_page st).
Proof.
  assert (Hp : Forall (fun g => Glyph.page g <> None)
                 [scenario_glyph; scenario_glyph])
    by (repeat constructor; discriminate).
  split; [exact Hp|].
  destruct (group_counters (fun s => s) (fun _ => false) (fun _ => true)
              true true 1 _ Hp) as (st & E & _ & Hf & _ & Ht).
  exists st. split; [exact E|]. split; [rewrite Hf; reflexivity | exact Ht].
Defined.

(* ================================================================== *)
(** ** Statistics engine: summary fields, ties and ranges *)

Lemma str_mem_In (ch : str) (l : list str) : str_mem ch l = true <-> In ch l.
Proof.
  unfold str_mem. rewrite existsb_exists. split.
  - intros (x & Hin & E). apply str_eqb_eq in E. now subst.
  - intros H. exists ch. split; [exact H | apply str_eqb_refl].
Qed.

Lemma counter_incr_keys_eq (k : str) (c : Counter) :
  counter_keys (counter_incr k c)
  = if str_mem k (counter_keys c) then counter_keys c else counter_keys c ++ [k].
Proof.
  unfold str_mem. induction c as [|[k' n] rest IH]; cbn; [reflexivity|].
  destruct (str_eqb k k') eqn:E; cbn; [reflexivity|].
  unfold counter_keys in IH. rewrite IH.
  now destruct (existsb (str_eqb k) (map fst rest)).
Qed.

Lemma filter_filter {A : Type} (f g : A -> bool) (l : list A) :
  filter f (filter g l) = filter (fun x => g x && f x) l.
Proof.
  induction l as [|x rest IH]; cbn; [reflexivity|].
  destruct (g x); cbn; [destruct (f x)|]; now rewrite IH.
Qed.

Lemma str_mem_app (ch : str) (l l' : list str) :
  str_mem ch (l ++ l') = str_mem ch l || str_mem ch l'.
Proof. unfold str_mem. apply existsb_app. Qed.

(** The keys of a tally are the keys it started with followed by the new
    characters in order of first appearance. *)
Lemma tally_keys_order (l : list str) (acc : Counter) :
  counter_keys (tally l acc)
  = counter_keys acc
    ++ filter (fun y => negb (str_mem y (counter_keys acc))) (first_seen l).
Proof.
  unfold tally. revert acc. induction l as [|x rest IH]; intros acc;
    cbn [fold_left first_seen filter].
  - now rewrite app_nil_r.
  - rewrite IH, counter_incr_keys_eq, filter_filter.
    destruct (str_mem x (counter_keys acc)) eqn:E; cbn [negb].
    + f_equal. apply filter_ext_in. intros y _.
      destruct (str_eqb y x) eqn:Eyx; cbn [negb andb]; [|reflexivity].
      apply str_eqb_eq in Eyx. subst y. now rewrite E.
    + rewrite <- app_assoc. cbn [app]. f_equal. f_equal.
      apply filter_ext. intros y. rewrite str_mem_app. cbn.
      rewrite orb_false_r, negb_orb.
      destruct (str_eqb y x); cbn; now rewrite ?andb_true_r, ?andb_false_r.
Qed.

Lemma count_chars_keys (ovs : list Overlap.t) :
  counter_keys (count_chars ovs) = first_seen (slots ovs).
Proof.
  rewrite count_chars_tally, tally_keys_order. cbn [counter_keys map app].
  apply forallb_filter_id. apply forallb_forall. reflexivity.
Qed.

(** The sort is stable: entries with a given count keep their order. *)
Lemma insert_desc_stable (n : Z) (e : str * Z) (l : Counter) :
  filter (fun e' => Z.eqb (snd e') n) (insert_desc e l)
  = filter (fun e' => Z.eqb (snd e') n) (e :: l).
Proof.
  induction l as [|e' rest IH]; cbn [insert_desc]; [reflexivity|].
  destruct (Z.leb (snd e') (snd e)) eqn:E; [reflexivity|].
  apply Z.leb_gt in E. cbn [filter] in *. rewrite IH.
  destruct (Z.eqb (snd e) n) eqn:E1; [|reflexivity].
  apply Z.eqb_eq in E1.
  destruct (Z.eqb (snd e') n) eqn:E2; [|reflexivity].
  apply Z.eqb_eq in E2. lia.
Qed.

Lemma most_common_stable (n : Z) (c : Counter) :
  filter (fun e => Z.eqb (snd e) n) (most_common c)
  = filter (fun e => Z.eqb (snd e) n) c.
Proof.
  induction c as [|e rest IH]; cbn [most_common]; [reflexivity|].
  rewrite insert_desc_stable. cbn [filter]. now rewrite IH.
Qed.

Lemma counter_filter_keys (f : Z -> bool) (c : Counter) :
  NoDup (counter_keys c) ->
  map fst (filter (fun e => f (snd e)) c)
  = filter (fun k => f (counter_get k c)) (counter_keys c).
Proof.
  induction c as [|[k n] rest IH]; cbn; intros H; [reflexivity|].
  inversion H as [|? ? Hnin Hnd]; subst.
  rewrite str_eqb_refl.
  assert (E : filter (fun k0 => f (if str_eqb k0 k then n else counter_get k0 rest))
                (map fst rest)
              = filter (fun k0 => f (counter_get k0 rest)) (map fst rest)).
  { apply filter_ext_in. intros k0 Hk0.
    destruct (str_eqb k0 k) eqn:E0; [|reflexivity].
    apply str_eqb_eq in E0. subst k0. contradiction. }
  rewrite E. unfold counter_keys in IH.
  destruct (f n); cbn; now rewrite IH.
Qed.

(** X15.  The summary fields: [total_unique_chars] is the number of table
    entries; [total_character_occurrences] is absent for an empty overlap
    list and otherwise twice the number of overlaps. *)
Theorem character_statistics_summary (ovs : list Overlap.t) :
  exists s : Statistics,
    calculate_character_statistics ovs = Ok s
    /\ total_unique_chars s = Z.of_nat (List.length (character_stats s))
    /\ total_character_occurrences s
       = match ovs with
         | [] => None
         | _ :: _ => Some (2 * Z.of_nat (List.length ovs))%Z
         end
    /\ (total_unique_chars s <= 2 * Z.of_nat (List.length ovs))%Z.
Proof.
  rewrite calculate_character_statistics_ok.
  assert (Hlen : (Z.of_nat (List.length (count_chars ovs))
                  <= 2 * Z.of_nat (List.length ovs))%Z).
  { pose proof (tally_nodup (slots ovs) [] (NoDup_nil _)) as Hnd.
    rewrite <- count_chars_tally in Hnd.
    assert (Hincl : incl (counter_keys (count_chars ovs)) (slots ovs)).
    { intros k Hk. rewrite count_chars_tally, tally_keys in Hk.
      destruct Hk as [[] | Hk]. exact Hk. }
    pose proof (NoDup_incl_length Hnd Hincl) as L.
    unfold counter_keys in L. rewrite length_map in L.
    rewrite <- slots_length. lia. }
  destruct (count_chars ovs) as [|e0 c0] eqn:Ec.
  - eexists. split; [reflexivity|].
    cbn [character_stats total_unique_chars total_character_occurrences].
    destruct ovs as [|o rest];
      [split; [reflexivity | split; [reflexivity | cbn [List.length]; lia]]|].
    exfalso. assert (Hk : In (Overlap.char_a o) (counter_keys (count_chars (o :: rest)))).
    { rewrite count_chars_tally, tally_keys. right. cbn. now left. }
    rewrite Ec in Hk. destruct Hk.
  - rewrite <- Ec in *. eexists. split; [reflexivity|].
    cbn [character_stats total_unique_chars total_character_occurrences].
    split.
    { rewrite length_map. f_equal. symmetry.
      apply Permutation_length, most_common_perm. }
    split; [|exact Hlen].
    destruct ovs as [|o rest]; [discriminate Ec | reflexivity].
Qed.

(** X16.  Ties are listed in order of first appearance: for every count
    [n], the characters of the table entries with that count, in table
    order, are the characters occurring [n] times in the slots, in the order
    in which they first appear in the overlap list. *)
Theorem character_statistics_ties (ovs : list Overlap.t) (n : Z) :
  exists s : Statistics,
    calculate_character_statistics ovs = Ok s
    /\ map CharStat.character
         (filter (fun e => Z.eqb (CharStat.overlap_count e) n) (character_stats s))
       = filter (fun ch => Z.eqb (occurrences ch (slots ovs)) n)
           (first_seen (slots ovs)).
Proof.
  rewrite calculate_character_statistics_ok.
  pose proof (tally_nodup (slots ovs) [] (NoDup_nil _)) as Hnd.
  rewrite <- count_chars_tally in Hnd.
  assert (Hmain : forall t,
            map CharStat.character
              (filter (fun e => Z.eqb (CharStat.overlap_count e) n)
                 (map (stat_of t) (most_common (count_chars ovs))))
            = filter (fun ch => Z.eqb (occurrences ch (slots ovs)) n)
                (first_seen (slots ovs))).
  { intros t.
    assert (E1 : filter (fun e => Z.eqb (CharStat.overlap_count e) n)
                   (map (stat_of t) (most_common (count_chars ovs)))
                 = map (stat_of t)
                     (filter (fun e => Z.eqb (snd e) n)
                        (most_common (count_chars ovs)))).
    { generalize (most_common (count_chars ovs)). intros l.
      induction l as [|e rest IH]; cbn; [reflexivity|].
      destruct (Z.eqb (snd e) n); cbn; now rewrite IH. }
    rewrite E1, map_map, most_common_stable.
    rewrite (map_ext (fun e => CharStat.character (stat_of t e)) (@fst str Z)
               (fun e => eq_refl)).
    rewrite (counter_filter_keys (fun z => Z.eqb z n) _ Hnd).
    rewrite count_chars_keys. apply filter_ext. intros ch.
    rewrite count_chars_tally, tally_get. cbn. reflexivity. }
  destruct (count_chars ovs) as [|e0 c0] eqn:Ec.
  - eexists. split; [reflexivity|]. cbn [character_stats filter map].
    rewrite <- (Hmain 0%Z). reflexivity.
  - rewrite <- Ec in *. eexists. split; [reflexivity|]. apply Hmain.
Qed.

(** X17.  Every percentage of the table lies between 0 and 100. *)
Theorem character_statistics_percentages (ovs : list Overlap.t) :
  exists s : Statistics,
    calculate_character_statistics ovs = Ok s
    /\ Forall (fun e => is_percentage (CharStat.percentage e)) (character_stats s).
Proof.
  rewrite calculate_character_statistics_ok.
  pose proof (tally_nodup (slots ovs) [] (NoDup_nil _)) as Hnd.
  rewrite <- count_chars_tally in Hnd.
  destruct (count_chars ovs) as [|e0 c0] eqn:Ec.
  - eexists. split; [reflexivity | constructor].
  - rewrite <- Ec in *. eexists. split; [reflexivity|].
    cbn [character_stats]. apply Forall_forall. intros e He.
    apply in_map_iff in He. destruct He as ([k c] & <- & Hin).
    apply (Permutation_in _ (most_common_perm _)) in Hin.
    pose proof (counter_get_in k c _ Hnd Hin) as Hc.
    rewrite count_chars_tally, tally_get in Hc. cbn in Hc.
    pose proof (occurrences_le_length k (slots ovs)) as Hb.
    rewrite slots_length in Hb.
    assert (Hpos : (0 < 2 * Z.of_nat (List.length ovs))%Z).
    { destruct ovs as [|o rest]; [discriminate Ec | cbn [List.length]; lia]. }
    unfold stat_of. cbn [CharStat.percentage fst snd].
    set (t := (2 * Z.of_nat (List.length ovs))%Z) in *.
    destruct (float_percentage_bounds c t) as (L & U & _); [lia | exact Hpos |].
    apply py_round2_percentage; assumption.
Qed.

(* ================================================================== *)
(** ** Annotation overlay *)

Lemma get_position_label_known (x y page_width page_height : Q) :
  In (get_position_label x y page_width page_height) position_labels.
Proof.
  unfold get_position_label, v_pos, h_pos. cbv zeta.
  destruct (Qltb y (page_height / 3)); [|destruct (Qltb y (2 * (page_height / 3)))];
    (destruct (Qltb x (page_width / 3));
     [|destruct (Qltb x (2 * (page_width / 3)))]);
    vm_compute; tauto.
Qed.

Lemma label_positions_complete (label : str) (page_width page_height : Q) :
  In label position_labels ->
  exists pos, str_dict_get label (label_positions page_width page_height) = Some pos.
Proof.
  intros H. vm_compute in H.
  repeat (destruct H as [<- | H]; [eexists; reflexivity|]).
  destruct H.
Qed.

Lemma count_positions_tally (page_width page_height : Q) (rects : list Box) :
  count_positions page_width page_height rects
  = tally (map (label_of page_width page_height) rects) [].
Proof.
  unfold count_positions, tally. generalize (@nil (str * Z)).
  induction rects as [|[[[x y] w] h] rest IH]; intros acc; cbn; [reflexivity|].
  apply IH.
Qed.

Lemma count_positions_labels (page_width page_height : Q) (rects : list Box) :
  Forall (fun item => In (fst item) position_labels)
    (count_positions page_width page_height rects).
Proof.
  apply Forall_forall. intros [label count] Hin. cbn [fst].
  assert (Hk : In label (counter_keys (count_positions page_width page_height rects))).
  { unfold counter_keys. change label with (fst (label, count)). now apply in_map. }
  rewrite count_positions_tally, tally_keys in Hk. destruct Hk as [[] | Hk].
  apply in_map_iff in Hk. destruct Hk as ([[[x y] w] h] & <- & _).
  apply get_position_label_known.
Qed.

Lemma draw_labels_all (page_width page_height : Q) (position_counts : Counter) :
  Forall (fun item => In (fst item) position_labels) position_counts ->
  List.length (draw_labels page_width page_height position_counts)
  = List.length position_counts
  /\ filter is_draw_string (draw_labels page_width page_height position_counts)
     = draw_labels page_width page_height position_counts.
Proof.
  unfold draw_labels.
  induction 1 as [|[label count] rest Hl _ IH]; cbn [flat_map];
    [split; reflexivity|].
  destruct (label_positions_complete label page_width page_height Hl)
    as ([lx ly] & ->).
  destruct IH as (IH1 & IH2).
  cbn [app List.length filter is_draw_string]. now rewrite IH1, IH2.
Qed.

Lemma draw_rects_no_strings (page_height : Q) (rects : list Box) :
  filter is_draw_string (draw_rects page_height rects) = []
  /\ filter is_rect (draw_rects page_height rects) = draw_rects page_height rects.
Proof.
  unfold draw_rects. induction rects as [|[[[x y] w] h] rest (IH1 & IH2)];
    cbn; [split; reflexivity|].
  now rewrite IH1, IH2.
Qed.

Lemma draw_labels_no_rects (page_width page_height : Q) (position_counts : Counter) :
  filter is_rect (draw_labels page_width page_height position_counts) = [].
Proof.
  unfold draw_labels. induction position_counts as [|[label count] rest IH];
    cbn [flat_map]; [reflexivity|].
  rewrite filter_app, IH.
  now destruct (str_dict_get label _) as [[lx ly]|].
Qed.

Lemma overlay_strings_off (page_width page_height : Q) (rects : list Box) :
  filter is_draw_string (page_overlay page_width page_height rects false) = [].
Proof.
  unfold page_overlay. cbn [andb]. rewrite !filter_app.
  destruct (draw_rects_no_strings page_height rects) as (-> & _). reflexivity.
Qed.

Lemma overlay_strings_on (page_width page_height : Q) (rects : list Box) :
  filter is_draw_string (page_overlay page_width page_height rects true)
  = draw_labels page_width page_height
      (count_positions page_width page_height rects).
Proof.
  unfold page_overlay. cbn [andb].
  destruct (draw_labels_all page_width page_height _
              (count_positions_labels page_width page_height rects))
    as (_ & L2).
  destruct (draw_rects_no_strings page_height rects) as (Hr & _).
  set (pc := count_positions page_width page_height rects) in *.
  rewrite filter_app, filter_app, Hr. cbn [filter is_draw_string app].
  destruct pc as [|e c] eqn:E.
  - reflexivity.
  - cbn [List.length Nat.eqb negb]. rewrite filter_app.
    cbn [filter is_draw_string app]. rewrite L2. apply app_nil_r.
Qed.

(** X18.  Every label the position labeler can return has an entry in the
    label table of [annotate_pdf], so no counted label is skipped: with
    labels on, the overlay of a page counts each highlight box under one of
    the nine labels, the counts add up to the number of boxes, and one
    string is drawn per counted label.  With labels off no string is
    drawn. *)
Theorem position_labels_all_drawn (x y page_width page_height : Q)
    (rects : list Box) :
  (exists pos,
     str_dict_get (get_position_label x y page_width page_height)
       (label_positions page_width page_height) = Some pos)
  /\ counter_total (count_positions page_width page_height rects)
     = Z.of_nat (List.length rects)
  /\ Forall (fun item => In (fst item) position_labels)
       (count_positions page_width page_height rects)
  /\ List.length
       (filter is_draw_string (page_overlay page_width page_height rects true))
     = List.length (count_positions page_width page_height rects)
  /\ filter is_draw_string (page_overlay page_width page_height rects false) = [].
Proof.
  split; [apply label_positions_complete, get_position_label_known|].
  split.
  { rewrite count_positions_tally, tally_total, length_map. cbn. lia. }
  split; [apply count_positions_labels|].
  split; [|apply overlay_strings_off].
  rewrite overlay_strings_on.
  apply draw_labels_all, count_positions_labels.
Qed.

Lemma annotate_pages_nth (page_idx : Z) (pages : list (Q * Q))
    (highlights : Dict (list Box)) (add_labels : bool) (k : nat)
    (page_width page_height : Q) :
  nth_error pages k = Some (page_width, page_height) ->
  nth_error (annotate_pages page_idx pages highlights add_labels) k
  = Some (page_overlay page_width page_height
            (dict_get_list (page_idx + Z.of_nat k + 1) highlights) add_labels).
Proof.
  revert page_idx k. induction pages as [|[pw ph] rest IH]; intros page_idx k Hk.
  - destruct k; discriminate.
  - destruct k as [|k]; cbn [annotate_pages nth_error] in *.
    + injection Hk as -> ->. do 3 f_equal. lia.
    + rewrite (IH _ _ Hk). do 3 f_equal. lia.
Qed.

Lemma annotate_pages_length (page_idx : Z) (pages : list (Q * Q))
    (highlights : Dict (list Box)) (add_labels : bool) :
  List.length (annotate_pages page_idx pages highlights add_labels)
  = List.length pages.
Proof.
  revert page_idx. induction pages as [|[pw ph] rest IH]; intros page_idx; cbn;
    [reflexivity | now rewrite IH].
Qed.

Lemma overlay_rects (page_width page_height : Q) (rects : list Box)
    (add_labels : bool) :
  filter is_rect (page_overlay page_width page_height rects add_labels)
  = draw_rects page_height rects.
Proof.
  unfold page_overlay.
  generalize (if add_labels then count_positions page_width page_height rects
              else []).
  intros pc. rewrite filter_app, filter_app, filter_app.
  destruct (draw_rects_no_strings page_height rects) as (_ & ->).
  cbn [filter is_rect app].
  destruct (add_labels && negb (Nat.eqb (List.length pc) 0)).
  - cbn [filter is_rect app]. rewrite draw_labels_no_rects. apply app_nil_r.
  - cbn [filter is_rect app]. apply app_nil_r.
Qed.

(** X19.  [annotate_pdf] makes one overlay per page of the document; the
    overlay of the page at index [k] draws, with the y coordinate flipped to
    [page_height - y - h], exactly the highlight boxes stored under the
    1-based page number [k + 1] (none when that key is absent). *)
Theorem annotate_pdf_pages (pages : list (Q * Q)) (highlights : Dict (list Box))
    (add_labels : bool) (k : nat) (page_width page_height : Q)
    (Hk : nth_error pages k = Some (page_width, page_height)) :
  List.length (annotate_pdf pages highlights add_labels) = List.length pages
  /\ exists overlay : list CanvasOp,
       nth_error (annotate_pdf pages highlights add_labels) k = Some overlay
       /\ filter is_rect overlay
          = draw_rects page_height (dict_get_list (Z.of_nat k + 1) highlights).
Proof.
  unfold annotate_pdf. split; [apply annotate_pages_length|].
  rewrite (annotate_pages_nth 0 _ _ _ _ _ _ Hk). eexists. split; [reflexivity|].
  rewrite overlay_rects. now rewrite Z.add_0_l.
Qed.

Lemma annotate_pdf_pages_witness :
  nth_error [(300, 300); (300, 300)] 1 = Some (300, 300)
  /\ exists overlay : list CanvasOp,
       nth_error (annotate_pdf [(300, 300); (300, 300)]
                    [(2%Z, [(10, 20, 30, 40)])] true) 1
       = Some overlay
       /\ filter is_rect overlay = [Rect 10 (300 - 20 - 40) 30 40].
Proof.
  split; [reflexivity|].
  destruct (annotate_pdf_pages [(300, 300); (300, 300)]
              [(2%Z, [(10, 20, 30, 40)])] true 1 300 300 eq_refl)
    as (_ & overlay & E & Hr).
  exists overlay. split; [exact E | exact Hr].
Defined.

(* ================================================================== *)
(** ** JSON export *)

Lemma export_entry_ok (overlap : Overlap.t) :
  export_entry overlap = Ok (entry_of overlap).
Proof.
  unfold export_entry, entry_of. now rewrite calculate_overlap_percentage_ok.
Qed.

Lemma export_loop_ok (ovs : list Overlap.t) (by_page : Dict (list ExportEntry.t)) :
  export_loop ovs by_page = Ok (fold_left exported ovs by_page).
Proof.
  revert by_page. induction ovs as [|r rest IH]; intros by_page;
    cbn [export_loop fold_left]; [reflexivity|].
  rewrite export_entry_ok. cbn [bind]. apply IH.
Qed.

Lemma exported_get_list (p : Z) (ovs : list Overlap.t)
    (by_page : Dict (list ExportEntry.t)) :
  dict_get_list p (fold_left exported ovs by_page)
  = dict_get_list p by_page ++ map entry_of (filter (record_on_page p) ovs).
Proof.
  revert by_page. induction ovs as [|r rest IH]; intros by_page;
    cbn [fold_left filter map].
  - now rewrite app_nil_r.
  - rewrite IH. unfold exported, record_on_page. rewrite dsa_get_list.
    destruct (Z.eqb p (Overlap.page r)); cbn [map];
      [now rewrite <- app_assoc | reflexivity].
Qed.

Lemma exported_size (ovs : list Overlap.t) (by_page : Dict (list ExportEntry.t)) :
  dict_size (fold_left exported ovs by_page)
  = (dict_size by_page + Z.of_nat (List.length ovs))%Z.
Proof.
  revert by_page. induction ovs as [|r rest IH]; intros by_page;
    cbn [fold_left List.length]; [lia|].
  rewrite IH. unfold exported. rewrite dsa_size. lia.
Qed.

Lemma exported_nodup (ovs : list Overlap.t) (by_page : Dict (list ExportEntry.t)) :
  NoDup (dict_keys by_page) -> NoDup (dict_keys (fold_left exported ovs by_page)).
Proof.
  revert by_page. induction ovs as [|r rest IH]; intros by_page H;
    cbn [fold_left]; [exact H|].
  apply IH. unfold exported. now apply dsa_nodup.
Qed.

(** X20.  The export never fails.  The data it writes carries the given
    path and total, has one key per page, lists under page [p] one entry
    per record of that page in the order of the overlap list (with the
    record's characters and boxes and the metrics recomputed from the
    boxes), and holds as many entries as there are records. *)
Theorem export_data_contents (basename : str -> str) (pdf_path : str)
    (ovs : list Overlap.t) (total_overlaps : Z) (p : Z) :
  exists data : ExportData.t,
    export_overlaps_to_json basename pdf_path ovs total_overlaps = Ok data
    /\ ExportData.pdf_path data = pdf_path
    /\ ExportData.pdf_file data = basename pdf_path
    /\ ExportData.total_overlaps data = total_overlaps
    /\ NoDup (dict_keys (ExportData.overlaps_by_page data))
    /\ dict_get_list p (ExportData.overlaps_by_page data)
       = map entry_of (filter (fun r => Z.eqb p (Overlap.page r)) ovs)
    /\ dict_size (ExportData.overlaps_by_page data)
       = Z.of_nat (List.length ovs).
Proof.
  unfold export_overlaps_to_json. rewrite export_loop_ok. cbn [bind].
  eexists. split; [reflexivity|].
  cbn [ExportData.pdf_path ExportData.pdf_file ExportData.total_overlaps
       ExportData.overlaps_by_page].
  do 3 (split; [reflexivity|]).
  split; [apply exported_nodup; constructor|].
  split; [apply exported_get_list | apply exported_size].
Qed.

Lemma record_percentage (thr : Q) (items : Dict (list PageGlyph.t))
    (r : Overlap.t) :
  In r (all_records thr items) ->
  Overlap.percentage_of_union r
  = percentage_of_total (metrics (Overlap.a r) (Overlap.b r)).
Proof.
  intros H. apply in_all_records in H.
  destruct H as (page_num & glyphs & pr & _ & _ & _ & ->). reflexivity.
Qed.

(** X21.  Exporting what the finder returned: the exported total equals
    the number of exported entries, and on every page the exported
    percentages of union are, entry by entry, the percentages stored in the
    kept records (the ones compared with the threshold). *)
Theorem export_matches_finder (glyphs_by_page : Dict (list PageGlyph.t))
    (thr : Q) (basename : str -> str) (pdf_path : str) (p : Z) :
  exists o h n f data,
    find_overlaps_by_page glyphs_by_page thr = Ok (o, h, n, f)
    /\ export_overlaps_to_json basename pdf_path o n = Ok data
    /\ ExportData.total_overlaps data
       = dict_size (ExportData.overlaps_by_page data)
    /\ map ExportEntry.percentage_of_union
         (dict_get_list p (ExportData.overlaps_by_page data))
       = map Overlap.percentage_of_union
           (filter (fun r => Z.eqb p (Overlap.page r)) o).
Proof.
  rewrite find_overlaps_by_page_ok.
  do 5 eexists. split; [reflexivity|].
  split; [unfold export_overlaps_to_json; rewrite export_loop_ok; reflexivity|].
  cbn [ExportData.total_overlaps ExportData.overlaps_by_page].
  split; [now rewrite exported_size|].
  rewrite exported_get_list. cbn [dict_get_list dict_get app].
  rewrite map_map. apply map_ext_in. intros r Hr.
  apply filter_In in Hr. destruct Hr as (Hr & _).
  cbn. symmetry. eapply record_percentage. exact Hr.
Qed.

(* ================================================================== *)
(** ** Orchestration *)

Lemma calculate_character_statistics_total (ovs : list Overlap.t) :
  exists s, calculate_character_statistics ovs = Ok s.
Proof.
  rewrite calculate_character_statistics_ok.
  destruct (count_chars ovs); eauto.
Qed.

Lemma export_total (basename : str -> str) (pdf_path : str)
    (ovs : list Overlap.t) (total_overlaps : Z) :
  exists data, export_overlaps_to_json basename pdf_path ovs total_overlaps
               = Ok data.
Proof.
  unfold export_overlaps_to_json. rewrite export_loop_ok. cbn [bind]. eauto.
Qed.

Lemma str_endswith_app (s suffix : str) : str_endswith (s ++ suffix) suffix = true.
Proof.
  unfold str_endswith. rewrite length_app. apply andb_true_iff. split.
  - apply Nat.leb_le. lia.
  - replace (List.length s + List.length suffix - List.length suffix)%nat
      with (List.length s) by lia.
    rewrite skipn_app, skipn_all, Nat.sub_diag. cbn [skipn app].
    apply str_eqb_refl.
Qed.

Section Orchestration.

Variable str_upper : str -> str.
Variable str_isdigit str_isalpha : str -> bool.
Variable extract_glyph_bboxes : str -> result (list Glyph.t).
Variable read_pages : str -> list (Q * Q).
Variable splitext : str -> str * str.
Variable basename : str -> str.
Variable pdf_path : str.
Variable filter_watermarks add_labels : bool.
Variable overlap_threshold : Z.
Variable export_json : bool.
Variable union_percentage_threshold : Q.
Variable enable_char_trim : bool.
Variable trim_scale : Q.

Local Abbreviation run :=
  (process_pdf str_upper str_isdigit str_isalpha extract_glyph_bboxes
     read_pages splitext basename pdf_path filter_watermarks add_labels
     overlap_threshold export_json union_percentage_threshold
     enable_char_trim trim_scale).

Local Abbreviation detect :=
  (glyphs_list <- extract_glyph_bboxes pdf_path ;;
   group_and_find str_upper str_isdigit str_isalpha glyphs_list
     filter_watermarks union_percentage_threshold enable_char_trim trim_scale).

Local Abbreviation marked_name :=
  (fst (splitext pdf_path) ++ py_str "_marked" ++ snd (splitext pdf_path)).

Local Abbreviation json_name :=
  (fst (splitext pdf_path) ++ py_str "_overlaps.json").

Local Abbreviation marked_file h n :=
  (if Z.ltb overlap_threshold n then
     [WriteMarkedPdf marked_name
        (annotate_pdf (read_pages pdf_path) h add_labels)]
   else []).

(** What [process_pdf] returns once detection has succeeded. *)
Lemma process_pdf_shape (o : list Overlap.t) (h : Dict (list Box)) (n f : Z) :
  detect = Ok (o, h, n, f) ->
  exists (data : ExportData.t) (cs : option Statistics),
    export_overlaps_to_json basename pdf_path o n = Ok data
    /\ run = (marked_file h n
              ++ (if export_json && Z.ltb 0 n then [WriteJson json_name data]
                  else []),
              Ok (n,
                  (if Z.ltb overlap_threshold n then Some marked_name else None),
                  (if export_json && Z.ltb 0 n then Some json_name else None),
                  cs, f))
    /\ match cs with
       | Some s => calculate_character_statistics o = Ok s /\ (0 < n)%Z
       | None => (n <= 0)%Z
       end.
Proof.
  intros Hd. unfold process_pdf. rewrite Hd.
  destruct (splitext pdf_path) as [base ext]. cbn [fst snd].
  destruct (calculate_character_statistics_total o) as (s & Hs).
  destruct (export_total basename pdf_path o n) as (data & Hdata).
  rewrite Hs, Hdata. cbn [bind]. exists data.
  destruct (Z.ltb overlap_threshold n); destruct (Z.ltb 0 n) eqn:E0;
    destruct export_json; cbn [andb app];
    eexists; (split; [reflexivity|]); (split; [reflexivity|]);
    first [ split; [reflexivity | now apply Z.ltb_lt]
          | now apply Z.ltb_ge ].
Qed.

(** A raised exception means detection failed, before any file was
    written. *)
Lemma process_pdf_raise (events : list Event) (e : exn) :
  run = (events, Raise e) -> events = [] /\ detect = Raise e.
Proof.
  intros Hr. destruct detect as [[[[o h] n] f]|e'] eqn:Hd.
  - destruct (process_pdf_shape o h n f Hd) as (data & cs & _ & Hr' & _).
    rewrite Hr in Hr'. discriminate Hr'.
  - unfold process_pdf in Hr. rewrite Hd in Hr. injection Hr as <- <-. auto.
Qed.

Lemma detect_count (o : list Overlap.t) (h : Dict (list Box)) (n f : Z) :
  detect = Ok (o, h, n, f) -> n = Z.of_nat (List.length o).
Proof.
  destruct (extract_glyph_bboxes pdf_path) as [glyphs_list|e]; cbn [bind];
    [|discriminate].
  unfold group_and_find.
  destruct (group_glyphs_by_page _ _ _ _ _ _ _) as [by_page|e]; cbn [bind];
    [|discriminate].
  rewrite find_overlaps_by_page_ok. intros H. injection H as <- _ <- _.
  reflexivity.
Qed.

Lemma detect_ok (glyphs_list : list Glyph.t) :
  extract_glyph_bboxes pdf_path = Ok glyphs_list ->
  Forall has_page glyphs_list ->
  exists o h n f,
    detect = Ok (o, h, n, f)
    /\ group_and_find str_upper str_isdigit str_isalpha glyphs_list
         filter_watermarks union_percentage_threshold enable_char_trim
         trim_scale
       = Ok (o, h, n, f).
Proof.
  intros Hex Hp. rewrite Hex. cbn [bind]. unfold group_and_find.
  unfold group_glyphs_by_page.
  rewrite group_loop_grouped by exact Hp. cbn [bind].
  rewrite find_overlaps_by_page_ok. do 4 eexists.
  split; reflexivity.
Qed.

(** X22.  When extraction succeeds and every glyph has a page number,
    [process_pdf] returns normally with the finder's total and filtered
    count.  A marked PDF, drawn from the finder's highlights, is written
    exactly when the total exceeds the overlap threshold; the JSON file
    exactly when export is requested and the total is positive; nothing else
    is written.  The statistics are present exactly when the total is
    positive. *)
Theorem process_pdf_outputs (glyphs_list : list Glyph.t)
    (Hex : extract_glyph_bboxes pdf_path = Ok glyphs_list)
    (Hp : Forall (fun g => Glyph.page g <> None) glyphs_list) :
  exists o h n f data cs,
    group_and_find str_upper str_isdigit str_isalpha glyphs_list
      filter_watermarks union_percentage_threshold enable_char_trim trim_scale
    = Ok (o, h, n, f)
    /\ export_overlaps_to_json basename pdf_path o n = Ok data
    /\ run = ((if Z.ltb overlap_threshold n then
                 [WriteMarkedPdf marked_name
                    (annotate_pdf (read_pages pdf_path) h add_labels)]
               else [])
              ++ (if export_json && Z.ltb 0 n then [WriteJson json_name data]
                  else []),
              Ok (n,
                  (if Z.ltb overlap_threshold n then Some marked_name else None),
                  (if export_json && Z.ltb 0 n then Some json_name else None),
                  cs, f))
    /\ match cs with
       | Some s => calculate_character_statistics o = Ok s /\ (0 < n)%Z
       | None => n = 0%Z
       end.
Proof.
  destruct (detect_ok glyphs_list Hex Hp) as (o & h & n & f & Hd & Hg).
  pose proof (detect_count o h n f Hd) as Hn.
  destruct (process_pdf_shape o h n f Hd) as (data & cs & Hx & Hr & Hc).
  exists o, h, n, f, data, cs.
  repeat (split; [assumption|]).
  destruct cs; [exact Hc | lia].
Qed.

(** X23.  When some extracted glyph has no page number, [process_pdf]
    raises the data error and writes no file; when the extractor itself
    raises, that exception is passed on, again with no file written. *)
Theorem process_pdf_failures (glyphs_list : list Glyph.t)
    (Hm : Exists (fun g => Glyph.page g = None) glyphs_list) :
  (extract_glyph_bboxes pdf_path = Ok glyphs_list ->
   run = ([], Raise (ValueError "Glyph record missing page number")))
  /\ (forall e, extract_glyph_bboxes pdf_path = Raise e -> run = ([], Raise e)).
Proof.
  split.
  - intros Hex. unfold process_pdf. rewrite Hex. cbn [bind].
    unfold group_and_find, group_glyphs_by_page.
    destruct (group_loop_cases str_upper str_isdigit str_isalpha
                filter_watermarks enable_char_trim trim_scale glyphs_list
                (Group.mk [] 0 0)) as [(_ & ->) | (Hall & _)].
    + reflexivity.
    + destruct (missing_excludes_all_present _ Hm Hall).
  - intros e Hex. unfold process_pdf. now rewrite Hex.
Qed.

(** X24.  For an input whose extension is ".pdf", the marked file
    [process_pdf] writes is named base + "_marked.pdf", and [main]'s input
    filter drops such a path, so a marked output is never processed
    again. *)
Theorem marked_output_skipped (base mp : str) (events : list Event)
    (n f : Z) (json : option str) (cs : option Statistics)
    (Hs : splitext pdf_path = (base, py_str ".pdf"))
    (Hr : run = (events, Ok (n, Some mp, json, cs, f))) :
  mp = base ++ py_str "_marked.pdf"
  /\ In mp (map event_path events)
  /\ skip_marked [mp] = [].
Proof.
  destruct detect as [[[[o h] n'] f']|e] eqn:Hd.
  - destruct (process_pdf_shape o h n' f' Hd) as (data & cs' & _ & Hr' & _).
    rewrite Hr in Hr'. injection Hr' as He <- Hmp _ _ _.
    rewrite Hs in Hmp, He. cbn [fst snd] in Hmp, He.
    destruct (Z.ltb overlap_threshold n); [|discriminate Hmp].
    injection Hmp as ->.
    split; [reflexivity|]. split.
    + rewrite He. cbn [map app event_path]. left. reflexivity.
    + match goal with
      | |- skip_marked [?X] = [] =>
          change X with (base ++ py_str "_marked.pdf")
      end.
      unfold skip_marked. cbn [filter]. now rewrite str_endswith_app.
  - unfold process_pdf in Hr. rewrite Hd in Hr. discriminate Hr.
Qed.

(** A normal return determines the files written. *)
Lemma process_pdf_ok_inv (events : list Event) (n f : Z)
    (marked json : option str) (cs : option Statistics) :
  run = (events, Ok (n, marked, json, cs, f)) ->
  (0 <= n)%Z
  /\ marked = (if Z.ltb overlap_threshold n then Some marked_name else None)
  /\ json = (if export_json && Z.ltb 0 n then Some json_name else None)
  /\ exists h data,
       events = marked_file h n
                ++ (if export_json && Z.ltb 0 n then [WriteJson json_name data]
                    else []).
Proof.
  intros Hr. destruct detect as [[[[o h] n'] f']|e] eqn:Hd.
  - destruct (process_pdf_shape o h n' f' Hd) as (data & cs' & _ & Hr' & _).
    pose proof (detect_count o h n' f' Hd) as Hn.
    rewrite Hr in Hr'. injection Hr' as He <- Hm Hj _ _.
    split; [lia|]. split; [exact Hm|]. split; [exact Hj|].
    exists h, data. exact He.
  - unfold process_pdf in Hr. rewrite Hd in Hr. discriminate Hr.
Qed.

End Orchestration.

Lemma process_pdf_outputs_witness :
  (sample_extract (py_str "doc.pdf") = Ok [scenario_glyph; scenario_glyph]
   /\ Forall (fun g => Glyph.page g <> None) [scenario_glyph; scenario_glyph])
  /\ exists events n marked json cs f,
       sample_process (py_str "doc.pdf")
       = (events, Ok (n, marked, json, cs, f)).
Proof.
  assert (Hp : Forall (fun g => Glyph.page g <> None)
                 [scenario_glyph; scenario_glyph])
    by (repeat constructor; discriminate).
  split; [split; [reflexivity | exact Hp]|].
  destruct (process_pdf_outputs (fun s => s) (fun _ => false) (fun _ => true)
              sample_extract sample_pages sample_splitext (fun s => s)
              (py_str "doc.pdf") true true 0 true 0 false 1
              [scenario_glyph; scenario_glyph] eq_refl Hp)
    as (o & h & n & f & data & cs & _ & _ & Hr & _).
  unfold sample_process. rewrite Hr. eauto 10.
Defined.

Lemma process_pdf_failures_witness :
  Exists (fun g => Glyph.page g = None)
    [scenario_glyph; Glyph.mk (py_str "B") None (0, 0, 10, 10) (Some 12)]
  /\ process_pdf (fun s => s) (fun _ => false) (fun _ => true)
       sample_bad_extract sample_pages sample_splitext (fun s => s)
       (py_str "doc.pdf") true true 0 true 0 false 1
     = ([], Raise (ValueError "Glyph record missing page number")).
Proof.
  assert (Hm : Exists (fun g => Glyph.page g = None)
                 [scenario_glyph;
                  Glyph.mk (py_str "B") None (0, 0, 10, 10) (Some 12)])
    by (apply Exists_cons_tl, Exists_cons_hd; reflexivity).
  split; [exact Hm|].
  exact (proj1 (process_pdf_failures (fun s => s) (fun _ => false)
                  (fun _ => true) sample_bad_extract sample_pages
                  sample_splitext (fun s => s) (py_str "doc.pdf") true true 0
                  true 0 false 1 _ Hm) eq_refl).
Defined.

Lemma marked_output_skipped_witness :
  exists mp events n f json cs,
    sample_splitext (py_str "doc.pdf") = (py_str "doc", py_str ".pdf")
    /\ sample_process (py_str "doc.pdf") = (events, Ok (n, Some mp, json, cs, f))
    /\ mp = py_str "doc_marked.pdf"
    /\ skip_marked [mp] = [].
Proof.
  do 6 eexists. split; [reflexivity|].
  assert (Hr : sample_process (py_str "doc.pdf")
               = (?[events], Ok (?[n], Some ?[mp], ?[json], ?[cs], ?[f])))
    by (vm_compute; reflexivity).
  split; [exact Hr|].
  destruct (marked_output_skipped (fun s => s) (fun _ => false) (fun _ => true)
              sample_extract sample_pages sample_splitext (fun s => s)
              (py_str "doc.pdf") true true 0 true 0 false 1 (py_str "doc")
              _ _ _ _ _ _ eq_refl Hr) as (E & _ & Hs).
  split; [exact E | exact Hs].
Defined.

(* ================================================================== *)
(** ** The batch loop of [main] *)

Lemma count_if_app {A : Type} (f : A -> bool) (l l' : list A) :
  count_if f (l ++ l') = (count_if f l + count_if f l')%Z.
Proof. unfold count_if. rewrite filter_app, length_app. lia. Qed.

Lemma truthy_marked (s t : str) :
  truthy (Some (s ++ py_str "_marked" ++ t)) = true.
Proof. destruct s; reflexivity. Qed.

Lemma truthy_json (s : str) : truthy (Some (s ++ py_str "_overlaps.json")) = true.
Proof. destruct s; reflexivity. Qed.

Section Batch.

Variable str_upper : str -> str.
Variable str_isdigit str_isalpha : str -> bool.
Variable extract_glyph_bboxes : str -> result (list Glyph.t).
Variable read_pages : str -> list (Q * Q).
Variable splitext : str -> str * str.
Variable basename : str -> str.
Variable filter_watermarks add_labels : bool.
Variable overlap_threshold : Z.
Variable export_json : bool.
Variable union_percentage_threshold : Q.
Variable enable_char_trim : bool.
Variable trim_scale : Q.

Local Abbreviation process :=
  (fun pdf_path =>
     process_pdf str_upper str_isdigit str_isalpha extract_glyph_bboxes
       read_pages splitext basename pdf_path filter_watermarks add_labels
       overlap_threshold export_json union_percentage_threshold
       enable_char_trim trim_scale).

Lemma main_step_raise (st : MainState) (pdf_path : str) (e : exn) :
  snd (process pdf_path) = Raise e -> main_step process st pdf_path = st.
Proof.
  intros H. unfold main_step. cbv beta in *.
  destruct (process_pdf _ _ _ _ _ _ _ pdf_path _ _ _ _ _ _ _)
    as [events outcome] eqn:Hr.
  cbn [snd] in H. subst outcome.
  apply process_pdf_raise in Hr. destruct Hr as (-> & _).
  destruct st. cbn. now rewrite app_nil_r.
Qed.

Lemma main_step_counts (st : MainState) (pdf_path : str) :
  (0 <= overlap_threshold)%Z ->
  total_marked st = count_if is_marked_pdf (written st)
  /\ total_json st = count_if is_write_json (written st) ->
  total_marked (main_step process st pdf_path)
  = count_if is_marked_pdf (written (main_step process st pdf_path))
  /\ total_json (main_step process st pdf_path)
     = count_if is_write_json (written (main_step process st pdf_path)).
Proof.
  intros Ht (Im & Ij).
  destruct (snd (process pdf_path)) as [res|e] eqn:Hs.
  - unfold main_step. cbv beta in *.
    destruct (process_pdf _ _ _ _ _ _ _ pdf_path _ _ _ _ _ _ _)
      as [events outcome] eqn:Hr.
    cbn [snd] in Hs. subst outcome.
    destruct res as [[[[n marked] json] cs] f].
    apply process_pdf_ok_inv in Hr.
    destruct Hr as (Hn & -> & -> & h & data & ->).
    destruct (Z.eqb n 0) eqn:E0.
    + apply Z.eqb_eq in E0. subst n.
      rewrite (proj2 (Z.ltb_ge overlap_threshold 0) Ht).
      rewrite andb_false_r. cbn [app written total_marked total_json].
      now rewrite app_nil_r.
    + apply Z.eqb_neq in E0.
      assert (P : Z.ltb 0 n = true) by (apply Z.ltb_lt; lia).
      rewrite P, andb_true_r.
      cbn [written total_marked total_json]. rewrite !count_if_app, <- Im, <- Ij.
      destruct (Z.ltb overlap_threshold n), export_json;
        rewrite ?truthy_marked, ?truthy_json;
        cbn [truthy]; unfold count_if; cbn; split; lia.
  - rewrite (main_step_raise st pdf_path e Hs). auto.
Qed.

(** X25.  With an overlap threshold that is not negative, the two
    counters of [main]'s summary are the numbers of marked PDFs and of JSON
    files actually written during the batch, whichever documents failed. *)
Theorem main_summary_counts (pdf_paths : list str)
    (Ht : (0 <= overlap_threshold)%Z) :
  total_marked (main_loop process pdf_paths)
  = count_if is_marked_pdf (written (main_loop process pdf_paths))
  /\ total_json (main_loop process pdf_paths)
     = count_if is_write_json (written (main_loop process pdf_paths)).
Proof.
  unfold main_loop.
  assert (I0 : total_marked (mkMain [] 0 0)
               = count_if is_marked_pdf (written (mkMain [] 0 0))
               /\ total_json (mkMain [] 0 0)
                  = count_if is_write_json (written (mkMain [] 0 0)))
    by (split; reflexivity).
  revert I0. generalize (mkMain [] 0 0).
  induction pdf_paths as [|p rest IH]; intros st I; cbn [fold_left];
    [exact I|].
  apply IH. now apply main_step_counts.
Qed.

(** X26.  A document whose processing raises does not disturb the batch:
    the loop goes on, and the files written and the counters are the same
    as if that document had not been in the list. *)
Theorem main_isolates_failure (before after : list str) (bad : str) (e : exn)
    (Hbad : snd (process bad) = Raise e) :
  main_loop process (before ++ bad :: after)
  = main_loop process (before ++ after).
Proof.
  unfold main_loop. rewrite !fold_left_app. cbn [fold_left].
  now rewrite (main_step_raise _ bad e Hbad).
Qed.

End Batch.

Lemma main_summary_counts_witness :
  (0 <= 0)%Z
  /\ total_marked (main_loop sample_mixed_process
                     [py_str "a.pdf"; py_str "bad.pdf"; py_str "b.pdf"])
     = count_if is_marked_pdf
         (written (main_loop sample_mixed_process
                     [py_str "a.pdf"; py_str "bad.pdf"; py_str "b.pdf"])).
Proof.
  split; [lia|].
  exact (proj1 (main_summary_counts (fun s => s) (fun _ => false)
                  (fun _ => true) sample_mixed_extract sample_pages
                  sample_splitext (fun s => s) true true 0 true 0 false 1
                  [py_str "a.pdf"; py_str "bad.pdf"; py_str "b.pdf"]
                  ltac:(lia))).
Defined.

Lemma main_isolates_failure_witness :
  snd (sample_mixed_process (py_str "bad.pdf"))
  = Raise (ValueError "Glyph record missing page number")
  /\ main_loop sample_mixed_process
       [py_str "a.pdf"; py_str "bad.pdf"; py_str "b.pdf"]
     = main_loop sample_mixed_process [py_str "a.pdf"; py_str "b.pdf"].
Proof.
  split; [reflexivity|].
  exact (main_isolates_failure (fun s => s) (fun _ => false) (fun _ => true)
           sample_mixed_extract sample_pages sample_splitext (fun s => s)
           true true 0 true 0 false 1 [py_str "a.pdf"] [py_str "b.pdf"]
           (py_str "bad.pdf") _ eq_refl).
Defined.

(* ================================================================== *)
(** ** From the glyph list to the records *)

Lemma dict_get_in {V : Type} (d : Dict V) (k : Z) (v : V) :
  NoDup (dict_keys d) -> In (k, v) d -> dict_get k d = Some v.
Proof.
  unfold dict_keys. induction d as [|[k0 v0] rest IH]; cbn; intros Hnd Hin;
    [contradiction|].
  inversion Hnd as [|? ? Hnin Hnd']; subst.
  destruct Hin as [H | Hin].
  - injection H as -> ->. now rewrite Z.eqb_refl.
  - destruct (Z.eqb k k0) eqn:E; [|now apply IH].
    apply Z.eqb_eq in E. subst k0. exfalso. apply Hnin.
    change k with (fst (k, v)). now apply in_map.
Qed.

Lemma glyph_dict_of_box (str_isdigit str_isalpha : str -> bool)
    (enable_char_trim : bool) (trim_scale : Q) (g : Glyph.t) :
  box_of (glyph_dict_of str_isdigit str_isalpha enable_char_trim trim_scale g)
  = stored_bbox str_isdigit str_isalpha enable_char_trim trim_scale g
  /\ PageGlyph.char
       (glyph_dict_of str_isdigit str_isalpha enable_char_trim trim_scale g)
     = Glyph.char g.
Proof.
  unfold glyph_dict_of.
  destruct (stored_bbox _ _ _ _ g) as [[[bx by_] bw] bh]. split; reflexivity.
Qed.

Lemma on_page_true (p : Z) (g : Glyph.t) :
  on_page p g = true -> Glyph.page g = Some p.
Proof.
  unfold on_page. destruct (Glyph.page g) as [q|]; [|discriminate].
  intros H. apply Z.eqb_eq in H. now subst.
Qed.

(** X27.  End to end: every record returned for a glyph list in which
    each glyph has a page pairs two glyphs of the input that lie on the
    record's page and passed the watermark filter; the record carries their
    characters and their boxes as stored by the grouper (trimmed when
    trimming is on). *)
Theorem detected_pairs_from_input (str_upper : str -> str)
    (str_isdigit str_isalpha : str -> bool) (glyphs_list : list Glyph.t)
    (filter_watermarks : bool) (thr : Q) (enable_char_trim : bool)
    (trim_scale : Q)
    (Hp : Forall (fun g => Glyph.page g <> None) glyphs_list) :
  exists o h n f,
    group_and_find str_upper str_isdigit str_isalpha glyphs_list
      filter_watermarks thr enable_char_trim trim_scale
    = Ok (o, h, n, f)
    /\ Forall
         (fun r =>
            exists g1 g2 : Glyph.t,
              In g1 glyphs_list /\ In g2 glyphs_list
              /\ Glyph.page g1 = Some (Overlap.page r)
              /\ Glyph.page g2 = Some (Overlap.page r)
              /\ retained str_upper filter_watermarks g1 = true
              /\ retained str_upper filter_watermarks g2 = true
              /\ Overlap.char_a r = Glyph.char g1
              /\ Overlap.char_b r = Glyph.char g2
              /\ Overlap.a r
                 = stored_bbox str_isdigit str_isalpha enable_char_trim
                     trim_scale g1
              /\ Overlap.b r
                 = stored_bbox str_isdigit str_isalpha enable_char_trim
                     trim_scale g2)
         o.
Proof.
  unfold group_and_find, group_glyphs_by_page.
  rewrite group_loop_grouped by exact Hp. cbn [bind].
  rewrite find_overlaps_by_page_ok. do 4 eexists. split; [reflexivity|].
  set (bp := Group.by_page _).
  assert (Hnd : NoDup (dict_keys bp))
    by (apply grouped_nodup; constructor).
  assert (Hsrc : forall page_num gl pg,
            In (page_num, gl) bp -> In pg gl ->
            exists g, In g glyphs_list
                      /\ Glyph.page g = Some page_num
                      /\ retained str_upper filter_watermarks g = true
                      /\ pg = glyph_dict_of str_isdigit str_isalpha
                                enable_char_trim trim_scale g).
  { intros page_num gl pg Hin Hpg.
    pose proof (grouped_get_list str_upper str_isdigit str_isalpha
                  filter_watermarks enable_char_trim trim_scale page_num
                  glyphs_list (Group.mk [] 0 0) Hp) as E.
    fold bp in E. unfold dict_get_list in E.
    rewrite (dict_get_in bp page_num gl Hnd Hin) in E. cbn in E. subst gl.
    unfold page_glyphs in Hpg. apply in_map_iff in Hpg.
    destruct Hpg as (g & <- & Hg). apply filter_In in Hg.
    destruct Hg as (Hg & Hk). apply andb_true_iff in Hk. destruct Hk as (Hk & Ho).
    exists g. repeat split; [assumption | now apply on_page_true | assumption]. }
  apply Forall_forall. intros r Hr. apply in_all_records in Hr.
  destruct Hr as (page_num & gl & [gi gj] & Hin & Hpair & _ & ->).
  apply pairs_members in Hpair. destruct Hpair as (Hi & Hj). cbn [fst snd] in *.
  destruct (Hsrc page_num gl gi Hin Hi) as (g1 & In1 & P1 & K1 & ->).
  destruct (Hsrc page_num gl gj Hin Hj) as (g2 & In2 & P2 & K2 & ->).
  exists g1, g2. unfold record_of.
  cbn [Overlap.page Overlap.a Overlap.b Overlap.char_a Overlap.char_b fst snd].
  destruct (glyph_dict_of_box str_isdigit str_isalpha enable_char_trim
              trim_scale g1) as (B1 & C1).
  destruct (glyph_dict_of_box str_isdigit str_isalpha enable_char_trim
              trim_scale g2) as (B2 & C2).
  repeat (split; [assumption|]). exact B2.
Qed.

Lemma detected_pairs_from_input_witness :
  Forall (fun g => Glyph.page g <> None) [scenario_glyph; scenario_glyph]
  /\ exists o h n f,
       group_and_find (fun s => s) (fun _ => false) (fun _ => true)
         [scenario_glyph; scenario_glyph] true 0 false 1
       = Ok (o, h, n, f)
       /\ Forall (fun r => exists g1 g2 : Glyph.t,
                    In g1 [scenario_glyph; scenario_glyph]
                    /\ In g2 [scenario_glyph; scenario_glyph]
                    /\ Overlap.char_a r = Glyph.char g1
                    /\ Overlap.char_b r = Glyph.char g2) o.
Proof.
  assert (Hp : Forall (fun g => Glyph.page g <> None)
                 [scenario_glyph; scenario_glyph])
    by (repeat constructor; discriminate).
  split; [exact Hp|].
  destruct (detected_pairs_from_input (fun s => s) (fun _ => false)
              (fun _ => true) [scenario_glyph; scenario_glyph] true 0 false 1 Hp)
    as (o & h & n & f & E & Hall).
  exists o, h, n, f. split; [exact E|].
  revert Hall. apply Forall_impl.
  intros r (g1 & g2 & I1 & I2 & _ & _ & _ & _ & C1 & C2 & _).
  exists g1, g2. auto.
Defined.
